(** * sqlmap: the command line and the thread runner

    Two modules of sqlmap are followed here, function by function:
    lib/parse/cmdline.py, which prepares the arguments of the command line
    for the parser of the options, and lib/core/threads.py, which runs a
    function in a number of worker threads.  Each part gives the
    functions of its module first, and the properties of the two modules
    come after. *)

From Stdlib Require Import List String Ascii Bool NArith ZArith QArith Lia Arith.
Import ListNotations.

Local Open Scope string_scope.
Local Open Scope Z_scope.
Local Open Scope list_scope.

(** * lib/parse/cmdline.py: the preparation of the command line

    The part follows the module: the helpers [get_actions], [get_groups]
    and [get_all_options], and of [cmdLineParser] the passes it makes
    over [argv] before and after the options are parsed: the loop that
    rewrites the arguments one by one, the loop that takes the [-v]
    switches out, and the merge of the extra headers.  The parsers of
    optparse and argparse, the file system and the Unicode tables of the
    interpreter are not part of the sources: what the code asks of them
    is a field of [Host], and a parser is the attributes that the code
    reads and writes. *)

Module CmdLine.

Local Open Scope nat_scope.

(** ** Strings *)

(** A [str]: the list of its code points. *)
Definition str : Type := list N.

(** The [str] of a literal made of ASCII characters. *)
Fixpoint u (s : string) : str :=
  match s with
  | EmptyString => []
  | String c r => N_of_ascii c :: u r
  end.

(** [a == b] *)
Fixpoint eqb (a b : str) : bool :=
  match a, b with
  | [], [] => true
  | x :: a', y :: b' => N.eqb x y && eqb a' b'
  | _, _ => false
  end.

(** [x in l], for a tuple, a set or the keys of a dict *)
Definition mem (x : str) (l : list str) : bool := existsb (eqb x) l.

(** [c in s], for a single character *)
Definition has (c : N) (s : str) : bool := existsb (N.eqb c) s.

(** [s.startswith(p)] *)
Fixpoint startswith (p s : str) : bool :=
  match p, s with
  | [], _ => true
  | x :: p', y :: s' => N.eqb x y && startswith p' s'
  | _ :: _, [] => false
  end.

(** [p in s], for a string *)
Fixpoint infix (p s : str) : bool :=
  startswith p s
  || match s with
     | [] => false
     | _ :: s' => infix p s'
     end.

Fixpoint lstrip (f : N -> bool) (s : str) : str :=
  match s with
  | c :: s' => if f c then lstrip f s' else s
  | [] => []
  end.

Definition rstrip (f : N -> bool) (s : str) : str := rev (lstrip f (rev s)).

(** [s.strip(chars)], [f] saying which characters are among [chars] *)
Definition strip (f : N -> bool) (s : str) : str := rstrip f (lstrip f s).

(** [s.split(sep)], for a single character *)
Fixpoint split (sep : N) (s : str) : list str :=
  match s with
  | [] => [[]]
  | c :: s' =>
      if N.eqb c sep then [] :: split sep s'
      else match split sep s' with
           | w :: ws => (c :: w) :: ws
           | [] => [[c]]
           end
  end.

(** [s.split(sep, 1)] *)
Fixpoint split1 (sep : N) (s : str) : list str :=
  match s with
  | [] => [[]]
  | c :: s' =>
      if N.eqb c sep then [[]; s']
      else match split1 sep s' with
           | w :: ws => (c :: w) :: ws
           | [] => [[c]]
           end
  end.

(** [s.replace(old, new, 1)] *)
Fixpoint replace1 (old new s : str) : str :=
  if startswith old s then new ++ skipn (List.length old) s
  else match s with
       | [] => []
       | c :: s' => c :: replace1 old new s'
       end.

(** [d.join(l)] *)
Fixpoint join (d : str) (l : list str) : str :=
  match l with
  | [] => []
  | [x] => x
  | x :: l' => x ++ d ++ join d l'
  end.

(** [s.count(c)], for a single character *)
Definition count (c : N) (s : str) : nat := List.length (filter (N.eqb c) s).

(** [l[k]] for a list and an integer, negative ones counting from the
    end; [None] is [IndexError]. *)
Definition item {A} (l : list A) (k : Z) : option A :=
  if (0 <=? k)%Z then nth_error l (Z.to_nat k)
  else if (- Z.of_nat (List.length l) <=? k)%Z
       then nth_error l (Z.to_nat (Z.of_nat (List.length l) + k))
       else None.

(** [l[k] = x] for a list and an index that is not negative; [None] is
    [IndexError]. *)
Fixpoint store {A} (l : list A) (k : nat) (x : A) : option (list A) :=
  match l, k with
  | [], _ => None
  | _ :: l', O => Some (x :: l')
  | y :: l', S k' =>
      match store l' k' x with
      | Some l'' => Some (y :: l'')
      | None => None
      end
  end.

(** [l.index(x)], [None] being [ValueError] *)
Fixpoint index (x : str) (l : list str) : option nat :=
  match l with
  | [] => None
  | y :: l' =>
      if eqb y x then Some O
      else match index x l' with
           | Some k => Some (S k)
           | None => None
           end
  end.

(** [del l[k]] for an index within the list *)
Fixpoint delete {A} (k : nat) (l : list A) : list A :=
  match l, k with
  | [], _ => []
  | _ :: l', O => l'
  | y :: l', S k' => y :: delete k' l'
  end.

(** ** What the code asks of its host *)

Record Host : Type := MkHost {
  unicode_alnum : N -> bool;        (* \w, for the code points from 128 *)
  unicode_decimal : N -> bool;      (* \d, for the code points from 128 *)
  unicode_space : N -> bool;        (* str.strip(), for the code points from 128 *)
  unicode_isdigit : N -> bool;      (* str.isdigit(), for the code points from 128 *)
  isfile : str -> bool;             (* os.path.isfile *)
  longOptions : list str;           (* the names followed by "=" in parser.format_help() *)
  longSwitches : list str;          (* the names followed by a space there *)
  IGNORED_OPTIONS : list str;       (* lib.core.settings *)
  DEPRECATED_OPTIONS : list str;    (* the keys of the dict of lib.core.dicts *)
  BASIC_HELP_ITEMS : list str;      (* lib.core.settings *)
  VERSION_STRING : str              (* lib.core.settings *)
}.

(** ** Classes of characters *)

Definition between (lo hi c : N) : bool := (lo <=? c)%N && (c <=? hi)%N.

(** [\w]: below 128 the letters, the digits and the underscore. *)
Definition word (h : Host) (c : N) : bool :=
  if (c <? 128)%N
  then between 48 57 c || between 65 90 c || between 97 122 c || N.eqb c 95
  else unicode_alnum h c.

(** [\d] *)
Definition decimal (h : Host) (c : N) : bool :=
  if (c <? 128)%N then between 48 57 c else unicode_decimal h c.

(** The characters that [str.strip()] removes: below 128 the tabulation,
    the line feeds and returns, the four separators and the space. *)
Definition space (h : Host) (c : N) : bool :=
  if (c <? 128)%N then between 9 13 c || between 28 32 c else unicode_space h c.

(** [s.isdigit()] *)
Definition isdigit (h : Host) (s : str) : bool :=
  match s with
  | [] => false
  | _ => forallb (fun c => if (c <? 128)%N then between 48 57 c else unicode_isdigit h c) s
  end.

(** [.] *)
Definition dot (c : N) : bool := negb (N.eqb c 10).

Definition one (x : N) (c : N) : bool := N.eqb c x.

Definition among (l : list N) (c : N) : bool := existsb (N.eqb c) l.

(** The characters that the loop takes for hyphens at the start of an
    argument. *)
Definition dash : N -> bool :=
  among [0x2010; 0x2013; 0x2212; 0x2014; 0x4e00; 0x1680; 0xFE63; 0xFF0D]%N.

(** The quotation marks that the loop strips from both ends of an
    argument. *)
Definition quote : N -> bool :=
  among [0x00AB; 0x2039; 0x00BB; 0x203A; 0x201E; 0x201C; 0x201F; 0x201D; 0x2019;
         0x275D; 0x275E; 0x276E; 0x276F; 0x2E42; 0x301D; 0x301E; 0x301F; 0xFF02;
         0x201A; 0x2018; 0x201B; 0x275B; 0x275C]%N.

(** [ord(c) in xrange(0x2018, 0x2020)] *)
Definition curly (c : N) : bool := (0x2018 <=? c)%N && (c <? 0x2020)%N.

(** ** Regular expressions *)

(** The constructs that the patterns of the module use.  A repetition is
    that of a class of characters, and is greedy. *)
Inductive re : Type :=
| Chr (c : N)                                      (* a character *)
| Cls (f : N -> bool)                              (* a class *)
| Cat (a b : re)                                   (* ab *)
| Alt (a b : re)                                   (* a|b *)
| Rep (f : N -> bool) (lo : nat) (hi : option nat) (* f{lo,hi}; f+ is f{1,}, f? is f{0,1} *)
| Bos                                              (* \A *)
| Eos                                              (* \Z *)
| Bnd (w : N -> bool)                              (* \b, w being \w *)
| Not (c : N).                                     (* (?!c) *)

(** The characters of a literal, one after the other. *)
Fixpoint lit (s : str) : re :=
  match s with
  | [] => Rep (fun _ => false) 0 (Some 0)
  | [c] => Chr c
  | c :: s' => Cat (Chr c) (lit s')
  end.

(** A position in the subject: what is before it, the nearest first, and
    what is ahead. *)
Definition pos : Type := (str * str)%type.

(** The positions at which a repetition of [f] that starts at the
    position may end, the longest first. *)
Fixpoint rep (f : N -> bool) (lo : nat) (hi : option nat) (before ahead : str) : list pos :=
  match ahead with
  | c :: ahead' =>
      (if f c && match hi with Some O => false | _ => true end
       then rep f (pred lo) (option_map pred hi) (c :: before) ahead'
       else [])
      ++ (if lo =? 0 then [(before, ahead)] else [])
  | [] => if lo =? 0 then [(before, [])] else []
  end.

Definition wordy (w : N -> bool) (s : str) : bool :=
  match s with
  | c :: _ => w c
  | [] => false
  end.

(** The positions at which a match of [r] that starts at [p] may end, in
    the order in which the matcher tries them. *)
Fixpoint ends (r : re) (p : pos) : list pos :=
  match r with
  | Chr c =>
      match snd p with
      | x :: ahead => if N.eqb x c then [(x :: fst p, ahead)] else []
      | [] => []
      end
  | Cls f =>
      match snd p with
      | x :: ahead => if f x then [(x :: fst p, ahead)] else []
      | [] => []
      end
  | Cat a b => flat_map (ends b) (ends a p)
  | Alt a b => ends a p ++ ends b p
  | Rep f lo hi => rep f lo hi (fst p) (snd p)
  | Bos => match fst p with [] => [p] | _ => [] end
  | Eos => match snd p with [] => [p] | _ => [] end
  | Bnd w => if xorb (wordy w (fst p)) (wordy w (snd p)) then [p] else []
  | Not c =>
      match snd p with
      | x :: _ => if N.eqb x c then [] else [p]
      | [] => [p]
      end
  end.

(** [re.match(r, s) is not None] *)
Definition matches (r : re) (s : str) : bool :=
  match ends r ([], s) with
  | [] => false
  | _ => true
  end.

(** The positions of [s], from the left. *)
Fixpoint places (before ahead : str) : list pos :=
  (before, ahead)
  :: match ahead with
     | [] => []
     | c :: ahead' => places (c :: before) ahead'
     end.

(** [re.search(r, s) is not None] *)
Definition search (r : re) (s : str) : bool :=
  existsb (fun p => match ends r p with [] => false | _ => true end) (places [] s).

(** What is between two positions of which the second is further. *)
Definition between_pos (p q : pos) : str :=
  rev (firstn (List.length (fst q) - List.length (fst p)) (fst q)).

(** The first way, in the order of the matcher, to match [a], then [g],
    then [b] from the position: what [g] has matched. *)
Definition group_at (a g b : re) (p : pos) : option str :=
  hd_error
    (flat_map
       (fun p1 =>
          flat_map
            (fun p2 => match ends b p2 with [] => [] | _ => [between_pos p1 p2] end)
            (ends g p1))
       (ends a p)).

(** [re.search(a(g)b, s).group(1)], [None] standing for the
    [AttributeError] of a search that finds nothing. *)
Definition search_group (a g b : re) (s : str) : option str :=
  hd_error
    (flat_map
       (fun p => match group_at a g b p with Some x => [x] | None => [] end)
       (places [] s)).

(** The patterns of the loop over the arguments.

    [\A(http|www\.|\w[\w.-]+\.\w{2,})] *)
Definition re_url (h : Host) : re :=
  Cat Bos
    (Alt (lit (u "http"))
       (Alt (Cat (lit (u "www")) (Chr 46))
          (Cat (Cls (word h))
             (Cat (Rep (fun c => word h c || N.eqb c 46 || N.eqb c 45) 1 None)
                (Cat (Chr 46) (Rep (word h) 2 None)))))).

(** [\A-\w=.+] *)
Definition re_short_equals (h : Host) : re :=
  Cat Bos (Cat (Chr 45) (Cat (Cls (word h)) (Cat (Chr 61) (Rep dot 1 None)))).

(** [\A-\w{3,}] *)
Definition re_one_hyphen (h : Host) : re :=
  Cat Bos (Cat (Chr 45) (Rep (word h) 3 None)).

(** [\A(--(tamper|ignore-code|skip))(?!-)] *)
Definition re_repeatable : re :=
  Cat Bos
    (Cat (Cat (lit (u "--"))
            (Alt (lit (u "tamper")) (Alt (lit (u "ignore-code")) (lit (u "skip")))))
       (Not 45)).

(** [\A\d+!\Z] *)
Definition re_marked (h : Host) : re :=
  Cat Bos (Cat (Rep (decimal h) 1 None) (Cat (Chr 33) Eos)).

(** [\A--threads.+\d+!\Z] *)
Definition re_threads_marked (h : Host) : re :=
  Cat Bos
    (Cat (lit (u "--threads"))
       (Cat (Rep dot 1 None) (Cat (Rep (decimal h) 1 None) (Cat (Chr 33) Eos)))).

(** [\A-{1,2}\w] *)
Definition re_option (h : Host) : re :=
  Cat Bos (Cat (Rep (one 45) 1 (Some 2)) (Cls (word h))).

(** [\A\-v+\Z] *)
Definition re_verbosity : re :=
  Cat Bos (Cat (Chr 45) (Cat (Rep (one 118) 1 None) Eos)).

(** [re.sub(u"\\A(\u2010|...|\uFF0D)+", lambda match: '-' * len(match.group(0)), s)]:
    the hyphens put for the run that the pattern matches at the start. *)
Definition sub_dashes (s : str) : str :=
  match ends (Cat Bos (Rep dash 1 None)) ([], s) with
  | (before, ahead) :: _ => repeat 45%N (List.length before) ++ ahead
  | [] => s
  end.

(** [re.search(r"\-?\-(\w+)\b", s).group(1)] *)
Definition key_of (h : Host) (s : str) : option str :=
  search_group (Cat (Rep (one 45) 0 (Some 1)) (Chr 45)) (Rep (word h) 1 None)
    (Bnd (word h)) s.

(** ** Parsers, groups and options *)

Inductive error : Type := SystemExit | IndexError | AttributeError | TypeError | ValueError.

Inductive result (A : Type) : Type :=
| Ok (a : A)
| Raise (e : error).

Arguments Ok {A} a.
Arguments Raise {A} e.

(** An option of optparse or an action of argparse: the attributes that
    the module reads, [None] for one that the object does not have, and
    whether [help] is [SUPPRESS]. *)
Record Opt : Type := MkOpt {
  option_strings : option (list str);
  _long_opts : option (list str);
  _short_opts : option (list str);
  dest : option str;
  suppressed : bool
}.

(** A parser or a group as [get_actions] sees it: the lists of options it
    may have, which hold the options by their identity. *)
Record Instance : Type := MkInstance {
  ident : nat;
  option_list : option (list nat);
  _group_actions : option (list nat);
  _actions : option (list nat)
}.

(** A parser: the options that exist, itself as an instance, and the
    lists of groups it may have. *)
Record Parser : Type := MkParser {
  options : nat -> Opt;
  self : Instance;
  option_groups : option (list Instance);
  _action_groups : option (list Instance)
}.

(** [get_actions(instance)]: the first attribute that the instance has;
    [None] when it has none of the three, as a function that ends
    without [return]. *)
Definition get_actions (instance : Instance) : option (list nat) :=
  match option_list instance with
  | Some l => Some l
  | None =>
      match _group_actions instance with
      | Some l => Some l
      | None => _actions instance
      end
  end.

(** [getattr(parser, "option_groups", None) or getattr(parser,
    "_action_groups")] *)
Definition get_groups (parser : Parser) : result (list Instance) :=
  match option_groups parser with
  | Some (g :: l) => Ok (g :: l)
  | _ =>
      match _action_groups parser with
      | Some l => Ok l
      | None => Raise AttributeError
      end
  end.

(** [retVal.update(l)], the set keeping the order in which its elements
    came. *)
Definition update (retVal : list str) (l : list str) : list str :=
  fold_left (fun acc x => if mem x acc then acc else acc ++ [x]) l retVal.

(** The body of the two loops of [get_all_options] over the options. *)
Definition add_option (option : Opt) (retVal : list str) : result (list str) :=
  match option_strings option with
  | Some l => Ok (update retVal l)
  | None =>
      match _long_opts option with
      | None => Raise AttributeError
      | Some long =>
          match _short_opts option with
          | None => Raise AttributeError
          | Some short => Ok (update (update retVal long) short)
          end
      end
  end.

Fixpoint add_options (objects : nat -> Opt) (l : list nat) (retVal : list str) :
    result (list str) :=
  match l with
  | [] => Ok retVal
  | o :: l' =>
      match add_option (objects o) retVal with
      | Ok retVal' => add_options objects l' retVal'
      | Raise e => Raise e
      end
  end.

(** [for option in get_actions(x): ...]; iterating over [None] is a
    [TypeError]. *)
Definition add_actions (objects : nat -> Opt) (x : Instance) (retVal : list str) :
    result (list str) :=
  match get_actions x with
  | None => Raise TypeError
  | Some l => add_options objects l retVal
  end.

Fixpoint add_groups (objects : nat -> Opt) (groups : list Instance) (retVal : list str) :
    result (list str) :=
  match groups with
  | [] => Ok retVal
  | g :: groups' =>
      match add_actions objects g retVal with
      | Ok retVal' => add_groups objects groups' retVal'
      | Raise e => Raise e
      end
  end.

Definition get_all_options (parser : Parser) : result (list str) :=
  match add_actions (options parser) (self parser) [] with
  | Raise e => Raise e
  | Ok retVal =>
      match get_groups parser with
      | Raise e => Raise e
      | Ok groups => add_groups (options parser) groups retVal
      end
  end.

(** ** The loop over the arguments *)

(** What the loop writes with [dataToStdout] and [print]. *)
Inductive output : Type :=
| OutQuotes (arg : str)       (* "[!] 从 Internet 复制粘贴非法（非控制台）引用字符是非法的 (%s)\n" *)
| OutComma (arg : str)        (* "[!] 从 Internet 复制粘贴非法（非控制台）逗号字符是非法的 (%s)\n" *)
| OutShortEquals (arg : str)  (* "[!] 检测到可能写错（非法“=”）短选项 ('%s')\n" *)
| OutVersion (version : str)  (* print(VERSION_STRING.split('/')[-1]) *)
| OutNoHyphen (arg : str).    (* "[!] 检测到不带起始连字符的长选项的使用 ('%s')\n" *)

(** What the loop works on: [argv], its locals [auxIndexes],
    [extraHeaders] and [advancedHelp], [conf.skipThreadCheck] and
    [conf.verbose] when the passes have set them, the parser, and what
    was written. *)
Record Run : Type := MkRun {
  argv : list str;
  auxIndexes : list (str * option nat);
  extraHeaders : list str;
  advancedHelp : bool;
  skipThreadCheck : bool;
  verbose : option nat;
  parser : Parser;
  written : list output
}.

Inductive outcome : Type :=
| Done (st : Run)
| Raised (e : error) (st : Run).

Definition with_argv (l : list str) (st : Run) : Run :=
  MkRun l (auxIndexes st) (extraHeaders st) (advancedHelp st) (skipThreadCheck st)
    (verbose st) (parser st) (written st).

Definition with_parser (p : Parser) (st : Run) : Run :=
  MkRun (argv st) (auxIndexes st) (extraHeaders st) (advancedHelp st) (skipThreadCheck st)
    (verbose st) p (written st).

(** [dataToStdout(...)], [print(...)] *)
Definition write (o : output) (st : Run) : Run :=
  MkRun (argv st) (auxIndexes st) (extraHeaders st) (advancedHelp st) (skipThreadCheck st)
    (verbose st) (parser st) (written st ++ [o]).

(** [argv[k] = x] *)
Definition put (k : nat) (x : str) (st : Run) : outcome :=
  match store (argv st) k x with
  | Some l => Done (with_argv l st)
  | None => Raised IndexError st
  end.

(** [auxIndexes.get(key, None)] *)
Fixpoint lookup (key : str) (d : list (str * option nat)) : option nat :=
  match d with
  | [] => None
  | (k, v) :: d' => if eqb k key then v else lookup key d'
  end.

(** [auxIndexes[key] = index] *)
Fixpoint assign (key : str) (index : option nat) (d : list (str * option nat)) :
    list (str * option nat) :=
  match d with
  | [] => [(key, index)]
  | (k, v) :: d' => if eqb k key then (k, index) :: d' else (k, v) :: assign key index d'
  end.

(** [i + 1 < len(argv) and not argv[i + 1].startswith('-')], and
    [argv[i + 1]] then. *)
Definition value_after (i : nat) (l : list str) : option str :=
  match nth_error l (S i) with
  | Some x => if startswith (u "-") x then None else Some x
  | None => None
  end.

(** The branch of [--tamper], [--ignore-code] and [--skip]: the first
    option of a kind is remembered, by the index of the argument that
    holds its value; the value of a later one is added to that argument
    after a comma, and the option is blanked. *)
Definition repeatable (h : Host) (i : nat) (a : str) (st : Run) : outcome :=
  match key_of h a with
  | None => Raised AttributeError st
  | Some key =>
      match lookup key (auxIndexes st) with
      | None =>
          let index :=
            if has 61 a then Some i
            else match value_after i (argv st) with
                 | Some _ => Some (S i)
                 | None => None
                 end in
          Done (MkRun (argv st) (assign key index (auxIndexes st)) (extraHeaders st)
                  (advancedHelp st) (skipThreadCheck st) (verbose st) (parser st)
                  (written st))
      | Some index =>
          match nth_error (argv st) index with
          | None => Raised IndexError st
          | Some held =>
              let value :=
                if has 61 a then nth_error (split 61 a) 1
                else match value_after i (argv st) with
                     | Some x => Some x
                     | None => Some []
                     end in
              match value with
              | None => Raised IndexError st
              | Some x =>
                  match put index (held ++ u "," ++ x) st with
                  | Done st' => put i [] st'
                  | r => r
                  end
              end
          end
      end
  end.

(** The branch of [-H] and [--header]. *)
Definition header (i : nat) (a : str) (st : Run) : outcome :=
  let append x :=
    MkRun (argv st) (auxIndexes st) (extraHeaders st ++ [x]) (advancedHelp st)
      (skipThreadCheck st) (verbose st) (parser st) (written st) in
  if has 61 a then
    match nth_error (split1 61 a) 1 with
    | Some x => Done (append x)
    | None => Raised IndexError st
    end
  else
    match nth_error (argv st) (S i) with
    | Some x => Done (append x)
    | None => Done st
    end.

(** [for j in xrange(i + 2, len(argv)): ...] of the branch of [-r]: the
    files that follow the first are added to it after a comma, up to the
    first argument that is not a file. *)
Fixpoint request_files (h : Host) (i : nat) (js : list nat) (st : Run) : outcome :=
  match js with
  | [] => Done st
  | j :: js' =>
      match nth_error (argv st) j with
      | None => Raised IndexError st
      | Some value =>
          if isfile h value then
            match nth_error (argv st) (S i) with
            | None => Raised IndexError st
            | Some first =>
                match put (S i) (first ++ u "," ++ value) st with
                | Done st1 =>
                    match put j [] st1 with
                    | Done st2 => request_files h i js' st2
                    | r => r
                    end
                | r => r
                end
            end
          else Done st
      end
  end.

(** [option.dest not in BASIC_HELP_ITEMS] *)
Definition advanced (h : Host) (o : Opt) : bool :=
  match dest o with
  | Some d => negb (mem d (BASIC_HELP_ITEMS h))
  | None => true
  end.

(** [option.help = SUPPRESS] *)
Definition suppress (o : nat) (objects : nat -> Opt) : nat -> Opt :=
  fun k =>
    if Nat.eqb k o
    then MkOpt (option_strings (objects k)) (_long_opts (objects k))
           (_short_opts (objects k)) (dest (objects k)) true
    else objects k.

(** [for option in get_actions(group): ...]: the options that are not
    basic lose their help, and [found] says whether a basic one was
    met. *)
Fixpoint hide (h : Host) (l : list nat) (objects : nat -> Opt) (found : bool) :
    (nat -> Opt) * bool :=
  match l with
  | [] => (objects, found)
  | o :: l' =>
      if advanced h (objects o) then hide h l' (suppress o objects) found
      else hide h l' objects true
  end.

(** [l.remove(x)] for a list of groups, which are equal when they are the
    same object; [None] is [ValueError]. *)
Fixpoint remove (x : nat) (l : list Instance) : option (list Instance) :=
  match l with
  | [] => None
  | g :: l' =>
      if Nat.eqb (ident g) x then Some l'
      else match remove x l' with
           | Some l'' => Some (g :: l'')
           | None => None
           end
  end.

(** [get_groups(parser).remove(group)]: the list that [get_groups] gives
    is the attribute of the parser itself. *)
Definition remove_group (group : Instance) (p : Parser) : result Parser :=
  match option_groups p with
  | Some (g :: l) =>
      match remove (ident group) (g :: l) with
      | Some l' => Ok (MkParser (options p) (self p) (Some l') (_action_groups p))
      | None => Raise ValueError
      end
  | _ =>
      match _action_groups p with
      | Some l =>
          match remove (ident group) l with
          | Some l' => Ok (MkParser (options p) (self p) (option_groups p) (Some l'))
          | None => Raise ValueError
          end
      | None => Raise AttributeError
      end
  end.

(** [for group in get_groups(parser)[:]: ...] of the branch of [-h]. *)
Fixpoint basic_help (h : Host) (groups : list Instance) (p : Parser) : result Parser :=
  match groups with
  | [] => Ok p
  | group :: groups' =>
      match get_actions group with
      | None => Raise TypeError
      | Some l =>
          let '(objects, found) := hide h l (options p) false in
          let p1 := MkParser objects (self p) (option_groups p) (_action_groups p) in
          if found then basic_help h groups' p1
          else match remove_group group p1 with
               | Ok p2 => basic_help h groups' p2
               | Raise e => Raise e
               end
      end
  end.

(** The branch of [-h] and [--help]. *)
Definition help (h : Host) (st : Run) : outcome :=
  let st1 :=
    MkRun (argv st) (auxIndexes st) (extraHeaders st) false (skipThreadCheck st)
      (verbose st) (parser st) (written st) in
  match get_groups (parser st1) with
  | Raise e => Raised e st1
  | Ok groups =>
      match basic_help h groups (parser st1) with
      | Ok p => Done (with_parser p st1)
      | Raise e => Raised e st1
      end
  end.

(** [argv[i].split('=', 1)[-1]] *)
Definition value_part (a : str) : str := last (split1 61 a) [].

(** The test of the quotation marks: [all(ord(_) in xrange(0x2018,
    0x2020) for _ in ((argv[i].split('=', 1)[-1].strip() or ' ')[0],
    argv[i][-1]))], after the test of the List.length. *)
Definition curly_quoted (h : Host) (a : str) : bool :=
  let value := match strip (space h) (value_part a) with [] => u " " | v => v end in
  forallb curly [hd 0%N value; last a 0%N].

(** One turn of [for i in xrange(len(argv))]. *)
Definition turn (h : Host) (i : nat) (st : Run) : outcome :=
  match nth_error (argv st) i with
  | None => Raised IndexError st
  | Some a0 =>
      let a := strip quote (sub_dashes a0) in
      match put i a st with
      | Raised e st' => Raised e st'
      | Done st =>
          if eqb a (u "-hh") then put i (u "-h") st
          else if (i =? 1) && search (re_url h) a then put i (u "--url=" ++ a) st
          else if (1 <? List.length a) && curly_quoted h a
          then Raised SystemExit (write (OutQuotes a) st)
          else if (1 <? List.length a) && has 0xff0c%N (value_part a)
          then Raised SystemExit (write (OutComma a) st)
          else if search (re_short_equals h) a
          then Raised SystemExit (write (OutShortEquals a) st)
          else if search (re_one_hyphen h) a then
            if mem (hd [] (split 61 (strip (one 45) a))) (longOptions h ++ longSwitches h)
            then put i (u "-" ++ a) st
            else Done st
          else if mem a (IGNORED_OPTIONS h) then put i [] st
          else if mem a (DEPRECATED_OPTIONS h) then put i [] st
          else if startswith (u "--data-raw") a
          then put i (replace1 (u "--data-raw") (u "--data") a) st
          else if startswith (u "--auth-creds") a
          then put i (replace1 (u "--auth-creds") (u "--auth-cred") a) st
          else if startswith (u "--drop-cookie") a
          then put i (replace1 (u "--drop-cookie") (u "--drop-set-cookie") a) st
          else if search re_repeatable a then repeatable h i a st
          else if mem a [u "-H"; u "--header"]
                  || existsb (fun o => startswith (o ++ u "=") a) [u "-H"; u "--header"]
          then header i a st
          else if eqb a (u "--deps") then put i (u "--dependencies") st
          else if eqb a (u "--disable-colouring") then put i (u "--disable-coloring") st
          else if eqb a (u "-r")
          then request_files h i (seq (i + 2) (List.length (argv st) - (i + 2))) st
          else
            match
              (if matches (re_marked h) a
               then match item (argv st) (Z.max 0 (Z.of_nat i - 1)) with
                    | Some before => Some (eqb before (u "--threads"))
                    | None => None
                    end
               else Some false)
            with
            | None => Raised IndexError st
            | Some after_threads =>
                if after_threads || matches (re_threads_marked h) a then
                  match put i (removelast a) st with
                  | Done st' =>
                      Done (MkRun (argv st') (auxIndexes st') (extraHeaders st')
                              (advancedHelp st') true (verbose st') (parser st')
                              (written st'))
                  | r => r
                  end
                else if eqb a (u "--version")
                then Raised SystemExit
                       (write (OutVersion (last (split 47 (VERSION_STRING h)) [])) st)
                else if mem a [u "-h"; u "--help"] then help h st
                else if has 61 a && negb (startswith (u "-") a)
                        && mem (hd [] (split 61 a)) (longOptions h)
                then match item (argv st) (Z.of_nat i - 1) with
                     | None => Raised IndexError st
                     | Some before =>
                         if search (re_option h) before then Done st
                         else Raised SystemExit (write (OutNoHyphen a) st)
                     end
                else Done st
            end
      end
  end.

Fixpoint turns (h : Host) (l : list nat) (st : Run) : outcome :=
  match l with
  | [] => Done st
  | i :: l' =>
      match turn h i st with
      | Done st' => turns h l' st'
      | r => r
      end
  end.

(** [for i in xrange(len(argv)): ...] *)
Definition rewrite_arguments (h : Host) (st : Run) : outcome :=
  turns h (seq 0 (List.length (argv st))) st.

(** ** The switches of the verbosity *)

(** The body of the loop for the argument [verbosity] that the generator
    has given: [IndexError] and [ValueError] are passed over. *)
Definition take_verbosity (h : Host) (verbosity : str) (st : Run) : Run :=
  match index verbosity (argv st) with
  | None => st
  | Some k =>
      match
        (if k =? List.length (argv st) - 1 then Some true
         else match nth_error (argv st) (S k) with
              | Some next => Some (negb (isdigit h next))
              | None => None
              end)
      with
      | Some true =>
          MkRun (delete k (argv st)) (auxIndexes st) (extraHeaders st) (advancedHelp st)
            (skipThreadCheck st) (Some (count 118 verbosity)) (parser st) (written st)
      | _ => st
      end
  end.

(** [for verbosity in (_ for _ in argv if re.search(r"\A\-v+\Z", _)):
    ...]: the generator reads [argv], which the body shortens, item by
    item; [at] is the index of the item that it reads next, and [fuel]
    the number of items that it may still read. *)
Fixpoint scan_verbosity (h : Host) (fuel at_ : nat) (st : Run) : Run :=
  match fuel with
  | O => st
  | S fuel' =>
      match nth_error (argv st) at_ with
      | None => st
      | Some x =>
          if search re_verbosity x
          then scan_verbosity h fuel' (S at_) (take_verbosity h x st)
          else scan_verbosity h fuel' (S at_) st
      end
  end.

Definition verbosity (h : Host) (st : Run) : Run :=
  scan_verbosity h (List.length (argv st)) 0 st.

(** ** The extra headers *)

(** [if extraHeaders: ...], on [args.headers], [None] when the option was
    not given. *)
Definition merge_headers (headers : option str) (extraHeaders : list str) : option str :=
  match extraHeaders with
  | [] => headers
  | _ =>
      let headers := match headers with Some (c :: r) => c :: r | _ => [] end in
      let delimiter := if infix (u "\n") headers then u "\n" else [10%N] in
      Some (headers ++ delimiter ++ join delimiter extraHeaders)
  end.

(** ** The vocabulary of the properties *)

(** The strings under which an option is known: [option_strings] when it
    has the attribute, its long and its short names otherwise; [None]
    when it has neither. *)
Definition names (o : Opt) : option (list str) :=
  match option_strings o with
  | Some l => Some l
  | None =>
      match _long_opts o, _short_opts o with
      | Some long, Some short => Some (long ++ short)
      | _, _ => None
      end
  end.

(** The state in which [cmdLineParser] enters the loop over the
    arguments. *)
Definition entering (l : list str) (p : Parser) : Run :=
  MkRun l [] [] true false None p [].

(** The characters of a string are ASCII. *)
Definition ascii (s : str) : bool := forallb (fun c => (c <? 128)%N) s.

(** The decimal digits 0 to 9. *)
Definition digits (s : str) : bool := forallb (between 48 57) s.

(** What a statement ended with, and the state it left. *)
Definition final (r : outcome) : Run :=
  match r with
  | Done st => st
  | Raised _ st => st
  end.

Definition raised (r : outcome) : option error :=
  match r with
  | Done _ => None
  | Raised e _ => Some e
  end.

(** The message about the quotation marks. *)
Definition is_quotes (o : output) : bool :=
  match o with
  | OutQuotes _ => true
  | _ => false
  end.

(** What a statement that ends with [r] from [st] has kept: [argv] has
    the length it had, and one message, other than that about the
    quotation marks, was written if [r] is [SystemExit], none
    otherwise. *)
Definition steady (st : Run) (r : outcome) : Prop :=
  List.length (argv (final r)) = List.length (argv st)
  /\ match raised r with
     | Some SystemExit =>
         exists o, written (final r) = written st ++ [o] /\ is_quotes o = false
     | _ => written (final r) = written st
     end.

(** A parser of argparse as the loop finds it: it has no attribute
    [option_groups], its groups are distinct objects, and each has a
    list of actions. *)
Definition argparse (p : Parser) : Prop :=
  option_groups p = None
  /\ exists groups,
       _action_groups p = Some groups
       /\ NoDup (map ident groups)
       /\ Forall (fun g => get_actions g <> None) groups.

(** The indexes that [auxIndexes] holds are indexes of [argv]. *)
Definition indexed (st : Run) : Prop :=
  forall key index,
    lookup key (auxIndexes st) = Some index -> index < List.length (argv st).

(** What the loop needs to go on after a statement that ends with [r]
    from [st], if it ends: the parser is one of argparse, [auxIndexes]
    holds indexes of [argv], which is as long as it was; and it raises
    nothing but [SystemExit]. *)
Definition passes (st : Run) (r : outcome) : Prop :=
  match r with
  | Done st' =>
      argparse (parser st') /\ indexed st'
      /\ List.length (argv st') = List.length (argv st)
  | Raised e _ => e = SystemExit
  end.

(** An option once [option.help = SUPPRESS] was done on it. *)
Definition hidden (o : Opt) : Opt :=
  MkOpt (option_strings o) (_long_opts o) (_short_opts o) (dest o) true.

(** The options of a group, none when it has no list of them. *)
Definition actions (g : Instance) : list nat :=
  match get_actions g with
  | Some l => l
  | None => []
  end.

(** One of the options of the group is among [BASIC_HELP_ITEMS]. *)
Definition basic_group (h : Host) (objects : nat -> Opt) (g : Instance) : bool :=
  existsb (fun o => negb (advanced h (objects o))) (actions g).

(** The option is one of those of the groups. *)
Definition listed (o : nat) (groups : list Instance) : bool :=
  existsb (fun g => existsb (Nat.eqb o) (actions g)) groups.

(** The arguments that are not switches of the verbosity. *)
Definition others (l : list str) : list str :=
  filter (fun x => negb (search re_verbosity x)) l.

(** What the loop over the switches of the verbosity may have made of
    [st]: the arguments that are not such switches are all there, in
    their order, and no argument is new; [conf.verbose] is as it was or
    the number of the [v]s of a switch of [st]; nothing else has
    changed. *)
Definition taken (st st' : Run) : Prop :=
  others (argv st') = others (argv st)
  /\ incl (argv st') (argv st)
  /\ List.length (argv st') <= List.length (argv st)
  /\ (verbose st' = verbose st
      \/ exists n, verbose st' = Some (S n) /\ In (45 :: repeat 118 (S n))%N (argv st))
  /\ st' = MkRun (argv st') (auxIndexes st) (extraHeaders st) (advancedHelp st)
             (skipThreadCheck st) (verbose st') (parser st) (written st).

(** ** A host, two parsers and a run *)

(** A host that knows no character above the ASCII ones, with two
    files. *)
Definition plain_host : Host :=
  MkHost (fun _ => false) (fun _ => false) (fun _ => false) (fun _ => false)
    (fun s => mem s [u "a.txt"; u "b.txt"])
    [u "url"; u "level"; u "threads"] [u "banner"]
    [u "--purge-output"] [u "--replicate"]
    [u "url"; u "help"] (u "sqlmap/1.8#stable").

(** The options [-h], [-u], [--level] and [--banner] of argparse. *)
Definition sample_options (k : nat) : Opt :=
  match k with
  | 0 => MkOpt (Some [u "-h"; u "--help"]) None None (Some (u "help")) false
  | 1 => MkOpt (Some [u "-u"; u "--url"]) None None (Some (u "url")) false
  | 2 => MkOpt (Some [u "--level"]) None None (Some (u "level")) false
  | _ => MkOpt (Some [u "--banner"]) None None (Some (u "getBanner")) false
  end.

Definition target : Instance := MkInstance 1 None (Some [1]) None.

Definition detection : Instance := MkInstance 2 None (Some [2]) None.

Definition enumeration : Instance := MkInstance 3 None (Some [3]) None.

(** A parser of argparse with three groups. *)
Definition sample_parser : Parser :=
  MkParser sample_options (MkInstance 0 None None (Some [0; 1; 2; 3])) None
    (Some [target; detection; enumeration]).

(** A parser of optparse to which no group was added. *)
Definition bare_parser : Parser :=
  MkParser sample_options (MkInstance 0 (Some [0]) None None) (Some []) None.

(** The loop at the third argument of [sqlmap.py --tamper=a
    --tamper=b=c], the second being kept for [tamper]. *)
Definition tampering : Run :=
  MkRun [u "sqlmap.py"; u "--tamper=a"; u "--tamper=b=c"] [(u "tamper", Some 1)] []
    true false None sample_parser [].

End CmdLine.
(** * lib/core/threads.py: the thread runner of sqlmap

    The development follows the module function by function:
    [exceptionHandledFunction], [setDaemon], the nested [_threadFunction]
    and [runThreads].  Python's control flow is kept as it is written: a
    statement ends with a [completion] (normal, [return], [break], a raised
    exception), [try]/[except]/[finally] are combinators that follow the
    rules of the language, and every call into a collaborator leaves an
    [event] in the trace of the run.

    [runThreads] is the supervisor: the thread that calls it.  The workers
    it starts run on their own; the supervisor sees them through
    [thread.is_alive()] and [threading.active_count()] only, and what one
    worker does is [worker], that is [exceptionHandledFunction] applied to
    [_threadFunction].

    What the environment of a run may do is a value of [Env]: the caller's
    [threadFunction] returns or raises, [readInput] answers or raises,
    [thread.start()] succeeds or raises, a [lock.release()] may raise, the
    two calls that the [finally] suite of [runThreads] leaves unguarded,
    [conf.hashDB.flush(True)] and the caller's [cleanupFunction()], return
    or raise, a worker stays alive for some number of steps of the
    supervisor (a step is a sleep of the wait loop or a turn of the busy
    wait), and Ctrl+C ([KeyboardInterrupt]) reaches the supervisor during
    the steps that the environment chooses.  The other calls that the
    source leaves unguarded ([logger], [conf.hashDB.close],
    [lock.locked]) are recorded as events and return. *)

(** ** Exceptions *)

(** The exception classes the module tells apart in its [except] clauses
    and [isinstance] tests.  [KeyboardInterrupt] and [SystemExit] derive
    from [BaseException] only.  lib.core.exception is not among the
    sources: the classes imported from it are taken as distinct subclasses
    of [SqlmapBaseException], itself an [Exception], and
    [SqlmapBaseException] below stands for its other instances.
    [sqlite3_Error] stands for every instance of [sqlite3.Error], and
    [OtherException] for every other [Exception]. *)
Inductive exn_class : Type :=
| KeyboardInterrupt
| SystemExit
| SqlmapBaseException
| SqlmapConnectionException
| SqlmapSkipTargetException
| SqlmapThreadException
| SqlmapUserQuitException
| SqlmapValueException
| sqlite3_Error
| TypeError
| RuntimeError
| OtherException.

Record exn : Type := Exn { exn_class_of : exn_class; exn_message : string }.

Definition exn_class_eqb (a b : exn_class) : bool :=
  match a, b with
  | KeyboardInterrupt, KeyboardInterrupt
  | SystemExit, SystemExit
  | SqlmapBaseException, SqlmapBaseException
  | SqlmapConnectionException, SqlmapConnectionException
  | SqlmapSkipTargetException, SqlmapSkipTargetException
  | SqlmapThreadException, SqlmapThreadException
  | SqlmapUserQuitException, SqlmapUserQuitException
  | SqlmapValueException, SqlmapValueException
  | sqlite3_Error, sqlite3_Error
  | TypeError, TypeError
  | RuntimeError, RuntimeError
  | OtherException, OtherException => true
  | _, _ => false
  end.

(** [isinstance(ex, cls)] for the classes used in [except] clauses and
    tests. *)
Definition isinstance (ex : exn) (cls : exn_class) : bool :=
  exn_class_eqb (exn_class_of ex) cls.

Definition isinstance_Exception (ex : exn) : bool :=
  match exn_class_of ex with
  | KeyboardInterrupt | SystemExit => false
  | _ => true
  end.

Definition isinstance_SqlmapBaseException (ex : exn) : bool :=
  match exn_class_of ex with
  | SqlmapBaseException | SqlmapConnectionException
  | SqlmapSkipTargetException | SqlmapThreadException
  | SqlmapUserQuitException | SqlmapValueException => true
  | _ => false
  end.

(** The message of the two exceptions raised on a repeated Ctrl+C. *)
Definition multipleCtrlC_message : string := "用户已中止(多次按下Ctrl+C)".

(** ** Events *)

Inductive level : Type := CRITICAL | ERROR | WARNING | INFO.

(** The messages handed to the logger, with the values formatted into
    them. *)
Inductive message : Type :=
| MsgThread (thread : string) (errMsg : string) (* "thread %s: '%s'" *)
| MsgMaxThreads (limit : Z)                     (* "最大使用线程数为 %d ..." *)
| MsgSingleThread                               (* "以单线程模式运行..." *)
| MsgStarting (n : Z)                           (* "启动 %d 线程" *)
| MsgStartFailed (ex : exn)                     (* "启动新线程时发生错误 ('%s')" *)
| MsgWaiting (ctrlC : bool)                     (* "等待线程完成%s" *)
| MsgFailure (thread : string) (ex : exn)       (* "线程 %s: '%s'" *)
| MsgUnhandled (thread : string).               (* "线程 %s: %s" *)

Inductive event : Type :=
| EvPrint                       (* print() *)
| EvLog (l : level) (m : message)
| EvTraceback                   (* traceback.print_exc() *)
| EvReadInput (default : Z)     (* readInput(message, default=str(n)) *)
| EvCall (thread : string)      (* threadFunction() entered, in this thread *)
| EvClose                       (* conf.hashDB.close() *)
| EvFlush                       (* conf.hashDB.flush(True) called *)
| EvDaemon (n : nat)            (* setDaemon(thread) *)
| EvStart (n : nat)             (* thread.start() returned: worker n runs *)
| EvSleep                       (* time.sleep(0.1) *)
| EvRelease (name : string)     (* lock.release() called *)
| EvCleanup.                    (* cleanupFunction() called *)

(** ** Data *)

(** [PAYLOAD.TECHNIQUE] of lib.core.enums, of which the module names
    [TIME] and [STACKED]. *)
Inductive TECHNIQUE : Type := BOOLEAN | ERROR_BASED | QUERY | STACKED | TIME | UNION.

Definition TECHNIQUE_eqb (a b : TECHNIQUE) : bool :=
  match a, b with
  | BOOLEAN, BOOLEAN | ERROR_BASED, ERROR_BASED | QUERY, QUERY
  | STACKED, STACKED | TIME, TIME | UNION, UNION => true
  | _, _ => false
  end.

(** A lock of [kb.locks]: whether it is held, and what [release()] does
    when called ([None]: it returns). *)
Record Lock : Type := MkLock { locked : bool; release : option exn }.

(** The fields of [kb] the module reads or writes.  [kb.locks] keeps the
    order in which [values()] yields the locks; [injection_data] holds the
    keys of [kb.injection.data]. *)
Record KB : Type := MkKB {
  multipleCtrlC : bool;
  threadContinue : bool;
  threadException : bool;
  technique : option TECHNIQUE;
  multiThreadMode : bool;
  prependFlag : bool;
  lastCtrlCTime : option Q;
  locks : list (string * Lock);
  injection_data : list TECHNIQUE
}.

(** The fields of [conf]: [hashDB] says whether a handle is configured,
    [conf_get] is [conf.get(key)] for the integer options. *)
Record Conf : Type := MkConf {
  threads : Z;
  hashDB : bool;
  conf_get : string -> option Z
}.

(** What [readInput] does when called. *)
Inductive answer : Type :=
| Answer (choice : string)
| Fails (ex : exn).

(** The environment of one run. *)
Record Env : Type := MkEnv {
  PY3 : bool;                          (* Python 3, where None > 1 raises *)
  currentThread : string;              (* threading.currentThread().getName() *)
  ThreadData_technique : option TECHNIQUE;
  readInput : list answer;             (* the successive results of readInput *)
  threadFunction : option exn;         (* threadFunction(): returns, or raises *)
  start : nat -> option exn;           (* thread.start() of worker n *)
  lifetime : nat -> nat;               (* worker n is alive before this step *)
  interrupt : nat -> bool;             (* Ctrl+C reaches the supervisor at this step *)
  clock : nat -> Q;                    (* what time.time() reads at this step *)
  flush : option exn;                  (* conf.hashDB.flush(True): returns, or raises *)
  cleanup : option exn                 (* cleanupFunction(): returns, or raises *)
}.

(** The state a run works on: [kb], [conf], the locals [numThreads] and
    [threads] of [runThreads], and the number of steps (sleeps of the wait
    loop, turns of the busy wait) the supervisor has made. *)
Record State : Type := MkState {
  kb : KB;
  conf : Conf;
  numThreads : Z;
  started : list nat;
  steps : nat
}.

(** ** Statements *)

Inductive completion (A : Type) : Type :=
| Normal (a : A)
| Return
| Break
| Raise (ex : exn)
| Diverge.

Arguments Normal {A} a.
Arguments Return {A}.
Arguments Break {A}.
Arguments Raise {A} ex.
Arguments Diverge {A}.

Definition M (A : Type) : Type := State -> completion A * State * list event.

Definition ret {A} (a : A) : M A := fun s => (Normal a, s, []).

Definition bind {A B} (m : M A) (k : A -> M B) : M B :=
  fun s =>
    match m s with
    | (Normal a, s1, t1) => let '(c, s2, t2) := k a s1 in (c, s2, t1 ++ t2)
    | (Return, s1, t1) => (Return, s1, t1)
    | (Break, s1, t1) => (Break, s1, t1)
    | (Raise ex, s1, t1) => (Raise ex, s1, t1)
    | (Diverge, s1, t1) => (Diverge, s1, t1)
    end.

Notation "x <- m ;; k" := (bind m (fun x => k))
  (at level 61, m at next level, right associativity).
Notation "m ;; k" := (bind m (fun _ => k))
  (at level 61, right associativity).

Definition skip : M unit := ret tt.
Definition raise {A} (ex : exn) : M A := fun s => (Raise ex, s, []).
Definition return_ {A} : M A := fun s => (Return, s, []).
Definition break {A} : M A := fun s => (Break, s, []).
Definition diverge {A} : M A := fun s => (Diverge, s, []).
Definition emit (e : event) : M unit := fun s => (Normal tt, s, [e]).
Definition get : M State := fun s => (Normal s, s, []).
Definition modify (f : State -> State) : M unit := fun s => (Normal tt, f s, []).
Definition when (b : bool) (m : M unit) : M unit := if b then m else skip.

(** [try: body except ...: handlers]: [handlers ex] is the suite of the
    first clause that matches [ex], if one does. *)
Definition try_except {A} (body : M A) (handlers : exn -> option (M A)) : M A :=
  fun s =>
    match body s with
    | (Raise ex, s1, t1) =>
        match handlers ex with
        | Some h => let '(c, s2, t2) := h s1 in (c, s2, t1 ++ t2)
        | None => (Raise ex, s1, t1)
        end
    | r => r
    end.

(** [try: body finally: final].  The final suite runs however the body
    ended; when it ends normally the body's completion stands, otherwise
    (a [return], a [break], an exception of its own) its completion
    replaces the body's. *)
Definition try_finally {A} (body : M A) (final : M unit) : M A :=
  fun s =>
    match body s with
    | (Diverge, s1, t1) => (Diverge, s1, t1)
    | (c, s1, t1) =>
        match final s1 with
        | (Normal _, s2, t2) => (c, s2, t1 ++ t2)
        | (Return, s2, t2) => (Return, s2, t1 ++ t2)
        | (Break, s2, t2) => (Break, s2, t1 ++ t2)
        | (Raise ex, s2, t2) => (Raise ex, s2, t1 ++ t2)
        | (Diverge, s2, t2) => (Diverge, s2, t1 ++ t2)
        end
    end.

(** [for x in l: body x], where [break] leaves the loop. *)
Fixpoint for_each {A} (l : list A) (body : A -> M unit) : M unit :=
  match l with
  | [] => skip
  | x :: l' =>
      fun s =>
        match body x s with
        | (Normal _, s1, t1) => let '(c, s2, t2) := for_each l' body s1 in (c, s2, t1 ++ t2)
        | (Break, s1, t1) => (Normal tt, s1, t1)
        | r => r
        end
  end.

(** The call of a function whose body is [m]: a [return] ends the call. *)
Definition call (m : M unit) : M unit :=
  fun s =>
    match m s with
    | (Return, s1, t1) => (Normal tt, s1, t1)
    | r => r
    end.

(** ** Assignments *)

Definition set_kb (f : KB -> KB) : M unit :=
  modify (fun s => MkState (f (kb s)) (conf s) (numThreads s) (started s) (steps s)).

Definition set_multipleCtrlC (b : bool) (k : KB) : KB :=
  MkKB b (threadContinue k) (threadException k) (technique k) (multiThreadMode k)
       (prependFlag k) (lastCtrlCTime k) (locks k) (injection_data k).

Definition set_threadContinue (b : bool) (k : KB) : KB :=
  MkKB (multipleCtrlC k) b (threadException k) (technique k) (multiThreadMode k)
       (prependFlag k) (lastCtrlCTime k) (locks k) (injection_data k).

Definition set_threadException (b : bool) (k : KB) : KB :=
  MkKB (multipleCtrlC k) (threadContinue k) b (technique k) (multiThreadMode k)
       (prependFlag k) (lastCtrlCTime k) (locks k) (injection_data k).

Definition set_technique (t : option TECHNIQUE) (k : KB) : KB :=
  MkKB (multipleCtrlC k) (threadContinue k) (threadException k) t (multiThreadMode k)
       (prependFlag k) (lastCtrlCTime k) (locks k) (injection_data k).

Definition set_multiThreadMode (b : bool) (k : KB) : KB :=
  MkKB (multipleCtrlC k) (threadContinue k) (threadException k) (technique k) b
       (prependFlag k) (lastCtrlCTime k) (locks k) (injection_data k).

Definition set_prependFlag (b : bool) (k : KB) : KB :=
  MkKB (multipleCtrlC k) (threadContinue k) (threadException k) (technique k)
       (multiThreadMode k) b (lastCtrlCTime k) (locks k) (injection_data k).

Definition set_lastCtrlCTime (t : option Q) (k : KB) : KB :=
  MkKB (multipleCtrlC k) (threadContinue k) (threadException k) (technique k)
       (multiThreadMode k) (prependFlag k) t (locks k) (injection_data k).

Definition set_locks (l : list (string * Lock)) (k : KB) : KB :=
  MkKB (multipleCtrlC k) (threadContinue k) (threadException k) (technique k)
       (multiThreadMode k) (prependFlag k) (lastCtrlCTime k) l (injection_data k).

(** [conf.threads = numThreads = n] *)
Definition set_threads (n : Z) : M unit :=
  modify (fun s =>
    MkState (kb s) (MkConf n (hashDB (conf s)) (conf_get (conf s))) n (started s) (steps s)).

Definition set_numThreads (n : Z) : M unit :=
  modify (fun s => MkState (kb s) (conf s) n (started s) (steps s)).

Definition set_started (l : list nat) : M unit :=
  modify (fun s => MkState (kb s) (conf s) (numThreads s) l (steps s)).

(** One more step of the supervisor. *)
Definition tick : M unit :=
  modify (fun s => MkState (kb s) (conf s) (numThreads s) (started s) (S (steps s))).

(** ** Strings of the prompt *)

(** [choice.endswith('!')] *)
Fixpoint endswith_bang (s : string) : bool :=
  match s with
  | EmptyString => false
  | String c EmptyString => Ascii.eqb c "!"
  | String _ r => endswith_bang r
  end.

(** [choice[:-1]] *)
Fixpoint drop_last (s : string) : string :=
  match s with
  | EmptyString => EmptyString
  | String _ EmptyString => EmptyString
  | String c r => String c (drop_last r)
  end.

Definition is_digit (c : ascii) : bool :=
  let n := nat_of_ascii c in (48 <=? n)%nat && (n <=? 57)%nat.

Fixpoint all_digits (s : string) : bool :=
  match s with
  | EmptyString => true
  | String c r => is_digit c && all_digits r
  end.

(** Modelled from the spec: [isDigit] is a stub in the module, replaced at
    run time by the function of lib.core.common, which is not part of the
    sources; the runner "parses digits", so a value passes when it is a
    non-empty run of the decimal digits 0..9. *)
Definition isDigit (value : string) : bool :=
  match value with
  | EmptyString => false
  | _ => all_digits value
  end.

Fixpoint int_from (acc : Z) (s : string) : Z :=
  match s with
  | EmptyString => acc
  | String c r => int_from (10 * acc + (Z.of_nat (nat_of_ascii c) - 48)) r
  end.

(** [int(choice)] on a run of decimal digits. *)
Definition int (s : string) : Z := int_from 0 s.

(** ** Primitive calls *)

Section Threads.

(** [MAX_NUMBER_OF_THREADS] of lib.core.settings. *)
Variable MAX_NUMBER_OF_THREADS : Z.

Variable env : Env.

(** [x > 1] where [x] is what [conf.get] returned: comparing [None] with an
    integer raises [TypeError] in Python 3 and is false in Python 2. *)
Definition gt_1 (x : option Z) : M bool :=
  match x with
  | Some n => ret (1 <? n)
  | None =>
      if PY3 env
      then raise (Exn TypeError "'>' not supported between instances of 'NoneType' and 'int'")
      else ret false
  end.

(** [time.time()] *)
Definition time_time : M Q :=
  s <- get ;; ret (clock env (steps s)).

(** [time.sleep(0.1)]: one step, during which Ctrl+C may arrive. *)
Definition time_sleep : M unit :=
  s <- get ;; tick ;;
  if interrupt env (steps s) then raise (Exn KeyboardInterrupt EmptyString) else emit EvSleep.

(** [thread.is_alive()] of worker [n]. *)
Definition is_alive (n : nat) : M bool :=
  s <- get ;; ret (steps s <? lifetime env n)%nat.

(** [threading.active_count()]: the calling thread and the workers of this
    run that are still alive. *)
Definition active_count : M Z :=
  s <- get ;;
  ret (1 + Z.of_nat (List.length (filter (fun n => (steps s <? lifetime env n)%nat) (started s)))).

(** [thread.start()] of worker [n]. *)
Definition thread_start (n : nat) : M unit :=
  match start env n with
  | None => emit (EvStart n)
  | Some ex => raise ex
  end.

(** The caller's [threadFunction()]. *)
Definition call_threadFunction : M unit :=
  emit (EvCall (currentThread env)) ;;
  match threadFunction env with
  | None => skip
  | Some ex => raise ex
  end.

(** ** exceptionHandledFunction *)

Definition type_name (c : exn_class) : string :=
  match c with
  | KeyboardInterrupt => "KeyboardInterrupt"
  | SystemExit => "SystemExit"
  | SqlmapBaseException => "SqlmapBaseException"
  | SqlmapConnectionException => "SqlmapConnectionException"
  | SqlmapSkipTargetException => "SqlmapSkipTargetException"
  | SqlmapThreadException => "SqlmapThreadException"
  | SqlmapUserQuitException => "SqlmapUserQuitException"
  | SqlmapValueException => "SqlmapValueException"
  | sqlite3_Error => "Error"
  | TypeError => "TypeError"
  | RuntimeError => "RuntimeError"
  | OtherException => "Exception"
  end.

(** [errMsg] of [exceptionHandledFunction]: the text of the exception,
    after the name of its type when it is not one of sqlmap's own. *)
Definition errMsg (ex : exn) : string :=
  if isinstance_SqlmapBaseException ex then exn_message ex
  else (type_name (exn_class_of ex) ++ ": " ++ exn_message ex)%string.

(** The test that guards the log entry of [exceptionHandledFunction]. *)
Definition reports (silent : bool) (k : KB) (ex : exn) : bool :=
  negb silent && threadContinue k && negb (multipleCtrlC k)
  && negb (isinstance ex SqlmapUserQuitException || isinstance ex SqlmapSkipTargetException).

Definition exceptionHandledFunction (threadFunction : M unit) (silent : bool) : M unit :=
  try_except threadFunction
    (fun ex =>
       if isinstance ex KeyboardInterrupt then
         Some (set_kb (set_threadContinue false) ;;
               set_kb (set_threadException true) ;;
               raise ex)
       else if isinstance_Exception ex then
         Some (s <- get ;;
               if reports silent (kb s) ex then
                 emit (EvLog ERROR (MsgThread (currentThread env) (errMsg ex))) ;;
                 v <- gt_1 (conf_get (conf s) "verbose") ;;
                 when (v && negb (isinstance ex SqlmapConnectionException)) (emit EvTraceback)
               else skip)
       else None).

(** [setDaemon(thread)]: either branch marks the thread as a daemon. *)
Definition setDaemon (n : nat) : M unit := emit (EvDaemon n).

(** ** runThreads *)

(** The nested [_threadFunction]: the caller's function, then the handle of
    the session file closed whatever happened. *)
Definition _threadFunction : M unit :=
  try_finally call_threadFunction
    (s <- get ;; when (hashDB (conf s)) (emit EvClose)).

(** What a started worker runs: [target=exceptionHandledFunction,
    args=[_threadFunction]]. *)
Definition worker : M unit := exceptionHandledFunction _threadFunction false.

(** The condition of the interactive choice of the number of threads:
    [threadChoice and conf.threads == numThreads == 1 and not
    (kb.injection.data and not any(_ not in (TIME, STACKED) for _ in
    kb.injection.data))]. *)
Definition time_or_stacked (t : TECHNIQUE) : bool :=
  TECHNIQUE_eqb t TIME || TECHNIQUE_eqb t STACKED.

Definition asks (threadChoice : bool) (s : State) : bool :=
  threadChoice
  && (threads (conf s) =? numThreads s) && (numThreads s =? 1)
  && negb (negb (match injection_data (kb s) with [] => true | _ => false end)
           && negb (existsb (fun t => negb (time_or_stacked t)) (injection_data (kb s)))).

(** One turn of the [while True] loop of the prompt, on what [readInput]
    gave: it ends with [break] once a number of threads is accepted. *)
Definition prompt (a : answer) : M unit :=
  s <- get ;;
  emit (EvReadInput (numThreads s)) ;;
  match a with
  | Fails ex => raise ex
  | Answer choice =>
      match choice with
      | EmptyString => skip
      | _ =>
          let skipThreadCheck := endswith_bang choice in
          let choice := if skipThreadCheck then drop_last choice else choice in
          if isDigit choice then
            if (MAX_NUMBER_OF_THREADS <? int choice) && negb skipThreadCheck then
              emit (EvLog CRITICAL (MsgMaxThreads MAX_NUMBER_OF_THREADS))
            else
              set_threads (int choice) ;; break
          else skip
      end
  end.

(** [while True: ...] over the results of [readInput]; when they run out
    before a number is accepted the prompt is still asking. *)
Fixpoint while_True (answers : list answer) (body : answer -> M unit) : M unit :=
  match answers with
  | [] => diverge
  | a :: answers' =>
      fun s =>
        match body a s with
        | (Normal _, s1, t1) =>
            let '(c, s2, t2) := while_True answers' body s1 in (c, s2, t1 ++ t2)
        | (Break, s1, t1) => (Normal tt, s1, t1)
        | r => r
        end
  end.

(** The first block of the guarded region: the number of threads in force
    after the prompt, when one is due. *)
Definition choose_threads (threadChoice : bool) : M unit :=
  s <- get ;;
  when (asks threadChoice s)
    (while_True (readInput env) prompt ;;
     s <- get ;;
     when (numThreads s =? 1) (emit (EvLog WARNING MsgSingleThread))).

(** [for numThread in xrange(numThreads)]: the workers are created and
    started; a failure to start one ends the loop. *)
Definition start_threads : M unit :=
  s <- get ;;
  for_each (seq 0 (Z.to_nat (numThreads s)))
    (fun numThread =>
       setDaemon numThread ;;
       try_except (thread_start numThread)
         (fun ex =>
            if isinstance_Exception ex
            then Some (emit (EvLog CRITICAL (MsgStartFailed ex)) ;; break)
            else None) ;;
       s <- get ;; set_started (started s ++ [numThread])).

(** One pass over the started threads: [alive] becomes true, and the
    supervisor sleeps, for each that is alive. *)
Fixpoint poll (threads : list nat) (alive : bool) : M bool :=
  match threads with
  | [] => ret alive
  | thread :: threads' =>
      b <- is_alive thread ;;
      if b then time_sleep ;; poll threads' true else poll threads' alive
  end.

(** The last step at which a worker of the list is alive. *)
Definition horizon (threads : list nat) : nat :=
  fold_right Nat.max 0%nat (map (lifetime env) threads).

(** [while alive: ...]; the fuel its caller gives, one more than the last
    step at which a worker is alive, is never used up ([wait_ends]). *)
Fixpoint wait (fuel : nat) (threads : list nat) : M unit :=
  match fuel with
  | O => diverge
  | S fuel' =>
      alive <- poll threads false ;;
      if alive then wait fuel' threads else skip
  end.

(** [while (threading.active_count() > 1): pass], each turn a step during
    which Ctrl+C may arrive; here too the fuel of the caller is enough
    ([busy_wait_run]). *)
Fixpoint busy_wait (fuel : nat) : M unit :=
  match fuel with
  | O => diverge
  | S fuel' =>
      n <- active_count ;;
      if 1 <? n then
        s <- get ;; tick ;;
        (if interrupt env (steps s) then raise (Exn KeyboardInterrupt EmptyString) else skip) ;;
        busy_wait fuel'
      else skip
  end.

(** The body of the outer [try]. *)
Definition guarded (threadChoice startThreadMsg : bool) : M unit :=
  choose_threads threadChoice ;;
  s <- get ;;
  (if 1 <? numThreads s then
     when startThreadMsg (emit (EvLog INFO (MsgStarting (numThreads s))))
   else
     try_finally
       (try_except _threadFunction
          (fun ex =>
             if isinstance ex SqlmapUserQuitException || isinstance ex SqlmapSkipTargetException
             then Some skip else None))
       return_) ;;
  set_kb (set_multiThreadMode true) ;;
  start_threads ;;
  s <- get ;;
  wait (S (horizon (started s))) (started s).

(** [bool(kb.lastCtrlCTime)]: neither [None] nor zero. *)
Definition truthy (t : option Q) : bool :=
  match t with
  | None => false
  | Some q => negb (Qeq_bool q 0)
  end.

(** [kb.lastCtrlCTime and (time.time() - kb.lastCtrlCTime < 1)] *)
Definition pressed_again : M bool :=
  s <- get ;;
  match lastCtrlCTime (kb s) with
  | Some last =>
      if truthy (Some last)
      then (now <- time_time ;; ret (negb (Qle_bool 1 (now - last))))
      else ret false
  | None => ret false
  end.

(** [try: while (threading.active_count() > 1): pass
    except KeyboardInterrupt: kb.multipleCtrlC = True; raise
    SqlmapThreadException(...)] *)
Definition wait_for_threads : M unit :=
  s <- get ;;
  try_except (busy_wait (S (horizon (started s))))
    (fun ex =>
       if isinstance ex KeyboardInterrupt
       then Some (set_kb (set_multipleCtrlC true) ;;
                  raise (Exn SqlmapThreadException multipleCtrlC_message))
       else None).

(** [except (KeyboardInterrupt, SqlmapUserQuitException) as ex] *)
Definition on_interrupt (forwardException : bool) (ex : exn) : M unit :=
  emit EvPrint ;;
  set_kb (set_prependFlag false) ;;
  set_kb (set_threadContinue false) ;;
  set_kb (set_threadException true) ;;
  again <- pressed_again ;;
  (if again then
     set_kb (set_multipleCtrlC true) ;;
     raise (Exn SqlmapUserQuitException multipleCtrlC_message)
   else skip) ;;
  now <- time_time ;;
  set_kb (set_lastCtrlCTime (Some now)) ;;
  s <- get ;;
  when (1 <? numThreads s)
    (emit (EvLog INFO (MsgWaiting (isinstance ex KeyboardInterrupt)))) ;;
  wait_for_threads ;;
  when forwardException (raise ex).

(** [except (SqlmapConnectionException, SqlmapValueException) as ex] *)
Definition on_failure (ex : exn) : M unit :=
  emit EvPrint ;;
  set_kb (set_threadException true) ;;
  emit (EvLog ERROR (MsgFailure (currentThread env) ex)) ;;
  s <- get ;;
  v <- gt_1 (conf_get (conf s) "详细的") ;;
  when (v && isinstance ex SqlmapValueException) (emit EvTraceback).

(** [except Exception as ex] *)
Definition on_exception (ex : exn) : M unit :=
  emit EvPrint ;;
  s <- get ;;
  if negb (multipleCtrlC (kb s)) then
    if isinstance ex sqlite3_Error then raise ex
    else
      set_kb (set_threadException true) ;;
      emit (EvLog ERROR (MsgUnhandled (currentThread env))) ;;
      emit EvTraceback
  else skip.

(** The [except] clauses of the outer [try], in their order. *)
Definition handlers (forwardException : bool) (ex : exn) : option (M unit) :=
  if isinstance ex KeyboardInterrupt || isinstance ex SqlmapUserQuitException
  then Some (on_interrupt forwardException ex)
  else if isinstance ex SqlmapConnectionException || isinstance ex SqlmapValueException
  then Some (on_failure ex)
  else if isinstance_Exception ex
  then Some (on_exception ex)
  else None.

(** [lock.release()]: the call, then the lock is free unless it raised. *)
Definition unlock (name : string) (l : list (string * Lock)) : list (string * Lock) :=
  map (fun p => if String.eqb (fst p) name then (fst p, MkLock false (release (snd p))) else p) l.

Definition lock_release (name : string) (lock : Lock) : M unit :=
  emit (EvRelease name) ;;
  match release lock with
  | None => set_kb (fun k => set_locks (unlock name (locks k)) k)
  | Some ex => raise ex
  end.

(** [if lock.locked(): try: lock.release() except: pass] *)
Definition release_held (p : string * Lock) : M unit :=
  if locked (snd p)
  then try_except (lock_release (fst p) (snd p)) (fun _ => Some skip)
  else skip.

(** [for lock in kb.locks.values(): ...] *)
Definition release_locks : M unit :=
  s <- get ;; for_each (locks (kb s)) release_held.

(** [conf.hashDB.flush(True)] *)
Definition hashDB_flush : M unit :=
  emit EvFlush ;;
  match flush env with
  | None => skip
  | Some ex => raise ex
  end.

(** The caller's [cleanupFunction()]. *)
Definition call_cleanupFunction : M unit :=
  emit EvCleanup ;;
  match cleanup env with
  | None => skip
  | Some ex => raise ex
  end.

(** The [finally] suite of the outer [try]: nothing guards the flush and
    the cleanup, so that an exception of the flush leaves the suite before
    the cleanup is called. *)
Definition teardown (cleanupFunction : bool) : M unit :=
  set_kb (set_multiThreadMode false) ;;
  set_kb (set_threadContinue true) ;;
  set_kb (set_threadException false) ;;
  set_kb (set_technique None) ;;
  release_locks ;;
  s <- get ;;
  when (hashDB (conf s)) hashDB_flush ;;
  when cleanupFunction call_cleanupFunction.

(** The statements before the outer [try]. *)
Definition reset : M unit :=
  set_started [] ;;
  set_kb (set_multipleCtrlC false) ;;
  set_kb (set_threadContinue true) ;;
  set_kb (set_threadException false) ;;
  set_kb (set_technique (ThreadData_technique env)) ;;
  set_kb (set_multiThreadMode false).

(** [runThreads(numThreads, threadFunction, cleanupFunction,
    forwardException, threadChoice, startThreadMsg)]; [cleanupFunction]
    says whether one is given, [threadFunction] is the environment's. *)
Definition runThreads (numThreads : Z)
    (cleanupFunction forwardException threadChoice startThreadMsg : bool) : M unit :=
  call
    (set_numThreads numThreads ;;
     reset ;;
     try_finally
       (try_except (guarded threadChoice startThreadMsg) (handlers forwardException))
       (teardown cleanupFunction)).

(** ** The vocabulary of the properties *)

(** The completion of the call, from that of the outer [try]. *)
Definition returned (c : completion unit) : completion unit :=
  match c with
  | Return => Normal tt
  | _ => c
  end.

(** How a statement ended, the state it left and the events it made. *)
Definition outcome {A} (r : completion A * State * list event) : completion A :=
  fst (fst r).
Definition final {A} (r : completion A * State * list event) : State :=
  snd (fst r).
Definition trace {A} (r : completion A * State * list event) : list event :=
  snd r.

(** How many events of [t] satisfy [p]. *)
Definition count (p : event -> bool) (t : list event) : nat :=
  List.length (filter p t).

(** The state in which the outer [try] is entered. *)
Definition entered (numThreads : Z) (s : State) : State :=
  snd (fst ((set_numThreads numThreads ;; reset) s)).

(** The events of the teardown. *)
Definition teardown_event (e : event) : bool :=
  match e with
  | EvRelease _ | EvFlush | EvCleanup => true
  | _ => false
  end.

Definition is_cleanup (e : event) : bool :=
  match e with EvCleanup => true | _ => false end.


Definition is_start (e : event) : bool :=
  match e with EvStart _ => true | _ => false end.

Definition is_call (e : event) : bool :=
  match e with EvCall _ => true | _ => false end.

Definition is_log (e : event) : bool :=
  match e with EvLog _ _ => true | _ => false end.

Definition is_error_log (e : event) : bool :=
  match e with EvLog ERROR _ => true | _ => false end.

(** The release calls due for the locks of [l]: one for each lock that is
    held, in the order of [l]. *)
Definition released (l : list (string * Lock)) : list event :=
  map (fun p => EvRelease (fst p)) (filter (fun p => locked (snd p)) l).

(** The trace of the teardown of a run that reaches it in state [s],
    when the flush and the cleanup return. *)
Definition teardown_trace (cleanupFunction : bool) (s : State) : list event :=
  released (locks (kb s))
  ++ (if hashDB (conf s) then [EvFlush] else [])
  ++ (if cleanupFunction then [EvCleanup] else []).

(** The exception that the flush raises in state [s], if it is called
    and raises one. *)
Definition flush_failure (s : State) : option exn :=
  if hashDB (conf s) then flush env else None.

(** The exception that leaves the teardown, if one does: that of the
    flush, or else that of the cleanup. *)
Definition teardown_failure (cleanupFunction : bool) (s : State) : option exn :=
  match flush_failure s with
  | Some ex => Some ex
  | None => if cleanupFunction then cleanup env else None
  end.

(** The trace of the teardown in every case: the cleanup is called only
    if the flush has not raised. *)
Definition teardown_events (cleanupFunction : bool) (s : State) : list event :=
  released (locks (kb s))
  ++ (if hashDB (conf s) then [EvFlush] else [])
  ++ (if cleanupFunction
      then match flush_failure s with
           | None => [EvCleanup]
           | Some _ => []
           end
      else []).

(** How a statement that was ending with [c] ends once the teardown has
    run after it: an exception of the teardown takes the place of [c]. *)
Definition ended (cleanupFunction : bool) (s : State) (c : completion unit) :
    completion unit :=
  match teardown_failure cleanupFunction s with
  | Some ex => Raise ex
  | None => c
  end.


(** A cancellation as the outer [try] sees it. *)
Definition cancels (ex : exn) : bool :=
  isinstance ex KeyboardInterrupt || isinstance ex SqlmapUserQuitException.

(** The cancellation handled in state [s] comes less than 1 after the one
    recorded in [kb.lastCtrlCTime]. *)
Definition in_window (s : State) : bool :=
  match lastCtrlCTime (kb s) with
  | Some last => truthy (Some last) && negb (Qle_bool 1 (clock env (steps s) - last))
  | None => false
  end.

(** The first step from [from], among [count], at which Ctrl+C arrives. *)
Fixpoint first_interrupt (from count : nat) : option nat :=
  match count with
  | O => None
  | S count' =>
      if interrupt env from then Some from else first_interrupt (S from) count'
  end.

(** The step at which a further Ctrl+C reaches the handler while it waits
    for the workers that are still alive, if one does. *)
Definition second_signal (s : State) : option nat :=
  first_interrupt (steps s) (horizon (started s) - steps s).

(** What the teardown reads ([kb.locks], [conf.hashDB]) is as it was. *)
Definition same_resources (s s' : State) : Prop :=
  locks (kb s') = locks (kb s) /\ hashDB (conf s') = hashDB (conf s).

(** Besides, no repeated Ctrl+C was flagged and no cancellation recorded. *)
Definition same_run (s s' : State) : Prop :=
  same_resources s s'
  /\ multipleCtrlC (kb s') = multipleCtrlC (kb s)
  /\ lastCtrlCTime (kb s') = lastCtrlCTime (kb s).

(** A statement that keeps [R] between the states around it and does
    nothing of the teardown. *)
Definition quiet (R : State -> State -> Prop) {A} (m : M A) : Prop :=
  forall s c s' t,
    m s = (c, s', t) -> R s s' /\ Forall (fun e => teardown_event e = false) t.

(** The exception with which the handler of a cancellation answers a
    repeated Ctrl+C, when there is one: the cancellation comes within the
    window, or a further Ctrl+C arrives during the wait. *)
Definition escalation (s : State) : option exn :=
  if in_window s then Some (Exn SqlmapUserQuitException multipleCtrlC_message)
  else match second_signal s with
       | Some _ => Some (Exn SqlmapThreadException multipleCtrlC_message)
       | None => None
       end.

(** A statement that is over in every state. *)
Definition ends {A} (m : M A) : Prop :=
  forall s, outcome (m s) <> Diverge.

(** The events of the prompt. *)
Definition prompt_event (e : event) : bool :=
  match e with
  | EvReadInput _ | EvLog CRITICAL (MsgMaxThreads _) | EvLog WARNING MsgSingleThread => true
  | _ => false
  end.

(** The state [s] after the supervisor's step [n]. *)
Definition at_step (n : nat) (s : State) : State :=
  MkState (kb s) (conf s) (numThreads s) (started s) n.

(** The state [s] with [l] for [kb.locks]. *)
Definition with_locks (l : list (string * Lock)) (s : State) : State :=
  MkState (set_locks l (kb s)) (conf s) (numThreads s) (started s) (steps s).

(** The flags of the run as the teardown leaves them. *)
Definition finalized (s : State) : Prop :=
  multiThreadMode (kb s) = false
  /\ threadContinue (kb s) = true
  /\ threadException (kb s) = false
  /\ technique (kb s) = None.

(** ** The vocabulary of the workers, the prompt and the locks *)

Definition is_read (e : event) : bool :=
  match e with EvReadInput _ => true | _ => false end.

Definition is_daemon (e : event) : bool :=
  match e with EvDaemon _ => true | _ => false end.

Definition is_traceback (e : event) : bool :=
  match e with EvTraceback => true | _ => false end.

(** The events of the creation of worker [n]: it is made a daemon, then
    started. *)
Definition launch (n : nat) : list event := [EvDaemon n; EvStart n].

(** The workers started and the steps made are as they were. *)
Definition same_workers (s s' : State) : Prop :=
  started s' = started s /\ steps s' = steps s.

(** What [conf.get] answers is as it was. *)
Definition same_options (s s' : State) : Prop :=
  conf_get (conf s') = conf_get (conf s).

(** [threading.active_count()] is 1 in state [s]: none of the workers of
    the run is alive. *)
Definition all_stopped (s : State) : Prop :=
  outcome (active_count s) = Normal 1.

(** Every event of a statement satisfies [P]. *)
Definition emits (P : event -> bool) {A} (m : M A) : Prop :=
  forall s, forallb P (trace (m s)) = true.

(** A lock of [kb.locks] once [release()] has been called on it if it was
    held: free when the call returns, as it was when the call raises. *)
Definition after_release (p : string * Lock) : string * Lock :=
  if locked (snd p)
  then match release (snd p) with
       | None => (fst p, MkLock false None)
       | Some _ => p
       end
  else p.

(** What one answer is to the prompt in force: the text without its
    ['!'], when it ends with one. *)
Definition unmarked (choice : string) : string :=
  if endswith_bang choice then drop_last choice else choice.

(** The exception of the comparison of [None] with 1. *)
Definition None_gt_1 : exn :=
  Exn TypeError "'>' not supported between instances of 'NoneType' and 'int'".

(** The state in which the guarded region has put [n] for
    [conf.threads] and [numThreads]. *)
Definition with_threads (n : Z) (s : State) : State :=
  MkState (kb s) (MkConf n (hashDB (conf s)) (conf_get (conf s))) n (started s) (steps s).

(** The state [s] with [l] for the local [threads] of the run. *)
Definition with_started (l : list nat) (s : State) : State :=
  MkState (kb s) (conf s) (numThreads s) l (steps s).

(** One turn of the loop that starts the workers. *)
Definition start_one (numThread : nat) : M unit :=
  setDaemon numThread ;;
  try_except (thread_start numThread)
    (fun ex =>
       if isinstance_Exception ex
       then Some (emit (EvLog CRITICAL (MsgStartFailed ex)) ;; break)
       else None) ;;
  s <- get ;; set_started (started s ++ [numThread]).

(** The state in which the workers are started. *)
Definition multi (s : State) : State :=
  MkState (set_multiThreadMode true (kb s)) (conf s) (numThreads s) (started s) (steps s).

(** What the guarded region logs before it starts the workers. *)
Definition starting (startThreadMsg : bool) (s : State) : list event :=
  if startThreadMsg then [EvLog INFO (MsgStarting (numThreads s))] else [].

(** The events other than the calls of [readInput]. *)
Definition unread (e : event) : bool := negb (is_read e).

(** [threadChoice and conf.threads == numThreads == 1], and either there
    are no injection data or one of the techniques found is neither
    time-based nor stacked. *)
Definition due (threadChoice : bool) (numThreads : Z) (s : State) : bool :=
  threadChoice && (threads (conf s) =? 1) && (numThreads =? 1)
  && match injection_data (kb s) with
     | [] => true
     | l => negb (forallb time_or_stacked l)
     end.

(** What the prompt does with an answer that it does not accept: it has
    asked, and it logs the limit when the answer is a number. *)
Definition refusal (n : Z) (choice : string) : list event :=
  EvReadInput n
  :: (if isDigit choice then [EvLog CRITICAL (MsgMaxThreads MAX_NUMBER_OF_THREADS)] else []).

Definition is_close (e : event) : bool :=
  match e with EvClose => true | _ => false end.

(** The calls that concern the session file: the thread function that
    uses it, the closing of the handle, the flush. *)
Definition session_event (e : event) : bool :=
  match e with EvCall _ | EvClose | EvFlush => true | _ => false end.

(** What the handler of a cancellation prints and logs in state [s]. *)
Definition announced (ex : exn) (s : State) : list event :=
  EvPrint
  :: (if in_window s then []
      else if 1 <? numThreads s
           then [EvLog INFO (MsgWaiting (isinstance ex KeyboardInterrupt))]
           else []).

(** ** Scenarios *)

(** A state between two runs: three of the four locks are held, and the
    release of one of them raises; a session file is configured. *)
Definition kb_idle : KB :=
  MkKB false true false None false false None
    [("cache", MkLock true None);
     ("count", MkLock false None);
     ("io", MkLock true (Some (Exn RuntimeError "release unlocked lock")));
     ("value", MkLock true None)]
    [].

Definition conf_one : Conf :=
  MkConf 1 true (fun key => if String.eqb key "verbose" then Some 1 else None).

Definition idle : State := MkState kb_idle conf_one 0 [] 0.

(** The state of a run whose handler has just cleared
    [kb.threadContinue]. *)
Definition not_continuing : State :=
  MkState (set_threadException true (set_threadContinue false kb_idle)) conf_one 2 [0%nat; 1%nat] 2.

(** An environment: the answers of [readInput], what the thread function
    does, how long the workers live, when Ctrl+C arrives.  The clock
    advances by 10 at each step of the supervisor. *)
Definition scenario (thread : string) (answers : list answer) (work : option exn)
    (life : nat) (ctrlC : nat -> bool) : Env :=
  MkEnv true thread None answers work (fun _ => None) (fun _ => life) ctrlC
    (fun n => inject_Z (10 * Z.of_nat n)) None None.

Definition never : nat -> bool := fun _ => false.

Definition at_steps (l : list nat) : nat -> bool :=
  fun n => existsb (Nat.eqb n) l.

Definition quiet_work : Env := scenario "MainThread" [] None 3 never.

Definition quit_work : Env :=
  scenario "MainThread" [] (Some (Exn SqlmapUserQuitException "user quit")) 3 never.

Definition sqlite_work : Env :=
  scenario "MainThread" [] (Some (Exn sqlite3_Error "database is locked")) 3 never.

Definition sqlite_worker : Env :=
  scenario "0" [] (Some (Exn sqlite3_Error "database is locked")) 3 never.

Definition connection_worker : Env :=
  scenario "0" [] (Some (Exn SqlmapConnectionException "connection timed out")) 3 never.

Definition two_typed : Env := scenario "MainThread" [Answer "2"] None 3 never.

Definition one_kept : Env :=
  scenario "MainThread" [Answer "1"] (Some (Exn SqlmapUserQuitException "user quit")) 3 never.

Definition sqlite_prompt : Env :=
  scenario "MainThread" [Fails (Exn sqlite3_Error "database is locked")] None 3 never.

Definition connection_prompt : Env :=
  scenario "MainThread" [Fails (Exn SqlmapConnectionException "connection timed out")]
    None 3 never.

Definition ctrlC_once : Env := scenario "MainThread" [] None 4 (at_steps [0%nat]).

Definition ctrlC_twice : Env :=
  scenario "MainThread" [] None 100 (at_steps [0%nat; 5%nat]).

(** Two runs in a row, on a clock that advances by a quarter at each
    step: the first is cancelled by Ctrl+C during its first sleep and
    returns; the second starts in the state the first has left and is
    cancelled by Ctrl+C at its prompt. *)
Definition first_run : Env :=
  MkEnv true "MainThread" None [] None (fun _ => None) (fun _ => 2%nat)
    (at_steps [0%nat]) (fun n => Z.of_nat n # 4) None None.

Definition second_run : Env :=
  MkEnv true "MainThread" None [Fails (Exn KeyboardInterrupt EmptyString)] None
    (fun _ => None) (fun _ => 2%nat) never (fun n => Z.of_nat n # 4) None None.

(** An environment in which the second worker cannot be started. *)
Definition refusing_start : Env :=
  MkEnv true "MainThread" None [] None
    (fun n => if Nat.eqb n 1 then Some (Exn RuntimeError "can't start new thread") else None)
    (fun _ => 3%nat) never (fun n => inject_Z (10 * Z.of_nat n)) None None.

(** A state between two runs with [conf.verbose] at 2. *)
Definition debugging : State :=
  MkState kb_idle
    (MkConf 1 true (fun key => if String.eqb key "verbose" then Some 2 else None)) 0 [] 0.

(** A state between two runs in which the techniques found are
    time-based and stacked queries. *)
Definition timed : State :=
  MkState
    (MkKB false true false None false false None (locks kb_idle) [TIME; STACKED])
    conf_one 0 [] 0.

(** The user answers the prompt with nothing, a text, a number above the
    limit, a lone mark, and then 4; a further answer is ready. *)
Definition hesitant : Env :=
  scenario "MainThread"
    [Answer EmptyString; Answer "many"; Answer "99"; Answer "!"; Answer "4"; Answer "7"]
    None 3 never.

Definition exiting_worker : Env :=
  scenario "0" [] (Some (Exn SystemExit "1")) 3 never.

Definition value_worker : Env :=
  scenario "0" [] (Some (Exn SqlmapValueException "unexpected value")) 3 never.

(** The flush of the session file fails: the disk is full. *)
Definition failing_flush : Env :=
  MkEnv true "MainThread" None [] None (fun _ => None) (fun _ => 3%nat) never
    (fun n => inject_Z (10 * Z.of_nat n))
    (Some (Exn sqlite3_Error "database or disk is full")) None.

(** The cleanup function of the caller raises. *)
Definition failing_cleanup : Env :=
  MkEnv true "MainThread" None [] None (fun _ => None) (fun _ => 3%nat) never
    (fun n => inject_Z (10 * Z.of_nat n))
    None (Some (Exn SqlmapConnectionException "connection timed out")).

(** ** Statements that leave the teardown alone *)

Section Frame.

Variable R : State -> State -> Prop.
Hypothesis R_refl : forall s, R s s.
Hypothesis R_trans : forall s1 s2 s3, R s1 s2 -> R s2 s3 -> R s1 s3.

Lemma quiet_ret {A} (a : A) : quiet R (ret a).
Proof. intros s c s' t H; inversion H; subst; auto. Qed.

Lemma quiet_raise {A} (ex : exn) : quiet R (@raise A ex).
Proof. intros s c s' t H; inversion H; subst; auto. Qed.

Lemma quiet_return {A} : quiet R (@return_ A).
Proof. intros s c s' t H; inversion H; subst; auto. Qed.

Lemma quiet_break {A} : quiet R (@break A).
Proof. intros s c s' t H; inversion H; subst; auto. Qed.

Lemma quiet_diverge {A} : quiet R (@diverge A).
Proof. intros s c s' t H; inversion H; subst; auto. Qed.

Lemma quiet_get : quiet R get.
Proof. intros s c s' t H; inversion H; subst; auto. Qed.

Lemma quiet_emit (e : event) : teardown_event e = false -> quiet R (emit e).
Proof. intros He s c s' t H; inversion H; subst; auto. Qed.

Lemma quiet_modify (f : State -> State) :
  (forall s, R s (f s)) -> quiet R (modify f).
Proof. intros Hf s c s' t H; inversion H; subst; auto. Qed.

Lemma quiet_bind {A B} (m : M A) (k : A -> M B) :
  quiet R m -> (forall a, quiet R (k a)) -> quiet R (bind m k).
Proof.
  intros Hm Hk s c s' t H. unfold bind in H.
  destruct (m s) as [[c1 s1] t1] eqn:E1.
  destruct (Hm _ _ _ _ E1) as [HR1 HF1].
  destruct c1; try (inversion H; subst; auto; fail).
  destruct (k a s1) as [[c2 s2] t2] eqn:E2.
  destruct (Hk _ _ _ _ _ E2) as [HR2 HF2].
  inversion H; subst. split; [eauto | apply Forall_app; auto].
Qed.

Lemma quiet_when (b : bool) (m : M unit) : quiet R m -> quiet R (when b m).
Proof. destruct b; simpl; auto. intros _. apply quiet_ret. Qed.

Lemma quiet_try_except {A} (body : M A) (handlers : exn -> option (M A)) :
  quiet R body ->
  (forall ex h, handlers ex = Some h -> quiet R h) ->
  quiet R (try_except body handlers).
Proof.
  intros Hb Hh s c s' t H. unfold try_except in H.
  destruct (body s) as [[c1 s1] t1] eqn:E1.
  destruct (Hb _ _ _ _ E1) as [HR1 HF1].
  destruct c1; try (inversion H; subst; auto; fail).
  destruct (handlers ex) as [h|] eqn:Eh; [|inversion H; subst; auto].
  destruct (h s1) as [[c2 s2] t2] eqn:E2.
  destruct (Hh _ _ Eh _ _ _ _ E2) as [HR2 HF2].
  inversion H; subst. split; [eauto | apply Forall_app; auto].
Qed.

Lemma quiet_try_finally {A} (body : M A) (final : M unit) :
  quiet R body -> quiet R final -> quiet R (try_finally body final).
Proof.
  intros Hb Hf s c s' t H. unfold try_finally in H.
  destruct (body s) as [[c1 s1] t1] eqn:E1.
  destruct (Hb _ _ _ _ E1) as [HR1 HF1].
  destruct (final s1) as [[c2 s2] t2] eqn:E2.
  destruct (Hf _ _ _ _ E2) as [HR2 HF2].
  assert (HF : Forall (fun e => teardown_event e = false) (t1 ++ t2))
    by (apply Forall_app; auto).
  destruct c1; destruct c2; inversion H; subst; eauto.
Qed.

Lemma quiet_for_each {A} (l : list A) (body : A -> M unit) :
  (forall x, quiet R (body x)) -> quiet R (for_each l body).
Proof.
  intros Hb. induction l as [|x l IH]; simpl.
  - apply (@quiet_ret unit).
  - intros s c s' t H.
    destruct (body x s) as [[c1 s1] t1] eqn:E1.
    destruct (Hb _ _ _ _ _ E1) as [HR1 HF1].
    destruct c1; try (inversion H; subst; auto; fail).
    destruct (for_each l body s1) as [[c2 s2] t2] eqn:E2.
    destruct (IH _ _ _ _ E2) as [HR2 HF2].
    inversion H; subst. split; [eauto | apply Forall_app; auto].
Qed.

Lemma quiet_while_True (answers : list answer) (body : answer -> M unit) :
  (forall a, quiet R (body a)) -> quiet R (while_True answers body).
Proof.
  intros Hb. induction answers as [|x l IH]; simpl.
  - apply (@quiet_diverge unit).
  - intros s c s' t H.
    destruct (body x s) as [[c1 s1] t1] eqn:E1.
    destruct (Hb _ _ _ _ _ E1) as [HR1 HF1].
    destruct c1; try (inversion H; subst; auto; fail).
    destruct (while_True l body s1) as [[c2 s2] t2] eqn:E2.
    destruct (IH _ _ _ _ E2) as [HR2 HF2].
    inversion H; subst. split; [eauto | apply Forall_app; auto].
Qed.

Lemma quiet_call (m : M unit) : quiet R m -> quiet R (call m).
Proof.
  intros Hm s c s' t H. unfold call in H.
  destruct (m s) as [[c1 s1] t1] eqn:E1.
  destruct (Hm _ _ _ _ E1) as [HR1 HF1].
  destruct c1; inversion H; subst; auto.
Qed.

End Frame.

Lemma same_resources_refl (s : State) : same_resources s s.
Proof. split; reflexivity. Qed.

Lemma same_resources_trans (s1 s2 s3 : State) :
  same_resources s1 s2 -> same_resources s2 s3 -> same_resources s1 s3.
Proof. intros [H1 H2] [H3 H4]; split; congruence. Qed.

Lemma same_run_refl (s : State) : same_run s s.
Proof. repeat split; reflexivity. Qed.

Lemma same_run_trans (s1 s2 s3 : State) :
  same_run s1 s2 -> same_run s2 s3 -> same_run s1 s3.
Proof. intros [[H1 H2] [H3 H4]] [[H5 H6] [H7 H8]]; repeat split; congruence. Qed.

Lemma same_run_resources (s s' : State) : same_run s s' -> same_resources s s'.
Proof. intros [H _]; exact H. Qed.

Create HintDb frame.
#[local] Hint Resolve same_resources_refl same_resources_trans
  same_run_refl same_run_trans : frame.

(** The structural step of a proof that a statement is [quiet]; what is
    left are the assignments and the events. *)
Ltac quiet_step :=
  match goal with
  | |- quiet _ (bind _ _) => apply quiet_bind; [eauto with frame | | intros ?]
  | |- quiet _ (when _ _) => apply quiet_when; [eauto with frame |]
  | |- quiet _ (try_except _ _) => apply quiet_try_except; [eauto with frame | | ]
  | |- quiet _ (try_finally _ _) => apply quiet_try_finally; [eauto with frame | | ]
  | |- quiet _ (for_each _ _) => apply quiet_for_each; [eauto with frame .. | intros ?]
  | |- quiet _ (while_True _ _) => apply quiet_while_True; [eauto with frame .. | intros ?]
  | |- quiet _ (call _) => apply quiet_call
  | |- quiet _ (ret _) => apply quiet_ret; eauto with frame
  | |- quiet _ skip => apply quiet_ret; eauto with frame
  | |- quiet _ (raise _) => apply quiet_raise; eauto with frame
  | |- quiet _ return_ => apply quiet_return; eauto with frame
  | |- quiet _ break => apply quiet_break; eauto with frame
  | |- quiet _ diverge => apply quiet_diverge; eauto with frame
  | |- quiet _ get => apply quiet_get; eauto with frame
  | |- quiet _ (emit _) => apply quiet_emit; [eauto with frame | reflexivity]
  | |- quiet _ (set_kb _) =>
      apply quiet_modify; intros ?; repeat split; reflexivity
  | |- quiet _ (modify _) =>
      apply quiet_modify; intros ?; repeat split; reflexivity
  | |- quiet _ (if ?b then _ else _) => destruct b
  | |- quiet _ (match ?x with _ => _ end) => destruct x
  end.

(** The clause of an [except] that was taken. *)
Ltac quiet_clause :=
  match goal with
  | |- forall _ : exn, _ =>
      let H := fresh "Hclause" in
      intros ? ? H;
      repeat match type of H with
             | (if ?b then _ else _) = Some _ => destruct b
             end;
      first [ discriminate H | inversion H; subst; clear H ]
  end.

Ltac quiet_auto :=
  repeat first
    [ quiet_step
    | quiet_clause
    | progress unfold tick, set_started, set_threads, set_numThreads ].

Lemma quiet_weaken (R R' : State -> State -> Prop) {A} (m : M A) :
  (forall s s', R s s' -> R' s s') -> quiet R m -> quiet R' m.
Proof. intros HR Hm s c s' t H. destruct (Hm _ _ _ _ H); auto. Qed.

Lemma quiet_gt_1 R (x : option Z) :
  (forall s, R s s) -> quiet R (gt_1 x).
Proof. intros HR. unfold gt_1. quiet_auto. Qed.

Lemma quiet_time_sleep : quiet same_run time_sleep.
Proof. unfold time_sleep. quiet_auto. Qed.

Lemma quiet_poll (threads : list nat) (alive : bool) :
  quiet same_run (poll threads alive).
Proof.
  revert alive. induction threads as [|th l IH]; intros alive; simpl.
  - quiet_auto.
  - unfold is_alive. quiet_auto; auto using quiet_time_sleep.
Qed.

Lemma quiet_wait (fuel : nat) (threads : list nat) :
  quiet same_run (wait fuel threads).
Proof.
  induction fuel as [|fuel IH]; simpl; quiet_auto; auto using quiet_poll.
Qed.

Lemma quiet_busy_wait (fuel : nat) : quiet same_run (busy_wait fuel).
Proof.
  induction fuel as [|fuel IH]; simpl; unfold active_count; quiet_auto; auto.
Qed.

Lemma quiet__threadFunction : quiet same_run _threadFunction.
Proof. unfold _threadFunction, call_threadFunction. quiet_auto. Qed.

Lemma quiet_prompt (a : answer) : quiet same_run (prompt a).
Proof. unfold prompt. quiet_auto. Qed.

Lemma quiet_choose_threads (threadChoice : bool) :
  quiet same_run (choose_threads threadChoice).
Proof. unfold choose_threads. quiet_auto. apply quiet_prompt. Qed.

Lemma quiet_start_threads : quiet same_run start_threads.
Proof. unfold start_threads, setDaemon, thread_start. quiet_auto. Qed.

(** The guarded region neither releases, flushes nor cleans up, and leaves
    [kb.locks], [conf.hashDB], [kb.multipleCtrlC] and [kb.lastCtrlCTime]
    as they were. *)
Lemma quiet_guarded (threadChoice startThreadMsg : bool) :
  quiet same_run (guarded threadChoice startThreadMsg).
Proof.
  unfold guarded. quiet_auto;
    auto using quiet_choose_threads, quiet__threadFunction,
      quiet_start_threads, quiet_wait.
Qed.

Lemma quiet_time_time : quiet same_resources time_time.
Proof. unfold time_time. quiet_auto. Qed.

Lemma quiet_on_interrupt (forwardException : bool) (ex : exn) :
  quiet same_resources (on_interrupt forwardException ex).
Proof.
  unfold on_interrupt, pressed_again, wait_for_threads.
  quiet_auto; auto using quiet_time_time.
  apply quiet_weaken with (R := same_run);
    auto using same_run_resources, quiet_busy_wait.
Qed.

Lemma quiet_on_failure (ex : exn) : quiet same_resources (on_failure ex).
Proof.
  unfold on_failure. quiet_auto. apply quiet_gt_1. auto with frame.
Qed.

Lemma quiet_on_exception (ex : exn) : quiet same_resources (on_exception ex).
Proof. unfold on_exception. quiet_auto. Qed.

(** The outer [try] with its [except] clauses leaves the teardown alone. *)
Lemma quiet_region (forwardException threadChoice startThreadMsg : bool) :
  quiet same_resources
    (try_except (guarded threadChoice startThreadMsg) (handlers forwardException)).
Proof.
  apply quiet_try_except; [eauto with frame | | ].
  - apply quiet_weaken with (R := same_run);
      auto using same_run_resources, quiet_guarded.
  - unfold handlers. quiet_clause;
      auto using quiet_on_interrupt, quiet_on_failure, quiet_on_exception.
Qed.

(** ** The teardown *)

Lemma with_locks_same (s : State) : with_locks (locks (kb s)) s = s.
Proof. destruct s as [[] ? ? ? ?]; reflexivity. Qed.

Lemma with_locks_twice (l l' : list (string * Lock)) (s : State) :
  with_locks l (with_locks l' s) = with_locks l s.
Proof. reflexivity. Qed.

(** One turn of the loop over [kb.locks.values()]: a lock that is held
    has [release()] called, and the turn ends normally whatever the call
    did. *)
Lemma release_held_run (p : string * Lock) (s : State) :
  exists l',
    release_held p s
    = (Normal tt, with_locks l' s,
       if locked (snd p) then [EvRelease (fst p)] else []).
Proof.
  unfold release_held. destruct (locked (snd p)).
  - unfold try_except, lock_release, bind, emit.
    destruct (release (snd p)) as [ex|]; simpl.
    + exists (locks (kb s)). now rewrite with_locks_same.
    + exists (unlock (fst p) (locks (kb s))). reflexivity.
  - exists (locks (kb s)). simpl. now rewrite with_locks_same.
Qed.

(** The loop calls [release()] once on each lock that is held, whatever
    the calls before it did, and changes nothing but the locks. *)
Lemma release_loop (l : list (string * Lock)) (s : State) :
  exists l', for_each l release_held s = (Normal tt, with_locks l' s, released l).
Proof.
  revert s. induction l as [|p l IH]; intros s.
  - exists (locks (kb s)). simpl. now rewrite with_locks_same.
  - simpl. destruct (release_held_run p s) as [l1 ->].
    destruct (IH (with_locks l1 s)) as [l2 ->].
    exists l2. rewrite with_locks_twice. unfold released. simpl.
    destruct (locked (snd p)); reflexivity.
Qed.

(** The [finally] suite: the flags are set and [release()] is called on
    the held locks in every case; then comes the flush, and the cleanup
    unless the flush has raised; an exception of the flush or of the
    cleanup is what the suite ends with. *)
Lemma teardown_shape (cleanupFunction : bool) (s : State) :
  exists s',
    teardown cleanupFunction s
    = (ended cleanupFunction s (Normal tt), s', teardown_events cleanupFunction s)
    /\ finalized s'
    /\ multipleCtrlC (kb s') = multipleCtrlC (kb s)
    /\ lastCtrlCTime (kb s') = lastCtrlCTime (kb s)
    /\ conf s' = conf s.
Proof.
  unfold teardown, release_locks.
  set (s1 := MkState
               (set_technique None
                  (set_threadException false
                     (set_threadContinue true (set_multiThreadMode false (kb s)))))
               (conf s) (numThreads s) (started s) (steps s)).
  destruct (release_loop (locks (kb s1)) s1) as [l' Hl'].
  exists (with_locks l' s1). split.
  - unfold bind at 1 2 3 4 5. unfold set_kb, modify. simpl.
    unfold bind at 1. unfold get at 1. fold s1. rewrite Hl'.
    unfold teardown_events, ended, teardown_failure, flush_failure,
      hashDB_flush, call_cleanupFunction, bind, get, emit, raise, skip, ret.
    simpl.
    destruct (hashDB (conf s)), cleanupFunction, (flush env), (cleanup env); simpl;
      rewrite ?app_nil_r; reflexivity.
  - repeat split; reflexivity.
Qed.

(** What the teardown does depends on the state through [kb.locks] and
    [conf.hashDB] only. *)
Lemma teardown_same (cleanupFunction : bool) (s s' : State) :
  same_resources s s' ->
  teardown_events cleanupFunction s' = teardown_events cleanupFunction s
  /\ teardown_failure cleanupFunction s' = teardown_failure cleanupFunction s
  /\ flush_failure s' = flush_failure s.
Proof.
  intros [Hlocks HhashDB].
  unfold teardown_events, teardown_failure, flush_failure.
  rewrite Hlocks, HhashDB. auto.
Qed.

(** ** The shape of a run *)

Lemma entered_run {A} (numThreads : Z) (rest : M A) (s : State) :
  (set_numThreads numThreads ;; reset ;; rest) s = rest (entered numThreads s).
Proof.
  unfold entered, reset, set_numThreads, set_started, set_kb, bind, modify.
  simpl. destruct (rest _) as [[[] ?] ?]; reflexivity.
Qed.

(** What [entered] sets and keeps. *)
Lemma entered_state (n : Z) (s : State) :
  numThreads (entered n s) = n
  /\ started (entered n s) = []
  /\ steps (entered n s) = steps s
  /\ conf (entered n s) = conf s
  /\ multipleCtrlC (kb (entered n s)) = false
  /\ threadContinue (kb (entered n s)) = true
  /\ threadException (kb (entered n s)) = false
  /\ multiThreadMode (kb (entered n s)) = false
  /\ lastCtrlCTime (kb (entered n s)) = lastCtrlCTime (kb s)
  /\ locks (kb (entered n s)) = locks (kb s)
  /\ injection_data (kb (entered n s)) = injection_data (kb s).
Proof. repeat split; reflexivity. Qed.

(** A run whose guarded region and handlers end in [c1] goes through the
    teardown, once, and ends as they did unless the teardown raises. *)
Lemma run_shape (n : Z) (cleanupFunction forwardException threadChoice startThreadMsg : bool)
    (s : State) (c1 : completion unit) (s1 : State) (t1 : list event) :
  try_except (guarded threadChoice startThreadMsg) (handlers forwardException)
    (entered n s) = (c1, s1, t1) ->
  c1 <> Diverge ->
  exists s2,
    runThreads n cleanupFunction forwardException threadChoice startThreadMsg s
    = (ended cleanupFunction s1 (returned c1), s2, t1 ++ teardown_events cleanupFunction s1)
    /\ finalized s2
    /\ multipleCtrlC (kb s2) = multipleCtrlC (kb s1)
    /\ lastCtrlCTime (kb s2) = lastCtrlCTime (kb s1)
    /\ conf s2 = conf s1.
Proof.
  intros Hregion Hc1.
  destruct (teardown_shape cleanupFunction s1) as (s2 & Htear & Hfin & Hm & Hl & Hc).
  exists s2. split; [|auto].
  unfold runThreads, call. rewrite entered_run. unfold try_finally.
  rewrite Hregion, Htear. unfold ended.
  destruct (teardown_failure cleanupFunction s1); destruct c1; try reflexivity;
    now elim Hc1.
Qed.

(** A run whose guarded region is still going has not reached the
    teardown. *)
Lemma runThreads_diverge (n : Z) (cleanupFunction forwardException threadChoice startThreadMsg : bool)
    (s s1 : State) (t1 : list event) :
  try_except (guarded threadChoice startThreadMsg) (handlers forwardException)
    (entered n s) = (Diverge, s1, t1) ->
  runThreads n cleanupFunction forwardException threadChoice startThreadMsg s
  = (Diverge, s1, t1).
Proof.
  intros Hregion. unfold runThreads, call. rewrite entered_run.
  unfold try_finally. now rewrite Hregion.
Qed.

Lemma filter_quiet (p : event -> bool) (t : list event) :
  (forall e, p e = true -> teardown_event e = true) ->
  Forall (fun e => teardown_event e = false) t ->
  filter p t = [].
Proof.
  intros Hp Ht. induction Ht as [|e t He Ht IH]; simpl; auto.
  destruct (p e) eqn:Hpe; auto. apply Hp in Hpe. congruence.
Qed.


Lemma filter_cleanup_released (l : list (string * Lock)) :
  filter is_cleanup (released l) = [].
Proof.
  unfold released. induction l as [|p l IH]; simpl; auto.
  destruct (locked (snd p)); simpl; now rewrite ?IH.
Qed.

(** A run that ends is its guarded region and handlers, which leave the
    teardown alone, followed by the teardown. *)
Lemma run_ends (n : Z) (cleanupFunction forwardException threadChoice startThreadMsg : bool)
    (s : State) :
  outcome (runThreads n cleanupFunction forwardException threadChoice startThreadMsg s)
    <> Diverge ->
  exists c1 s1 t1 s2,
    try_except (guarded threadChoice startThreadMsg) (handlers forwardException)
      (entered n s) = (c1, s1, t1)
    /\ c1 <> Diverge
    /\ runThreads n cleanupFunction forwardException threadChoice startThreadMsg s
       = (ended cleanupFunction s (returned c1), s2, t1 ++ teardown_events cleanupFunction s)
    /\ same_resources s s1
    /\ Forall (fun e => teardown_event e = false) t1
    /\ finalized s2
    /\ multipleCtrlC (kb s2) = multipleCtrlC (kb s1)
    /\ lastCtrlCTime (kb s2) = lastCtrlCTime (kb s1).
Proof.
  intros Hends.
  destruct (try_except (guarded threadChoice startThreadMsg) (handlers forwardException)
              (entered n s)) as [[c1 s1] t1] eqn:Hregion.
  assert (Hc1 : c1 <> Diverge).
  { intros ->. apply Hends.
    now rewrite (runThreads_diverge _ cleanupFunction _ _ _ _ _ _ Hregion). }
  destruct (run_shape n cleanupFunction _ _ _ _ _ _ _ Hregion Hc1)
    as (s2 & Hrun & Hfin & Hm & Hl & _).
  destruct (quiet_region _ _ _ _ _ _ _ Hregion) as [Hsame Hquiet].
  change (same_resources s s1) in Hsame.
  destruct (teardown_same cleanupFunction _ _ Hsame) as (Hevents & Hfailure & _).
  unfold ended in *. rewrite Hevents, Hfailure in Hrun.
  exists c1, s1, t1, s2.
  repeat match goal with |- _ /\ _ => split end; auto.
Qed.

(** C1, as the code has it.  When a cleanup function is given, a run that
    ends, however it ends (normal completion, a cancellation, a repeated
    cancellation, an exception that leaves [runThreads], or one that a
    handler caught), has called it exactly once if no session file is
    configured or the flush that comes before it in the [finally] suite
    has returned.  When the flush raises, the cleanup function is not
    called at all, and the exception of the flush is what the run
    raises. *)
Theorem cleanup_exactly_once (n : Z) (forwardException threadChoice startThreadMsg : bool)
    (s : State) :
  outcome (runThreads n true forwardException threadChoice startThreadMsg s) <> Diverge ->
  count is_cleanup
    (trace (runThreads n true forwardException threadChoice startThreadMsg s))
  = match flush_failure s with
    | None => 1%nat
    | Some _ => 0%nat
    end
  /\ forall ex,
       flush_failure s = Some ex ->
       outcome (runThreads n true forwardException threadChoice startThreadMsg s) = Raise ex.
Proof.
  intros Hends.
  destruct (run_ends _ _ _ _ _ _ Hends)
    as (c1 & s1 & t1 & s2 & _ & _ & -> & _ & Hquiet & _).
  unfold count, trace, outcome, teardown_events, ended, teardown_failure. simpl. split.
  - rewrite !filter_app, filter_cleanup_released.
    rewrite (filter_quiet is_cleanup t1); auto; [|now intros []].
    destruct (hashDB (conf s)), (flush_failure s); reflexivity.
  - intros ex ->. reflexivity.
Qed.


(** A run that ends finishes with the teardown, and leaves the flags of
    the run as the teardown sets them. *)
Lemma run_teardown (n : Z)
    (cleanupFunction forwardException threadChoice startThreadMsg : bool) (s : State) :
  outcome (runThreads n cleanupFunction forwardException threadChoice startThreadMsg s)
    <> Diverge ->
  exists before,
    trace (runThreads n cleanupFunction forwardException threadChoice startThreadMsg s)
    = before ++ teardown_events cleanupFunction s
    /\ Forall (fun e => teardown_event e = false) before
    /\ finalized
         (final (runThreads n cleanupFunction forwardException threadChoice startThreadMsg s))
    /\ outcome (runThreads n cleanupFunction forwardException threadChoice startThreadMsg s)
       = ended cleanupFunction s
           (returned
              (outcome
                 (try_except (guarded threadChoice startThreadMsg)
                    (handlers forwardException) (entered n s)))).
Proof.
  intros Hends.
  destruct (run_ends _ _ _ _ _ _ Hends)
    as (c1 & s1 & t1 & s2 & -> & _ & -> & _ & Hquiet & Hfin & _).
  exists t1. unfold trace, final, outcome. simpl. auto.
Qed.

(** C8, as the code has it.  Every run that ends finishes with the
    teardown, in one order and with nothing of the kind before: the
    release of the held locks, then the flush when a handle is
    configured, then the cleanup when one is given, each at most once;
    and the run leaves [multiThreadMode] false, [threadContinue] true and
    [threadException] false.  The releases and the flush are never left
    out; the cleanup is left out when the flush raises.  An exception of
    the flush or of the cleanup is what the run then raises, whatever it
    was ending with. *)
Theorem teardown_order (n : Z)
    (cleanupFunction forwardException threadChoice startThreadMsg : bool) (s : State) :
  outcome (runThreads n cleanupFunction forwardException threadChoice startThreadMsg s)
    <> Diverge ->
  exists before,
    trace (runThreads n cleanupFunction forwardException threadChoice startThreadMsg s)
    = before
      ++ released (locks (kb s))
      ++ (if hashDB (conf s) then [EvFlush] else [])
      ++ (if cleanupFunction
          then match flush_failure s with
               | None => [EvCleanup]
               | Some _ => []
               end
          else [])
    /\ Forall (fun e => teardown_event e = false) before
    /\ multiThreadMode
         (kb (final (runThreads n cleanupFunction forwardException threadChoice startThreadMsg s)))
       = false
    /\ threadContinue
         (kb (final (runThreads n cleanupFunction forwardException threadChoice startThreadMsg s)))
       = true
    /\ threadException
         (kb (final (runThreads n cleanupFunction forwardException threadChoice startThreadMsg s)))
       = false
    /\ forall ex,
         teardown_failure cleanupFunction s = Some ex ->
         outcome (runThreads n cleanupFunction forwardException threadChoice startThreadMsg s)
         = Raise ex.
Proof.
  intros Hends.
  destruct (run_teardown _ _ _ _ _ _ Hends)
    as (before & Htrace & Hquiet & (Hmode & Hcont & Hexc & _) & Hout).
  exists before. repeat match goal with |- _ /\ _ => split end; auto.
  intros ex Hex. rewrite Hout. unfold ended. now rewrite Hex.
Qed.

(** ** The runs whose teardown returns

    From here on the flush of the session file and the cleanup function
    of the caller return when they are called: the teardown then ends
    normally, and a run ends as its guarded region and its handlers
    did.  The statements that do not need it are proved without. *)

Section Returning.

Hypothesis flush_returns : flush env = None.
Hypothesis cleanup_returns : cleanup env = None.

Lemma teardown_returns (cleanupFunction : bool) (s : State) :
  teardown_failure cleanupFunction s = None
  /\ flush_failure s = None
  /\ teardown_events cleanupFunction s = teardown_trace cleanupFunction s.
Proof.
  unfold teardown_failure, teardown_events, teardown_trace, flush_failure.
  rewrite flush_returns, cleanup_returns.
  destruct (hashDB (conf s)), cleanupFunction; auto.
Qed.

(** The [finally] suite then ends normally, with the release calls, the
    flush and the cleanup in that order. *)
Lemma teardown_run (cleanupFunction : bool) (s : State) :
  exists s',
    teardown cleanupFunction s = (Normal tt, s', teardown_trace cleanupFunction s)
    /\ finalized s'
    /\ multipleCtrlC (kb s') = multipleCtrlC (kb s)
    /\ lastCtrlCTime (kb s') = lastCtrlCTime (kb s)
    /\ conf s' = conf s.
Proof.
  destruct (teardown_shape cleanupFunction s) as (s' & Htear & Hrest).
  destruct (teardown_returns cleanupFunction s) as (Hnone & _ & Hevents).
  unfold ended in Htear. rewrite Hnone, Hevents in Htear.
  exists s'. split; [exact Htear|exact Hrest].
Qed.

(** A run whose guarded region and handlers end in [c1] goes through the
    teardown, once, and ends as they did. *)
Lemma runThreads_run (n : Z) (cleanupFunction forwardException threadChoice startThreadMsg : bool)
    (s : State) (c1 : completion unit) (s1 : State) (t1 : list event) :
  try_except (guarded threadChoice startThreadMsg) (handlers forwardException)
    (entered n s) = (c1, s1, t1) ->
  c1 <> Diverge ->
  exists s2,
    runThreads n cleanupFunction forwardException threadChoice startThreadMsg s
    = (returned c1, s2, t1 ++ teardown_trace cleanupFunction s1)
    /\ finalized s2
    /\ multipleCtrlC (kb s2) = multipleCtrlC (kb s1)
    /\ lastCtrlCTime (kb s2) = lastCtrlCTime (kb s1)
    /\ conf s2 = conf s1.
Proof.
  intros Hregion Hc1.
  destruct (teardown_run cleanupFunction s1) as (s2 & Htear & Hfin & Hm & Hl & Hc).
  exists s2. split; [|auto].
  unfold runThreads, call. rewrite entered_run. unfold try_finally.
  rewrite Hregion, Htear. destruct c1; try reflexivity. now elim Hc1.
Qed.




(** ** The waits *)

Lemma alive_count (threads : list nat) (k : nat) :
  (0 <? List.length (filter (fun n => (k <? lifetime env n)%nat) threads))%nat
  = (k <? horizon threads)%nat.
Proof.
  unfold horizon. induction threads as [|th l IH]; [reflexivity|].
  cbn [filter map fold_right].
  destruct (k <? lifetime env th)%nat eqn:Hth.
  - apply Nat.ltb_lt in Hth. cbn [List.length].
    symmetry. apply Nat.ltb_lt. lia.
  - rewrite IH. apply Nat.ltb_ge in Hth.
    destruct (k <? fold_right Nat.max 0%nat (map (lifetime env) l))%nat eqn:Hl;
      symmetry; [apply Nat.ltb_lt in Hl; apply Nat.ltb_lt | apply Nat.ltb_ge in Hl; apply Nat.ltb_ge];
      lia.
Qed.

Lemma alive_horizon (threads : list nat) (k : nat) :
  (1 <? 1 + Z.of_nat (List.length (filter (fun n => (k <? lifetime env n)%nat) threads)))
  = (k <? horizon threads)%nat.
Proof.
  rewrite <- alive_count.
  destruct (List.length _) as [|n]; [reflexivity|].
  apply Z.ltb_lt. lia.
Qed.

Lemma at_step_same (s : State) : at_step (steps s) s = s.
Proof. destruct s; reflexivity. Qed.

(** The busy wait of the handler ends: with the first Ctrl+C that arrives
    while a worker is alive, or else when the last worker has stopped. *)
Lemma busy_wait_run (fuel : nat) (s : State) :
  (horizon (started s) - steps s < fuel)%nat ->
  busy_wait fuel s
  = match first_interrupt (steps s) (horizon (started s) - steps s) with
    | Some k => (Raise (Exn KeyboardInterrupt EmptyString), at_step (S k) s, [])
    | None => (Normal tt, at_step (Nat.max (steps s) (horizon (started s))) s, [])
    end.
Proof.
  revert s. induction fuel as [|fuel IH]; intros s Hfuel; [lia|].
  simpl. unfold bind at 1. unfold active_count, bind, get, ret.
  rewrite alive_horizon.
  destruct (steps s <? horizon (started s))%nat eqn:Halive.
  - apply Nat.ltb_lt in Halive.
    destruct (horizon (started s) - steps s)%nat as [|left] eqn:Hleft; [lia|].
    simpl. unfold tick, modify. simpl.
    destruct (interrupt env (steps s)) eqn:Hint; simpl.
    + reflexivity.
    + rewrite IH by (simpl; lia). cbn [steps started].
      replace (horizon (started s) - S (steps s))%nat with left by lia.
      destruct (first_interrupt (S (steps s)) left); [reflexivity|].
      replace (Nat.max (S (steps s)) (horizon (started s)))
        with (Nat.max (steps s) (horizon (started s))) by lia.
      reflexivity.
  - apply Nat.ltb_ge in Halive.
    replace (horizon (started s) - steps s)%nat with 0%nat by lia. simpl.
    rewrite Nat.max_l by lia. now rewrite at_step_same.
Qed.

Lemma pressed_again_run (s : State) :
  pressed_again s = (Normal (in_window s), s, []).
Proof.
  unfold pressed_again, in_window, time_time, bind, get, ret.
  destruct (lastCtrlCTime (kb s)) as [last|]; [|reflexivity].
  destruct (truthy (Some last)); reflexivity.
Qed.

Lemma wait_for_threads_run (s : State) :
  wait_for_threads s
  = match first_interrupt (steps s) (horizon (started s) - steps s) with
    | Some k =>
        (Raise (Exn SqlmapThreadException multipleCtrlC_message),
         MkState (set_multipleCtrlC true (kb s)) (conf s) (numThreads s) (started s) (S k),
         [])
    | None => (Normal tt, at_step (Nat.max (steps s) (horizon (started s))) s, [])
    end.
Proof.
  unfold wait_for_threads, bind at 1, get, try_except.
  rewrite busy_wait_run by lia.
  destruct (first_interrupt _ _); reflexivity.
Qed.

(** The handler of a cancellation: how it ends, and what it leaves in
    [kb.multipleCtrlC] and [kb.lastCtrlCTime]. *)
Lemma on_interrupt_run (forwardException : bool) (ex : exn) (s : State) :
  outcome (on_interrupt forwardException ex s)
  = match escalation s with
    | Some e => Raise e
    | None => if forwardException then Raise ex else Normal tt
    end
  /\ multipleCtrlC (kb (final (on_interrupt forwardException ex s)))
     = match escalation s with
       | Some _ => true
       | None => multipleCtrlC (kb s)
       end
  /\ lastCtrlCTime (kb (final (on_interrupt forwardException ex s)))
     = if in_window s then lastCtrlCTime (kb s) else Some (clock env (steps s)).
Proof.
  unfold on_interrupt, escalation, second_signal, in_window,
    pressed_again, time_time, bind, emit, set_kb, modify, get, ret,
    when, raise, skip, outcome, final, truthy.
  repeat
    (cbn -[wait_for_threads first_interrupt horizon Qle_bool Qminus Qeq_bool Nat.sub];
     match goal with
     | |- context [match lastCtrlCTime (kb s) with _ => _ end] =>
         destruct (lastCtrlCTime (kb s)) eqn:?
     | |- context [wait_for_threads ?x] => rewrite wait_for_threads_run
     | |- context [match first_interrupt ?a ?b with _ => _ end] =>
         destruct (first_interrupt a b) eqn:?
     | |- context [if ?b then _ else _] => destruct b eqn:?
     end);
    try congruence; cbn; auto.
Qed.



(** How a run ends, from how its outer [try] with its handlers ended. *)
Lemma runThreads_region (n : Z)
    (cleanupFunction forwardException threadChoice startThreadMsg : bool) (s : State) :
  let region :=
    try_except (guarded threadChoice startThreadMsg) (handlers forwardException)
      (entered n s) in
  let run := runThreads n cleanupFunction forwardException threadChoice startThreadMsg s in
  outcome run = returned (outcome region)
  /\ multipleCtrlC (kb (final run)) = multipleCtrlC (kb (final region))
  /\ lastCtrlCTime (kb (final run)) = lastCtrlCTime (kb (final region)).
Proof.
  intros region run. subst run.
  destruct region as [[c1 s1] t1] eqn:Hregion. subst region.
  destruct c1;
    try (destruct (runThreads_run n cleanupFunction _ _ _ _ _ _ _ Hregion)
           as (s2 & -> & _ & Hm & Hl & _); [discriminate | auto]).
  rewrite (runThreads_diverge _ cleanupFunction _ _ _ _ _ _ Hregion). auto.
Qed.

(** A cancellation raised in the guarded region goes to its handler. *)
Lemma region_cancelled (forwardException threadChoice startThreadMsg : bool)
    (s : State) (ex : exn) (s1 : State) (t1 : list event) :
  guarded threadChoice startThreadMsg s = (Raise ex, s1, t1) ->
  cancels ex = true ->
  let handled := on_interrupt forwardException ex s1 in
  try_except (guarded threadChoice startThreadMsg) (handlers forwardException) s
  = (outcome handled, final handled, t1 ++ trace handled).
Proof.
  intros Hraise Hex. unfold try_except, handlers. rewrite Hraise.
  unfold cancels in Hex. rewrite Hex.
  destruct (on_interrupt forwardException ex s1) as [[c2 s2] t2]. reflexivity.
Qed.

(** In the guarded region of a run no repeated Ctrl+C is flagged. *)
Lemma guarded_unflagged (n : Z) (threadChoice startThreadMsg : bool) (s : State) :
  multipleCtrlC (kb (final (guarded threadChoice startThreadMsg (entered n s)))) = false
  /\ lastCtrlCTime (kb (final (guarded threadChoice startThreadMsg (entered n s))))
     = lastCtrlCTime (kb s).
Proof.
  destruct (guarded threadChoice startThreadMsg (entered n s)) as [[c1 s1] t1] eqn:Hg.
  destruct (quiet_guarded _ _ _ _ _ _ Hg) as [(_ & Hm & Hl) _].
  unfold final. simpl. rewrite Hm, Hl. split; reflexivity.
Qed.



(** ** The thread function and its adapter *)

Lemma _threadFunction_run (s : State) :
  _threadFunction s
  = (match threadFunction env with None => Normal tt | Some ex => Raise ex end,
     s,
     EvCall (currentThread env) :: (if hashDB (conf s) then [EvClose] else [])).
Proof.
  unfold _threadFunction, try_finally, call_threadFunction, bind, emit, get, when.
  destruct (threadFunction env) as [ex|]; cbn;
    destruct (hashDB (conf s)); reflexivity.
Qed.

(** The adapter on an [Exception] that it reports: the error is logged,
    and the adapter returns, unless the test of [conf.get("verbose")]
    fails. *)
Lemma adapter_reports (threadFunction : M unit) (silent : bool)
    (s : State) (ex : exn) (s1 : State) (t1 : list event) :
  threadFunction s = (Raise ex, s1, t1) ->
  isinstance_Exception ex = true ->
  reports silent (kb s1) ex = true ->
  In (EvLog ERROR (MsgThread (currentThread env) (errMsg ex)))
     (trace (exceptionHandledFunction threadFunction silent s))
  /\ (outcome (exceptionHandledFunction threadFunction silent s) = Normal tt
      \/ exists msg,
           outcome (exceptionHandledFunction threadFunction silent s)
           = Raise (Exn TypeError msg)).
Proof.
  intros Hraise Hex Hrep.
  unfold exceptionHandledFunction, try_except. rewrite Hraise.
  assert (Hki : isinstance ex KeyboardInterrupt = false)
    by (destruct ex as [[] ?]; auto; discriminate Hex).
  rewrite Hki, Hex. unfold bind, get. cbn [fst snd]. rewrite Hrep.
  unfold emit, gt_1.
  destruct (conf_get (conf s1) "verbose") as [v|]; [|destruct (PY3 env)]; cbn.
  - destruct (_ && _); cbn; split; auto using in_or_app, in_eq.
  - split; [auto using in_or_app, in_eq | right; eexists; reflexivity].
  - split; auto using in_or_app, in_eq.
Qed.

(** The adapter on an [Exception] that it does not report. *)
Lemma adapter_silent (threadFunction : M unit) (silent : bool)
    (s : State) (ex : exn) (s1 : State) (t1 : list event) :
  threadFunction s = (Raise ex, s1, t1) ->
  isinstance_Exception ex = true ->
  reports silent (kb s1) ex = false ->
  exceptionHandledFunction threadFunction silent s = (Normal tt, s1, t1).
Proof.
  intros Hraise Hex Hrep.
  unfold exceptionHandledFunction, try_except. rewrite Hraise.
  assert (Hki : isinstance ex KeyboardInterrupt = false)
    by (destruct ex as [[] ?]; auto; discriminate Hex).
  rewrite Hki, Hex. unfold bind, get. cbn [fst snd]. rewrite Hrep.
  cbn. now rewrite app_nil_r.
Qed.

(** ** Termination *)

Lemma ends_bind {A B} (m : M A) (k : A -> M B) :
  ends m -> (forall a, ends (k a)) -> ends (bind m k).
Proof.
  intros Hm Hk s. specialize (Hm s). unfold bind, outcome in *.
  destruct (m s) as [[c1 s1] t1]. cbn [fst] in *.
  destruct c1; try (cbn; congruence).
  specialize (Hk a s1). destruct (k a s1) as [[c2 s2] t2]. exact Hk.
Qed.

Lemma bind_ends_at {A B} (m : M A) (k : A -> M B) (s : State) :
  outcome (m s) <> Diverge -> (forall a, ends (k a)) ->
  outcome (bind m k s) <> Diverge.
Proof.
  intros Hm Hk. unfold bind, outcome in *.
  destruct (m s) as [[c1 s1] t1]. cbn [fst] in *.
  destruct c1; try (cbn; congruence).
  specialize (Hk a s1). destruct (k a s1) as [[c2 s2] t2]. exact Hk.
Qed.

Lemma ends_try_except {A} (body : M A) (handlers : exn -> option (M A)) :
  ends body -> (forall ex h, handlers ex = Some h -> ends h) ->
  ends (try_except body handlers).
Proof.
  intros Hb Hh s. specialize (Hb s). unfold try_except, outcome in *.
  destruct (body s) as [[c1 s1] t1]. cbn [fst] in *.
  destruct c1; try (cbn; congruence).
  destruct (handlers ex) as [h|] eqn:Eh; [|cbn; congruence].
  specialize (Hh _ _ Eh s1). destruct (h s1) as [[c2 s2] t2]. exact Hh.
Qed.

Lemma ends_try_finally {A} (body : M A) (final : M unit) :
  ends body -> ends final -> ends (try_finally body final).
Proof.
  intros Hb Hf s. specialize (Hb s). unfold ends, try_finally, outcome in *.
  destruct (body s) as [[c1 s1] t1]. cbn [fst] in *.
  specialize (Hf s1). destruct (final s1) as [[c2 s2] t2]. cbn [fst] in *.
  destruct c1; destruct c2; cbn; congruence.
Qed.

Lemma ends_for_each {A} (l : list A) (body : A -> M unit) :
  (forall x, ends (body x)) -> ends (for_each l body).
Proof.
  intros Hb. induction l as [|x l IH]; intros s; [discriminate|].
  cbn [for_each]. specialize (Hb x s). unfold outcome in *.
  destruct (body x s) as [[c1 s1] t1]. cbn [fst] in *.
  destruct c1; try (cbn; congruence).
  specialize (IH s1). destruct (for_each l body s1) as [[c2 s2] t2]. exact IH.
Qed.

(** The structural step of a proof that a statement [ends]. *)
Ltac ends_step :=
  match goal with
  | |- ends (bind _ _) => apply ends_bind; [|intros ?]
  | |- ends (try_except _ _) => apply ends_try_except; [|quiet_clause]
  | |- ends (try_finally _ _) => apply ends_try_finally
  | |- ends (for_each _ _) => apply ends_for_each; intros ?
  | |- ends (when ?b _) => destruct b; cbn [when]
  | |- ends (if ?b then _ else _) => destruct b
  | |- ends (match ?x with _ => _ end) => destruct x
  | |- ends _ => intros ?; discriminate
  end.

Ltac ends_auto :=
  repeat first
    [ ends_step
    | progress unfold tick, set_started, set_threads, set_numThreads, set_kb,
        setDaemon, thread_start, gt_1 ].

Lemma time_sleep_run (s : State) :
  time_sleep s
  = if interrupt env (steps s)
    then (Raise (Exn KeyboardInterrupt EmptyString), at_step (S (steps s)) s, [])
    else (Normal tt, at_step (S (steps s)) s, [EvSleep]).
Proof.
  unfold time_sleep, bind, get, tick, modify, raise, emit. cbn.
  destruct (interrupt env (steps s)); reflexivity.
Qed.

Lemma poll_cons (th : nat) (l : list nat) (alive : bool) (s : State) :
  poll (th :: l) alive s
  = if (steps s <? lifetime env th)%nat
    then if interrupt env (steps s)
         then (Raise (Exn KeyboardInterrupt EmptyString), at_step (S (steps s)) s, [])
         else (outcome (poll l true (at_step (S (steps s)) s)),
               final (poll l true (at_step (S (steps s)) s)),
               EvSleep :: trace (poll l true (at_step (S (steps s)) s)))
    else poll l alive s.
Proof.
  cbn [poll]. unfold bind at 1, is_alive, bind at 1, get, ret. cbn [fst snd].
  destruct (steps s <? lifetime env th)%nat.
  - unfold bind. rewrite time_sleep_run.
    destruct (interrupt env (steps s)); [reflexivity|].
    destruct (poll l true _) as [[c2 s2] t2]. reflexivity.
  - destruct (poll l alive s) as [[c2 s2] t2]. reflexivity.
Qed.

(** One pass over the threads: it sleeps, if at all, at steps at which a
    thread of the list is alive. *)
Lemma poll_run (threads : list nat) (alive : bool) (s : State) :
  outcome (poll threads alive s) <> Diverge
  /\ (forall b, outcome (poll threads alive s) = Normal b ->
      (b = alive /\ steps (final (poll threads alive s)) = steps s)
      \/ (b = true
          /\ (steps s < steps (final (poll threads alive s)) <= horizon threads)%nat)).
Proof.
  revert alive s. induction threads as [|th l IH]; intros alive s.
  - cbn. split; [discriminate|]. intros b [= ->]. now left.
  - rewrite poll_cons. unfold horizon in *. cbn [map fold_right].
    destruct (steps s <? lifetime env th)%nat eqn:Hth.
    + apply Nat.ltb_lt in Hth.
      destruct (interrupt env (steps s)); [split; discriminate|].
      specialize (IH true (at_step (S (steps s)) s)).
      destruct (poll l true _) as [[c2 s2] t2].
      unfold outcome, final in *. cbn [fst snd steps at_step] in *.
      destruct IH as [IH1 IH2]. split; [exact IH1|].
      intros b Hc. right. destruct (IH2 b Hc) as [[-> Hs]|[-> Hs]]; split; auto; lia.
    + apply Nat.ltb_ge in Hth.
      specialize (IH alive s). destruct (poll l alive s) as [[c2 s2] t2].
      unfold outcome, final in *. cbn [fst snd] in *.
      destruct IH as [IH1 IH2]. split; [exact IH1|].
      intros b Hc. destruct (IH2 b Hc) as [[-> Hs]|[-> Hs]]; [left|right]; split; auto; lia.
Qed.

(** The wait for the workers is over once the last of them has stopped, or
    with the Ctrl+C that interrupts it. *)
Lemma wait_ends (fuel : nat) (threads : list nat) (s : State) :
  (0 < fuel)%nat ->
  (horizon threads < fuel + steps s)%nat ->
  outcome (wait fuel threads s) <> Diverge.
Proof.
  revert s. induction fuel as [|fuel IH]; intros s Hpos Hfuel; [lia|].
  cbn [wait]. unfold bind.
  destruct (poll_run threads false s) as [Hpoll Hsteps].
  destruct (poll threads false s) as [[c1 s1] t1].
  unfold outcome, final in *. cbn [fst snd] in *.
  destruct c1 as [alive| | | |]; try (cbn; congruence).
  destruct alive; [|discriminate].
  destruct (Hsteps true eq_refl) as [[Hb _]|[_ Hs]]; [discriminate|].
  specialize (IH s1). destruct (wait fuel threads s1) as [[c2 s2] t2].
  cbn [fst] in *. apply IH; lia.
Qed.

Lemma ends_choose_threads_skip (threadChoice : bool) (s : State) :
  asks threadChoice s = false -> outcome (choose_threads threadChoice s) <> Diverge.
Proof.
  intros Hasks. unfold choose_threads, bind, get. cbn. rewrite Hasks. discriminate.
Qed.

Lemma ends__threadFunction : ends _threadFunction.
Proof. intros s. rewrite _threadFunction_run. destruct (threadFunction env); discriminate. Qed.

Lemma ends_start_threads : ends start_threads.
Proof. unfold start_threads. ends_auto. Qed.

(** The guarded region is over as soon as the choice of the number of
    threads is. *)
Lemma guarded_ends (threadChoice startThreadMsg : bool) (s : State) :
  outcome (choose_threads threadChoice s) <> Diverge ->
  outcome (guarded threadChoice startThreadMsg s) <> Diverge.
Proof.
  intros Hchoose. unfold guarded. apply bind_ends_at; [exact Hchoose|].
  intros _. ends_auto; auto using ends__threadFunction, ends_start_threads.
  intros s3. apply wait_ends; lia.
Qed.

(** C3, as the code has it.  For a cancellation that reaches the handler
    of a run: when [kb.lastCtrlCTime] holds the time of an earlier
    cancellation (the entry of a run does not clear it) and the clock is
    less than 1 past it, the run flags a repeated Ctrl+C and raises
    [SqlmapUserQuitException]; otherwise the time of this cancellation is
    recorded, and a further Ctrl+C that arrives while the handler waits
    for the workers still alive makes the run flag a repeated Ctrl+C and
    raise [SqlmapThreadException], whatever the time between the two;
    with no such Ctrl+C the cancellation is a first one: no flag, and the
    exception goes to the caller or not as [forwardException] says.
    The flush of the session file and the cleanup function return in
    these runs. *)
Theorem cancellation_escalation (n : Z)
    (cleanupFunction forwardException threadChoice startThreadMsg : bool)
    (s : State) (ex : exn) (s1 : State) (t1 : list event) :
  guarded threadChoice startThreadMsg (entered n s) = (Raise ex, s1, t1) ->
  cancels ex = true ->
  let run := runThreads n cleanupFunction forwardException threadChoice startThreadMsg s in
  (in_window s1 = true ->
   outcome run = Raise (Exn SqlmapUserQuitException multipleCtrlC_message)
   /\ multipleCtrlC (kb (final run)) = true
   /\ lastCtrlCTime (kb (final run)) = lastCtrlCTime (kb s))
  /\ (in_window s1 = false ->
      lastCtrlCTime (kb (final run)) = Some (clock env (steps s1))
      /\ match second_signal s1 with
         | Some _ =>
             outcome run = Raise (Exn SqlmapThreadException multipleCtrlC_message)
             /\ multipleCtrlC (kb (final run)) = true
         | None =>
             outcome run = (if forwardException then Raise ex else Normal tt)
             /\ multipleCtrlC (kb (final run)) = false
         end).
Proof.
  intros Hraise Hex run. subst run.
  destruct (runThreads_region n cleanupFunction forwardException threadChoice
              startThreadMsg s) as (-> & -> & ->).
  pose proof (region_cancelled forwardException _ _ _ _ _ _ Hraise Hex) as Hregion.
  cbv zeta in Hregion. rewrite Hregion. clear Hregion.
  pose proof (on_interrupt_run forwardException ex s1) as (Hout & Hflag & Hlast).
  pose proof (guarded_unflagged n threadChoice startThreadMsg s) as [Hunflagged Hkept].
  rewrite Hraise in Hunflagged, Hkept.
  unfold outcome, final in *. cbn [fst snd] in *.
  rewrite Hout, Hflag, Hlast. unfold escalation. split; intros ->.
  - simpl. auto.
  - split; [reflexivity|].
    destruct (second_signal s1); simpl; [auto|].
    split; [destruct forwardException; reflexivity | exact Hunflagged].
Qed.

(** ** The failure of the persistence layer *)

(** C5, as the code has it.  An instance of [sqlite3.Error] raised in the
    supervisor's own thread inside the guarded region reaches the generic
    handler with [kb.multipleCtrlC] false: the run raises it again to the
    caller once the teardown is over, and the handler logs nothing.  The
    handler itself raises it again only while [kb.multipleCtrlC] is false;
    in a state where that flag is set it drops the exception, raised
    neither again nor logged.  The same exception raised by the thread
    function inside a worker does not leave [exceptionHandledFunction]: it
    becomes an error of the log while the run is continuing and no
    repeated Ctrl+C is flagged.
    The flush of the session file and the cleanup function return in
    these runs. *)
Theorem sqlite3_Error_reraised (n : Z)
    (cleanupFunction forwardException threadChoice startThreadMsg : bool)
    (s : State) (ex : exn) :
  isinstance ex sqlite3_Error = true ->
  (forall s1 t1,
     guarded threadChoice startThreadMsg (entered n s) = (Raise ex, s1, t1) ->
     outcome (runThreads n cleanupFunction forwardException threadChoice startThreadMsg s)
     = Raise ex
     /\ trace (runThreads n cleanupFunction forwardException threadChoice startThreadMsg s)
        = t1 ++ [EvPrint] ++ teardown_trace cleanupFunction s)
  /\ on_exception ex s
     = (if multipleCtrlC (kb s) then Normal tt else Raise ex, s, [EvPrint])
  /\ (threadFunction env = Some ex ->
      threadContinue (kb s) = true ->
      multipleCtrlC (kb s) = false ->
      outcome (worker s) <> Raise ex
      /\ In (EvLog ERROR (MsgThread (currentThread env) (errMsg ex))) (trace (worker s))).
Proof.
  intros Hex. split; [|split].
  2: { unfold on_exception, bind, emit, get. cbn [fst snd].
       destruct (multipleCtrlC (kb s)); cbn; [reflexivity|].
       rewrite Hex. reflexivity. }
  - intros s1 t1 Hraise.
    pose proof (guarded_unflagged n threadChoice startThreadMsg s) as [Hunflagged _].
    rewrite Hraise in Hunflagged. unfold final in Hunflagged. simpl in Hunflagged.
    assert (Hregion :
      try_except (guarded threadChoice startThreadMsg) (handlers forwardException)
        (entered n s) = (Raise ex, s1, t1 ++ [EvPrint])).
    { unfold try_except, handlers. rewrite Hraise.
      destruct ex as [[] msg]; try discriminate Hex. simpl.
      unfold on_exception, bind, emit, get. simpl. rewrite Hunflagged. reflexivity. }
    destruct (runThreads_run n cleanupFunction _ _ _ _ _ _ _ Hregion)
      as (s2 & Hrun & _); [discriminate|].
    destruct (quiet_region _ _ _ _ _ _ _ Hregion) as [[Hlocks HhashDB] _].
    rewrite Hrun. unfold outcome, trace, teardown_trace. simpl. split; [reflexivity|].
    rewrite Hlocks, HhashDB, <- app_assoc. reflexivity.
  - intros Hwork Hcont Hflag.
    assert (Hraise : _threadFunction s
                     = (Raise ex, s,
                        EvCall (currentThread env)
                        :: (if hashDB (conf s) then [EvClose] else [])))
      by (rewrite _threadFunction_run, Hwork; reflexivity).
    assert (Hexc : isinstance_Exception ex = true)
      by (destruct ex as [[] ?]; auto; discriminate Hex).
    assert (Hrep : reports false (kb s) ex = true).
    { unfold reports. rewrite Hcont, Hflag.
      destruct ex as [[] ?]; auto; discriminate Hex. }
    destruct (adapter_reports _ _ _ _ _ _ Hraise Hexc Hrep) as [Hlog Hout].
    split; [|exact Hlog]. unfold worker.
    destruct Hout as [-> | [msg ->]]; [discriminate|].
    destruct ex as [[] ?]; try discriminate Hex. discriminate.
Qed.

(** ** The run with one thread *)

(** Once the number of threads in force is at most 1, the guarded region
    calls the thread function in the calling thread, closes the handle of
    the session file when there is one, and returns, whatever the call
    did. *)
Lemma guarded_single (threadChoice startThreadMsg : bool)
    (s s1 : State) (t1 : list event) :
  choose_threads threadChoice s = (Normal tt, s1, t1) ->
  numThreads s1 <= 1 ->
  guarded threadChoice startThreadMsg s
  = (Return, s1,
     t1 ++ EvCall (currentThread env) :: (if hashDB (conf s1) then [EvClose] else [])).
Proof.
  intros Hchoose Hone. unfold guarded. unfold bind at 1. rewrite Hchoose.
  unfold bind at 1. unfold get at 1.
  assert (Hbranch : (1 <? numThreads s1) = false) by (apply Z.ltb_ge; exact Hone).
  rewrite Hbranch. unfold bind at 1.
  unfold try_finally, try_except. rewrite _threadFunction_run.
  destruct (threadFunction env) as [ex|]; cbn;
    try destruct (isinstance ex SqlmapUserQuitException || isinstance ex SqlmapSkipTargetException);
    cbn; rewrite ?app_nil_r; reflexivity.
Qed.

(** The run of the guarded region with at most one thread in force,
    whatever the flush and the cleanup do. *)
Lemma run_single (n : Z)
    (cleanupFunction forwardException threadChoice startThreadMsg : bool)
    (s s1 : State) (t1 : list event) :
  choose_threads threadChoice (entered n s) = (Normal tt, s1, t1) ->
  numThreads s1 <= 1 ->
  outcome (runThreads n cleanupFunction forwardException threadChoice startThreadMsg s)
  = ended cleanupFunction s (Normal tt)
  /\ trace (runThreads n cleanupFunction forwardException threadChoice startThreadMsg s)
     = t1 ++ EvCall (currentThread env) :: (if hashDB (conf s) then [EvClose] else [])
       ++ teardown_events cleanupFunction s
  /\ finalized
       (final (runThreads n cleanupFunction forwardException threadChoice startThreadMsg s)).
Proof.
  clear flush_returns cleanup_returns.
  intros Hchoose Hone.
  pose proof (guarded_single _ startThreadMsg _ _ _ Hchoose Hone) as Hguarded.
  assert (Hregion :
    try_except (guarded threadChoice startThreadMsg) (handlers forwardException)
      (entered n s)
    = (Return, s1,
       t1 ++ EvCall (currentThread env) :: (if hashDB (conf s1) then [EvClose] else []))).
  { unfold try_except. now rewrite Hguarded. }
  destruct (run_shape n cleanupFunction _ _ _ _ _ _ _ Hregion)
    as (s2 & Hrun & Hfin & _); [discriminate|].
  destruct (quiet_region _ _ _ _ _ _ _ Hregion) as [Hsame _].
  change (same_resources s s1) in Hsame.
  destruct (teardown_same cleanupFunction _ _ Hsame) as (Hevents & Hfailure & _).
  destruct Hsame as [_ HhashDB].
  rewrite Hrun. unfold outcome, trace, final, ended. cbn [fst snd returned].
  rewrite Hevents, Hfailure, HhashDB. repeat split; try apply Hfin.
  rewrite <- app_assoc. reflexivity.
Qed.

(** The same when the flush and the cleanup return. *)
Lemma runThreads_single (n : Z)
    (cleanupFunction forwardException threadChoice startThreadMsg : bool)
    (s s1 : State) (t1 : list event) :
  choose_threads threadChoice (entered n s) = (Normal tt, s1, t1) ->
  numThreads s1 <= 1 ->
  outcome (runThreads n cleanupFunction forwardException threadChoice startThreadMsg s)
  = Normal tt
  /\ trace (runThreads n cleanupFunction forwardException threadChoice startThreadMsg s)
     = t1 ++ EvCall (currentThread env) :: (if hashDB (conf s) then [EvClose] else [])
       ++ teardown_trace cleanupFunction s
  /\ finalized
       (final (runThreads n cleanupFunction forwardException threadChoice startThreadMsg s)).
Proof.
  intros Hchoose Hone.
  destruct (run_single n cleanupFunction forwardException _ startThreadMsg
              _ _ _ Hchoose Hone) as (Hout & Htrace & Hfin).
  destruct (teardown_returns cleanupFunction s) as (Hnone & _ & Hevents).
  unfold ended in Hout. rewrite Hnone in Hout. rewrite Hevents in Htrace.
  auto.
Qed.

Lemma prompt_events (a : answer) (s : State) :
  Forall (fun e => prompt_event e = true) (trace (prompt a s)).
Proof.
  unfold prompt, bind, get, emit, trace, set_threads, modify, break, skip, ret, raise.
  destruct a as [choice|ex]; [destruct choice|];
    cbn -[isDigit endswith_bang drop_last int];
    repeat match goal with
           | |- context [if ?b then _ else _] =>
               destruct b; cbn -[isDigit endswith_bang drop_last int]
           end;
    repeat (constructor; try reflexivity).
Qed.

Lemma while_True_prompt_events (answers : list answer) (s : State) :
  Forall (fun e => prompt_event e = true) (trace (while_True answers prompt s)).
Proof.
  revert s. induction answers as [|a l IH]; intros s; [constructor|].
  cbn [while_True]. pose proof (prompt_events a s) as Ha.
  destruct (prompt a s) as [[c1 s1] t1]. unfold trace in Ha. cbn [snd] in Ha.
  destruct c1; try exact Ha.
  specialize (IH s1). destruct (while_True l prompt s1) as [[c2 s2] t2].
  unfold trace in *. cbn [snd] in *. apply Forall_app; auto.
Qed.

Lemma trace_bind_Forall (P : event -> Prop) {A B} (m : M A) (k : A -> M B) (s : State) :
  Forall P (trace (m s)) ->
  (forall a s', Forall P (trace (k a s'))) ->
  Forall P (trace (bind m k s)).
Proof.
  intros Hm Hk. unfold bind. destruct (m s) as [[c1 s1] t1].
  unfold trace in *. cbn [snd] in *. destruct c1; auto.
  specialize (Hk a s1). destruct (k a s1) as [[c2 s2] t2].
  cbn [snd] in *. apply Forall_app; auto.
Qed.

Lemma choose_threads_events (threadChoice : bool) (s : State) :
  Forall (fun e => prompt_event e = true) (trace (choose_threads threadChoice s)).
Proof.
  unfold choose_threads. apply trace_bind_Forall; [constructor|].
  intros s0 s'. destruct (asks threadChoice s0); [|constructor].
  cbn [when]. apply trace_bind_Forall; [apply while_True_prompt_events|].
  intros _ s''. apply trace_bind_Forall; [constructor|].
  intros s3 s4. destruct (numThreads s3 =? 1); cbn; repeat (constructor; try reflexivity).
Qed.

Lemma filter_none (p : event -> bool) (t : list event) :
  Forall (fun e => p e = false) t -> filter p t = [].
Proof.
  intros Ht. induction Ht as [|e t He Ht IH]; cbn; [reflexivity|].
  now rewrite He.
Qed.

Lemma teardown_trace_events (cleanupFunction : bool) (s : State) :
  Forall (fun e => teardown_event e = true) (teardown_trace cleanupFunction s).
Proof.
  unfold teardown_trace, released.
  apply Forall_app; split; [|apply Forall_app; split].
  - induction (locks (kb s)) as [|p l IH]; cbn; [constructor|].
    destruct (locked (snd p)); cbn; auto.
  - destruct (hashDB (conf s)); auto.
  - destruct cleanupFunction; auto.
Qed.

(** C2, as the code has it.  When at most one thread is in force after
    the choice of the number of threads (as in every call with
    [numThreads] 1 that does not prompt, or whose prompt keeps 1), no
    worker is started, the thread function is called exactly once, in the
    calling thread, and whatever it does ([SqlmapUserQuitException] and
    [SqlmapSkipTargetException] included) the run returns normally and
    logs no error: its log entries are those of the prompt.
    The flush of the session file and the cleanup function return in
    these runs. *)
Theorem single_thread_synchronous (n : Z)
    (cleanupFunction forwardException threadChoice startThreadMsg : bool)
    (s s1 : State) (t1 : list event) :
  choose_threads threadChoice (entered n s) = (Normal tt, s1, t1) ->
  numThreads s1 <= 1 ->
  let run := runThreads n cleanupFunction forwardException threadChoice startThreadMsg s in
  count is_start (trace run) = 0%nat
  /\ filter is_call (trace run) = [EvCall (currentThread env)]
  /\ outcome run = Normal tt
  /\ count is_error_log (trace run) = 0%nat
  /\ filter is_log (trace run) = filter is_log t1.
Proof.
  intros Hchoose Hone run. subst run.
  destruct (runThreads_single n cleanupFunction forwardException _ startThreadMsg
              _ _ _ Hchoose Hone) as (Hout & Htrace & _).
  rewrite Htrace, Hout. clear Htrace Hout.
  pose proof (choose_threads_events threadChoice (entered n s)) as Hprompt.
  rewrite Hchoose in Hprompt. unfold trace in Hprompt. cbn in Hprompt.
  pose proof (teardown_trace_events cleanupFunction s) as Htear.
  assert (Hfilter : forall p,
            (forall e, teardown_event e = true -> p e = false) ->
            p EvClose = false ->
            filter p (t1 ++ EvCall (currentThread env)
                      :: (if hashDB (conf s) then [EvClose] else [])
                         ++ teardown_trace cleanupFunction s)
            = filter p t1
              ++ if p (EvCall (currentThread env)) then [EvCall (currentThread env)] else []).
  { intros p Hp2 Hp3. rewrite filter_app. cbn. rewrite filter_app.
    rewrite (filter_none p (teardown_trace _ _)).
    - destruct (hashDB (conf s)); cbn; rewrite ?Hp3;
        destruct (p (EvCall (currentThread env))); reflexivity.
    - eapply Forall_impl; [|exact Htear]. auto. }
  assert (Hnone : forall p,
            (forall e, prompt_event e = true -> p e = false) -> filter p t1 = []).
  { intros p Hp1. apply filter_none. eapply Forall_impl; [|exact Hprompt]. auto. }
  assert (Hstart : forall e, prompt_event e = true -> is_start e = false)
    by (intros [] He; try reflexivity; discriminate He).
  assert (Hcall : forall e, prompt_event e = true -> is_call e = false)
    by (intros [] He; try reflexivity; discriminate He).
  assert (Herror : forall e, prompt_event e = true -> is_error_log e = false)
    by (intros [ |[] m| | | | | | | | | | ] He; try reflexivity; discriminate He).
  unfold count. rewrite !Hfilter by (try reflexivity; now intros []).
  rewrite (Hnone _ Hstart), (Hnone _ Hcall), (Hnone _ Herror).
  cbn. rewrite app_nil_r. auto.
Qed.

(** C10, as the code has it.  When at most one thread is in force after
    the choice of the number of threads, nothing leaves the guarded
    region, whatever the thread function did (returned, or raised any
    exception: a cancellation and an error of the persistence layer
    included) and whatever [forwardException] says; the teardown runs
    before the call is over, and the run returns normally unless the
    flush of the session file or the cleanup function raises: the run
    then raises that exception. *)
Theorem single_thread_returns (n : Z)
    (cleanupFunction forwardException threadChoice startThreadMsg : bool)
    (s s1 : State) (t1 : list event) :
  choose_threads threadChoice (entered n s) = (Normal tt, s1, t1) ->
  numThreads s1 <= 1 ->
  outcome (runThreads n cleanupFunction forwardException threadChoice startThreadMsg s)
  = match teardown_failure cleanupFunction s with
    | None => Normal tt
    | Some ex => Raise ex
    end
  /\ (exists before,
        trace (runThreads n cleanupFunction forwardException threadChoice startThreadMsg s)
        = before ++ teardown_events cleanupFunction s
        /\ Forall (fun e => teardown_event e = false) before)
  /\ finalized
       (final (runThreads n cleanupFunction forwardException threadChoice startThreadMsg s)).
Proof.
  clear flush_returns cleanup_returns.
  intros Hchoose Hone.
  destruct (run_single n cleanupFunction forwardException _ startThreadMsg
              _ _ _ Hchoose Hone) as (Hout & _ & Hfin).
  assert (Hends :
    outcome (runThreads n cleanupFunction forwardException threadChoice startThreadMsg s)
    <> Diverge).
  { rewrite Hout. unfold ended.
    destruct (teardown_failure cleanupFunction s); discriminate. }
  destruct (run_teardown _ _ _ _ _ _ Hends) as (before & Htrace & Hquiet & _).
  split; [exact Hout|]. split; [|exact Hfin].
  exists before. split; [exact Htrace|exact Hquiet].
Qed.

(** ** The prompt *)

Lemma digit_not_bang (c : ascii) : is_digit c = true -> Ascii.eqb c "!" = false.
Proof.
  intros Hc. destruct (Ascii.eqb_spec c "!") as [->|]; [discriminate Hc | reflexivity].
Qed.

Lemma digits_no_bang (d : string) : all_digits d = true -> endswith_bang d = false.
Proof.
  induction d as [|c r IH]; simpl; auto.
  intros H. apply andb_prop in H. destruct H as [Hc Hr].
  destruct r; auto using digit_not_bang.
Qed.

Lemma endswith_bang_app (d : string) : endswith_bang (d ++ "!")%string = true.
Proof.
  induction d as [|c r IH]; simpl; auto.
  simpl in IH. destruct (r ++ "!")%string eqn:E; auto.
  destruct r; discriminate E.
Qed.

Lemma drop_last_app (d : string) : drop_last (d ++ "!")%string = d.
Proof.
  induction d as [|c r IH]; simpl; auto.
  simpl in IH. destruct (r ++ "!")%string eqn:E.
  - destruct r; discriminate E.
  - now rewrite IH.
Qed.

Lemma isDigit_digits (d : string) : isDigit d = true -> all_digits d = true.
Proof. destruct d; simpl; auto. Qed.

(** One turn of the prompt on digits above the limit, and on digits
    followed by the mark. *)
Lemma prompt_refuses (d : string) (s : State) :
  isDigit d = true ->
  MAX_NUMBER_OF_THREADS < int d ->
  prompt (Answer d) s
  = (Normal tt, s,
     [EvReadInput (numThreads s); EvLog CRITICAL (MsgMaxThreads MAX_NUMBER_OF_THREADS)]).
Proof.
  intros Hd Hmax. pose proof (isDigit_digits _ Hd) as Hall.
  unfold prompt, bind, get, emit. simpl.
  destruct d as [|c r]; [discriminate Hd|].
  rewrite (digits_no_bang _ Hall), Hd.
  apply Z.ltb_lt in Hmax. rewrite Hmax. reflexivity.
Qed.

Lemma prompt_accepts_marked (d : string) (s : State) :
  isDigit d = true ->
  prompt (Answer (d ++ "!")%string) s
  = (Break,
     MkState (kb s) (MkConf (int d) (hashDB (conf s)) (conf_get (conf s)))
       (int d) (started s) (steps s),
     [EvReadInput (numThreads s)]).
Proof.
  intros Hd. unfold prompt, bind, get, emit. simpl.
  destruct (d ++ "!")%string as [|c r] eqn:E; [destruct d; discriminate E|].
  rewrite <- E, endswith_bang_app, drop_last_app, Hd, andb_false_r.
  reflexivity.
Qed.

(** C9. In the loop of the prompt, a number above
    [MAX_NUMBER_OF_THREADS] typed without the mark is refused: the limit
    is logged, nothing changes and the prompt asks again.  The same digits
    followed by ['!'] are accepted whatever their value: the mark is
    dropped, the loop ends, and [numThreads] and [conf.threads] are the
    number the digits denote. *)
Theorem prompt_override (d : string) (rest : list answer) (s : State) :
  isDigit d = true ->
  (MAX_NUMBER_OF_THREADS < int d ->
   while_True (Answer d :: rest) prompt s
   = (outcome (while_True rest prompt s),
      final (while_True rest prompt s),
      EvReadInput (numThreads s)
      :: EvLog CRITICAL (MsgMaxThreads MAX_NUMBER_OF_THREADS)
      :: trace (while_True rest prompt s)))
  /\ outcome (while_True (Answer (d ++ "!")%string :: rest) prompt s) = Normal tt
  /\ numThreads (final (while_True (Answer (d ++ "!")%string :: rest) prompt s)) = int d
  /\ threads (conf (final (while_True (Answer (d ++ "!")%string :: rest) prompt s))) = int d
  /\ trace (while_True (Answer (d ++ "!")%string :: rest) prompt s)
     = [EvReadInput (numThreads s)].
Proof.
  intros Hd. split.
  - intros Hmax. cbn [while_True]. rewrite (prompt_refuses _ _ Hd Hmax).
    destruct (while_True rest prompt s) as [[c2 s2] t2]. reflexivity.
  - cbn [while_True]. rewrite (prompt_accepts_marked _ _ Hd).
    repeat split.
Qed.

(** ** The adapter of the workers *)

(** C4, as the code has it.  When the thread function raises an
    [Exception], the adapter logs an error if it is not silent, the run is
    continuing, no repeated Ctrl+C was flagged and the exception is
    neither [SqlmapUserQuitException] nor [SqlmapSkipTargetException]; in
    every other case the exception ends there with no log entry.  A
    [KeyboardInterrupt] is raised again, with [threadContinue] cleared and
    [threadException] set, and no log entry either. *)
Theorem exceptionHandledFunction_log (threadFunction : M unit) (silent : bool)
    (s : State) (ex : exn) (s1 : State) (t1 : list event) :
  threadFunction s = (Raise ex, s1, t1) ->
  (isinstance_Exception ex = true -> reports silent (kb s1) ex = true ->
   In (EvLog ERROR (MsgThread (currentThread env) (errMsg ex)))
      (trace (exceptionHandledFunction threadFunction silent s)))
  /\ (isinstance_Exception ex = true -> reports silent (kb s1) ex = false ->
      exceptionHandledFunction threadFunction silent s = (Normal tt, s1, t1))
  /\ (isinstance ex KeyboardInterrupt = true ->
      outcome (exceptionHandledFunction threadFunction silent s) = Raise ex
      /\ trace (exceptionHandledFunction threadFunction silent s) = t1
      /\ threadContinue (kb (final (exceptionHandledFunction threadFunction silent s))) = false
      /\ threadException (kb (final (exceptionHandledFunction threadFunction silent s))) = true).
Proof.
  intros Hraise. split; [|split].
  - intros Hex Hrep. now apply (adapter_reports _ _ _ _ _ _ Hraise Hex Hrep).
  - intros Hex Hrep. now apply adapter_silent with (ex := ex).
  - intros Hki. unfold exceptionHandledFunction, try_except.
    rewrite Hraise, Hki. unfold set_kb, bind, modify, raise, outcome, final, trace.
    cbn. now rewrite app_nil_r.
Qed.

(** ** Every run without a pending prompt ends *)

Lemma region_ends (forwardException threadChoice startThreadMsg : bool) (s : State) :
  outcome (guarded threadChoice startThreadMsg s) <> Diverge ->
  outcome (try_except (guarded threadChoice startThreadMsg) (handlers forwardException) s)
    <> Diverge.
Proof.
  intros Hg. unfold try_except, outcome in *.
  destruct (guarded threadChoice startThreadMsg s) as [[c1 s1] t1]. cbn [fst] in *.
  destruct c1; try (cbn; congruence).
  unfold handlers.
  destruct (isinstance ex KeyboardInterrupt || isinstance ex SqlmapUserQuitException).
  - pose proof (on_interrupt_run forwardException ex s1) as (Hout & _).
    destruct (on_interrupt forwardException ex s1) as [[c2 s2] t2].
    unfold outcome in Hout. cbn [fst] in *. rewrite Hout.
    destruct (escalation s1); [discriminate|]. destruct forwardException; discriminate.
  - assert (Hrest : forall k : M unit, ends k -> forall s t,
              fst (fst (let '(c, s2, t2) := k s in (c, s2, t ++ t2))) <> Diverge).
    { intros k Hk s0 t. specialize (Hk s0). unfold outcome in Hk.
      destruct (k s0) as [[c s2] t2]. exact Hk. }
    destruct (isinstance ex SqlmapConnectionException || isinstance ex SqlmapValueException);
      [|destruct (isinstance_Exception ex); [|discriminate]];
      apply Hrest; [unfold on_failure | unfold on_exception]; ends_auto.
Qed.

(** A run ends as soon as the choice of the number of threads does: the
    waits of the supervisor are bounded by the lives of the workers. *)
Lemma runThreads_terminates (n : Z)
    (cleanupFunction forwardException threadChoice startThreadMsg : bool) (s : State) :
  outcome (choose_threads threadChoice (entered n s)) <> Diverge ->
  outcome (runThreads n cleanupFunction forwardException threadChoice startThreadMsg s)
    <> Diverge.
Proof.
  intros Hchoose.
  destruct (runThreads_region n cleanupFunction forwardException threadChoice
              startThreadMsg s) as (-> & _).
  pose proof (region_ends forwardException _ startThreadMsg _
                (guarded_ends _ startThreadMsg _ Hchoose)) as Hregion.
  clear Hchoose. destruct (outcome (try_except _ _ _)); cbn; congruence.
Qed.

(** In particular a run that does not prompt ends. *)
Lemma runThreads_terminates_unprompted (n : Z)
    (cleanupFunction forwardException threadChoice startThreadMsg : bool) (s : State) :
  asks threadChoice (entered n s) = false ->
  outcome (runThreads n cleanupFunction forwardException threadChoice startThreadMsg s)
    <> Diverge.
Proof.
  intros Hasks. apply runThreads_terminates. now apply ends_choose_threads_skip.
Qed.

(** ** What the run leaves of the options and of the workers *)

Lemma same_options_refl (s : State) : same_options s s.
Proof. reflexivity. Qed.

Lemma same_options_trans (s1 s2 s3 : State) :
  same_options s1 s2 -> same_options s2 s3 -> same_options s1 s3.
Proof. unfold same_options; congruence. Qed.

Lemma same_workers_refl (s : State) : same_workers s s.
Proof. split; reflexivity. Qed.

Lemma same_workers_trans (s1 s2 s3 : State) :
  same_workers s1 s2 -> same_workers s2 s3 -> same_workers s1 s3.
Proof. intros [H1 H2] [H3 H4]; split; congruence. Qed.

#[local] Hint Resolve same_options_refl same_options_trans
  same_workers_refl same_workers_trans : frame.

Lemma options_time_sleep : quiet same_options time_sleep.
Proof. unfold time_sleep. quiet_auto. Qed.

Lemma options_poll (threads : list nat) (alive : bool) :
  quiet same_options (poll threads alive).
Proof.
  revert alive. induction threads as [|th l IH]; intros alive; simpl.
  - quiet_auto.
  - unfold is_alive. quiet_auto; auto using options_time_sleep.
Qed.

Lemma options_wait (fuel : nat) (threads : list nat) :
  quiet same_options (wait fuel threads).
Proof.
  induction fuel as [|fuel IH]; simpl; quiet_auto; auto using options_poll.
Qed.

Lemma options__threadFunction : quiet same_options _threadFunction.
Proof. unfold _threadFunction, call_threadFunction. quiet_auto. Qed.

Lemma options_prompt (a : answer) : quiet same_options (prompt a).
Proof. unfold prompt. quiet_auto. Qed.

Lemma options_choose_threads (threadChoice : bool) :
  quiet same_options (choose_threads threadChoice).
Proof. unfold choose_threads. quiet_auto. apply options_prompt. Qed.

Lemma options_start_threads : quiet same_options start_threads.
Proof. unfold start_threads, setDaemon, thread_start. quiet_auto. Qed.

(** The guarded region leaves what [conf.get] answers as it was. *)
Lemma options_guarded (threadChoice startThreadMsg : bool) :
  quiet same_options (guarded threadChoice startThreadMsg).
Proof.
  unfold guarded. quiet_auto;
    auto using options_choose_threads, options__threadFunction,
      options_start_threads, options_wait.
Qed.

Lemma workers__threadFunction : quiet same_workers _threadFunction.
Proof. unfold _threadFunction, call_threadFunction. quiet_auto. Qed.

Lemma workers_prompt (a : answer) : quiet same_workers (prompt a).
Proof. unfold prompt. quiet_auto. Qed.

(** The choice of the number of threads starts no worker and takes no
    step. *)
Lemma workers_choose_threads (threadChoice : bool) :
  quiet same_workers (choose_threads threadChoice).
Proof. unfold choose_threads. quiet_auto. apply workers_prompt. Qed.

Lemma workers_on_failure (ex : exn) : quiet same_workers (on_failure ex).
Proof. unfold on_failure. quiet_auto. apply quiet_gt_1. auto with frame. Qed.

Lemma workers_on_exception (ex : exn) : quiet same_workers (on_exception ex).
Proof. unfold on_exception. quiet_auto. Qed.

(** ** The locks after the teardown *)

Lemma unlock_other (name : string) (l : list (string * Lock)) :
  ~ In name (map fst l) -> unlock name l = l.
Proof.
  unfold unlock. induction l as [|q l IH]; cbn; intros Hname; [reflexivity|].
  destruct (String.eqb_spec (fst q) name) as [Heq|Hneq].
  - elim Hname. auto.
  - rewrite IH by tauto. reflexivity.
Qed.

Lemma unlock_here (done rest : list (string * Lock)) (p : string * Lock) :
  NoDup (map fst (done ++ p :: rest)) ->
  unlock (fst p) (done ++ p :: rest)
  = done ++ (fst p, MkLock false (release (snd p))) :: rest.
Proof.
  intros Hnodup. rewrite map_app in Hnodup. cbn in Hnodup.
  pose proof (NoDup_remove_2 _ _ _ Hnodup) as Hnotin.
  assert (Hd : ~ In (fst p) (map fst done)) by (intros H; apply Hnotin, in_or_app; auto).
  assert (Hr : ~ In (fst p) (map fst rest)) by (intros H; apply Hnotin, in_or_app; auto).
  unfold unlock. rewrite map_app. cbn. rewrite String.eqb_refl.
  fold (unlock (fst p) done). fold (unlock (fst p) rest).
  now rewrite !unlock_other.
Qed.

Lemma after_release_name (p : string * Lock) : fst (after_release p) = fst p.
Proof.
  unfold after_release. destruct (locked (snd p)), (release (snd p)); reflexivity.
Qed.

(** The loop over [kb.locks.values()] when the names of the locks differ:
    the locks already seen are as [release()] has left them. *)
Lemma release_loop_state (l done : list (string * Lock)) (s : State) :
  locks (kb s) = done ++ l ->
  NoDup (map fst (done ++ l)) ->
  for_each l release_held s
  = (Normal tt, with_locks (done ++ map after_release l) s, released l).
Proof.
  revert done s. induction l as [|p l IH]; intros done s Hlocks Hnodup.
  - cbn. rewrite <- Hlocks. now rewrite with_locks_same.
  - cbn [for_each].
    assert (Hstep : release_held p s
                    = (Normal tt, with_locks (done ++ after_release p :: l) s,
                       if locked (snd p) then [EvRelease (fst p)] else [])).
    { unfold release_held, after_release. destruct (locked (snd p)).
      - unfold try_except, lock_release, bind, emit.
        destruct (release (snd p)) as [ex|] eqn:Hrel; cbn.
        + rewrite <- Hlocks. now rewrite with_locks_same.
        + unfold with_locks. rewrite Hlocks, unlock_here by exact Hnodup.
          now rewrite Hrel.
      - cbn. rewrite <- Hlocks. now rewrite with_locks_same. }
    rewrite Hstep.
    rewrite (IH (done ++ [after_release p]) (with_locks (done ++ after_release p :: l) s)).
    + rewrite with_locks_twice, <- app_assoc. unfold released. cbn.
      destruct (locked (snd p)); reflexivity.
    + cbn. now rewrite <- app_assoc.
    + rewrite <- app_assoc. cbn. rewrite map_app in *. cbn in *.
      now rewrite after_release_name.
Qed.

(** The [finally] suite changes nothing of the state but the four flags
    and the locks. *)
Lemma teardown_keeps (cleanupFunction : bool) (s : State) :
  started (final (teardown cleanupFunction s)) = started s
  /\ steps (final (teardown cleanupFunction s)) = steps s
  /\ numThreads (final (teardown cleanupFunction s)) = numThreads s
  /\ conf (final (teardown cleanupFunction s)) = conf s
  /\ prependFlag (kb (final (teardown cleanupFunction s))) = prependFlag (kb s)
  /\ (NoDup (map fst (locks (kb s))) ->
      locks (kb (final (teardown cleanupFunction s))) = map after_release (locks (kb s))).
Proof.
  clear flush_returns cleanup_returns.
  set (s1 := MkState
               (set_technique None
                  (set_threadException false
                     (set_threadContinue true (set_multiThreadMode false (kb s)))))
               (conf s) (numThreads s) (started s) (steps s)).
  assert (Hrun : forall l',
            for_each (locks (kb s1)) release_held s1
            = (Normal tt, with_locks l' s1, released (locks (kb s1))) ->
            final (teardown cleanupFunction s) = with_locks l' s1).
  { intros l' Hl'. unfold teardown, release_locks.
    unfold bind at 1 2 3 4 5. unfold set_kb, modify. simpl.
    unfold bind at 1. unfold get at 1. fold s1. rewrite Hl'.
    unfold hashDB_flush, call_cleanupFunction, bind, get, emit, raise, skip, ret. simpl.
    destruct (hashDB (conf s)), cleanupFunction, (flush env), (cleanup env);
      reflexivity. }
  destruct (release_loop (locks (kb s1)) s1) as [l' Hl'].
  repeat match goal with |- _ /\ _ => split end;
    try (rewrite (Hrun _ Hl'); reflexivity).
  intros Hnodup.
  pose proof (release_loop_state (locks (kb s1)) [] s1 eq_refl Hnodup) as Hstate.
  rewrite (Hrun _ Hstate). reflexivity.
Qed.

(** ** The state and the trace of a run that ends *)

Lemma region_of_run (n : Z)
    (cleanupFunction forwardException threadChoice startThreadMsg : bool) (s : State) :
  outcome (runThreads n cleanupFunction forwardException threadChoice startThreadMsg s)
    <> Diverge ->
  outcome (try_except (guarded threadChoice startThreadMsg) (handlers forwardException)
             (entered n s)) <> Diverge.
Proof.
  clear flush_returns cleanup_returns.
  intros Hends Hregion. apply Hends.
  destruct (try_except (guarded threadChoice startThreadMsg) (handlers forwardException)
              (entered n s)) as [[c1 s1] t1] eqn:Hreg.
  unfold outcome in Hregion. cbn [fst] in Hregion. subst c1.
  now rewrite (runThreads_diverge _ cleanupFunction _ _ _ _ _ _ Hreg).
Qed.

(** The run against its guarded region and handlers, whatever the flush
    and the cleanup do. *)
Lemma run_final (n : Z)
    (cleanupFunction forwardException threadChoice startThreadMsg : bool) (s : State) :
  let region :=
    try_except (guarded threadChoice startThreadMsg) (handlers forwardException)
      (entered n s) in
  let run := runThreads n cleanupFunction forwardException threadChoice startThreadMsg s in
  outcome region <> Diverge ->
  outcome run = ended cleanupFunction s (returned (outcome region))
  /\ trace run = trace region ++ teardown_events cleanupFunction s
  /\ started (final run) = started (final region)
  /\ steps (final run) = steps (final region)
  /\ numThreads (final run) = numThreads (final region)
  /\ conf (final run) = conf (final region)
  /\ multipleCtrlC (kb (final run)) = multipleCtrlC (kb (final region))
  /\ prependFlag (kb (final run)) = prependFlag (kb (final region))
  /\ (NoDup (map fst (locks (kb s))) ->
      locks (kb (final run)) = map after_release (locks (kb s))).
Proof.
  clear flush_returns cleanup_returns.
  intros region run. subst run.
  destruct region as [[c1 s1] t1] eqn:Hregion. subst region.
  unfold outcome at 1. cbn [fst]. intros Hc1.
  destruct (quiet_region _ _ _ _ _ _ _ Hregion) as [Hsame _].
  change (same_resources s s1) in Hsame.
  destruct (teardown_same cleanupFunction _ _ Hsame) as (Hevents & Hfailure & _).
  destruct Hsame as [Hlocks HhashDB].
  pose proof (teardown_keeps cleanupFunction s1) as (Hst & Hsp & Hn & Hc & Hp & Hl).
  destruct (teardown_shape cleanupFunction s1) as (s2 & Htear & _ & Hm & _ & _).
  rewrite Htear in *. unfold final in Hst, Hsp, Hn, Hc, Hp, Hl. cbn [fst snd] in *.
  destruct (run_shape n cleanupFunction _ _ _ _ _ _ _ Hregion Hc1) as (s2' & Hrun & _).
  assert (Hs2 : s2' = s2).
  { revert Hrun. unfold runThreads, call. rewrite entered_run. unfold try_finally.
    rewrite Hregion, Htear. unfold ended.
    destruct (teardown_failure cleanupFunction s1); destruct c1;
      intros H; inversion H; reflexivity || now elim Hc1. }
  subst s2'. rewrite Hrun. unfold outcome, trace, final, ended. cbn [fst snd].
  rewrite Hevents, Hfailure.
  repeat match goal with |- _ /\ _ => split end; auto.
  rewrite <- Hlocks. exact Hl.
Qed.

Lemma runThreads_final (n : Z)
    (cleanupFunction forwardException threadChoice startThreadMsg : bool) (s : State) :
  let region :=
    try_except (guarded threadChoice startThreadMsg) (handlers forwardException)
      (entered n s) in
  let run := runThreads n cleanupFunction forwardException threadChoice startThreadMsg s in
  outcome region <> Diverge ->
  outcome run = returned (outcome region)
  /\ trace run = trace region ++ teardown_trace cleanupFunction s
  /\ started (final run) = started (final region)
  /\ steps (final run) = steps (final region)
  /\ numThreads (final run) = numThreads (final region)
  /\ conf (final run) = conf (final region)
  /\ multipleCtrlC (kb (final run)) = multipleCtrlC (kb (final region))
  /\ prependFlag (kb (final run)) = prependFlag (kb (final region))
  /\ (NoDup (map fst (locks (kb s))) ->
      locks (kb (final run)) = map after_release (locks (kb s))).
Proof.
  intros region run Hregion.
  pose proof (run_final n cleanupFunction forwardException threadChoice startThreadMsg s
                Hregion) as (Hout & Htrace & Hrest).
  destruct (teardown_returns cleanupFunction s) as (Hnone & _ & Hevents).
  unfold ended in Hout. rewrite Hnone in Hout. rewrite Hevents in Htrace.
  split; [exact Hout|]. split; [exact Htrace|exact Hrest].
Qed.


(** ** The wait for the workers, pass by pass *)

(** A pass over the started threads changes nothing but the number of
    steps made; it raises nothing but the [KeyboardInterrupt] of a Ctrl+C,
    and it leaves [alive] false only when no thread of the list is
    alive. *)
Lemma poll_shape (threads : list nat) (alive : bool) (s : State) :
  exists k,
    final (poll threads alive s) = at_step k s
    /\ match outcome (poll threads alive s) with
       | Normal b =>
           b = false -> alive = false /\ k = steps s /\ (horizon threads <= steps s)%nat
       | Raise ex => ex = Exn KeyboardInterrupt EmptyString
       | _ => False
       end.
Proof.
  revert alive s. induction threads as [|th l IH]; intros alive s.
  - exists (steps s). cbn. rewrite at_step_same. split; [reflexivity|].
    intros ->. unfold horizon. cbn. auto with arith.
  - rewrite poll_cons. unfold horizon in *. cbn [map fold_right].
    destruct (steps s <? lifetime env th)%nat eqn:Hth.
    + destruct (interrupt env (steps s)).
      * exists (S (steps s)). split; reflexivity.
      * destruct (IH true (at_step (S (steps s)) s)) as (k & Hfin & Hout).
        exists k. unfold outcome, final in *. cbn [fst snd] in *.
        rewrite Hfin. split; [reflexivity|].
        destruct (fst (fst (poll l true (at_step (S (steps s)) s)))); auto.
        intros Hb. destruct (Hout Hb) as [? _]. discriminate.
    + apply Nat.ltb_ge in Hth.
      destruct (IH alive s) as (k & Hfin & Hout).
      exists k. split; [exact Hfin|].
      destruct (outcome (poll l alive s)); auto.
      intros Hb. destruct (Hout Hb) as (? & ? & ?). repeat split; auto. lia.
Qed.

(** The wait loop changes nothing but the number of steps made; when it
    ends normally no thread of the list is alive, and it raises nothing
    but the [KeyboardInterrupt] of a Ctrl+C. *)
Lemma wait_shape (fuel : nat) (threads : list nat) (s : State) :
  exists k,
    final (wait fuel threads s) = at_step k s
    /\ match outcome (wait fuel threads s) with
       | Normal _ => (horizon threads <= k)%nat
       | Raise ex => ex = Exn KeyboardInterrupt EmptyString
       | Diverge => True
       | _ => False
       end.
Proof.
  revert s. induction fuel as [|fuel IH]; intros s.
  - exists (steps s). cbn. now rewrite at_step_same.
  - cbn [wait]. unfold bind.
    destruct (poll_shape threads false s) as (k & Hfin & Hout).
    destruct (poll threads false s) as [[c1 s1] t1].
    unfold outcome, final in *. cbn [fst snd] in *. subst s1.
    destruct c1 as [alive| | | |];
      try (exists k; cbn [fst snd]; split; [reflexivity|first [exact Hout|contradiction]]).
    destruct alive.
    + destruct (IH (at_step k s)) as (k' & Hfin' & Hout').
      destruct (wait fuel threads (at_step k s)) as [[c2 s2] t2].
      cbn [fst snd] in *. exists k'. split; [exact Hfin'|exact Hout'].
    + destruct (Hout eq_refl) as (_ & -> & Hdead).
      exists (steps s). cbn. split; [reflexivity|exact Hdead].
Qed.

(** With no Ctrl+C a pass sleeps once for each thread that it finds
    alive. *)
Lemma poll_calm (threads : list nat) (alive : bool) (s : State) :
  (forall k, interrupt env k = false) ->
  exists k,
    poll threads alive s
    = (Normal (alive || (steps s <? k)%nat), at_step k s, repeat EvSleep (k - steps s))
    /\ (steps s <= k <= Nat.max (steps s) (horizon threads))%nat
    /\ (k = steps s -> (horizon threads <= steps s)%nat).
Proof.
  intros Hcalm. revert alive s. induction threads as [|th l IH]; intros alive s.
  - exists (steps s). cbn [poll]. unfold ret.
    rewrite Nat.ltb_irrefl, Nat.sub_diag, orb_false_r, at_step_same.
    repeat split; auto with arith; unfold horizon; cbn; lia.
  - rewrite poll_cons, Hcalm. unfold horizon in *. cbn [map fold_right].
    destruct (steps s <? lifetime env th)%nat eqn:Hth.
    + apply Nat.ltb_lt in Hth.
      destruct (IH true (at_step (S (steps s)) s)) as (k & -> & Hk & _).
      cbn [steps at_step] in Hk.
      exists k. unfold outcome, final, trace. cbn [fst snd steps at_step orb].
      assert (Hlt : (steps s <? k)%nat = true) by (apply Nat.ltb_lt; lia).
      rewrite Hlt, orb_true_r.
      replace (k - steps s)%nat with (S (k - S (steps s))) by lia.
      repeat split; lia.
    + apply Nat.ltb_ge in Hth.
      destruct (IH alive s) as (k & -> & Hk & Hdead).
      exists k. repeat split; lia.
Qed.

(** With no Ctrl+C the wait loop sleeps until the last step at which a
    thread of the list is alive, and ends normally. *)
Lemma wait_calm (fuel : nat) (threads : list nat) (s : State) :
  (forall k, interrupt env k = false) ->
  (horizon threads - steps s < fuel)%nat ->
  wait fuel threads s
  = (Normal tt, at_step (Nat.max (steps s) (horizon threads)) s,
     repeat EvSleep (horizon threads - steps s)).
Proof.
  intros Hcalm. revert s. induction fuel as [|fuel IH]; intros s Hfuel; [lia|].
  cbn [wait]. unfold bind.
  destruct (poll_calm threads false s Hcalm) as (k & -> & Hk & Hdead).
  cbn [orb].
  destruct (steps s <? k)%nat eqn:Hlt.
  - apply Nat.ltb_lt in Hlt.
    rewrite IH by (cbn [steps at_step]; lia).
    cbn [steps at_step].
    replace (Nat.max k (horizon threads)) with (Nat.max (steps s) (horizon threads)) by lia.
    rewrite <- repeat_app.
    replace (k - steps s + (horizon threads - k))%nat with (horizon threads - steps s)%nat by lia.
    reflexivity.
  - apply Nat.ltb_ge in Hlt. assert (Hks : k = steps s) by lia.
    specialize (Hdead Hks). subst k.
    replace (horizon threads - steps s)%nat with 0%nat by lia.
    rewrite Nat.sub_diag, Nat.max_l by lia. cbn. reflexivity.
Qed.

(** ** The start of the workers *)

Lemma start_threads_loop (s : State) :
  start_threads s = for_each (seq 0 (Z.to_nat (numThreads s))) start_one s.
Proof.
  unfold start_threads, start_one, bind at 1, get.
  destruct (for_each _ _ s) as [[c s2] t2]. reflexivity.
Qed.

(** One turn of the loop, by what [thread.start()] does. *)
Lemma start_one_run (j : nat) (s : State) :
  start_one j s
  = match start env j with
    | None => (Normal tt, with_started (started s ++ [j]) s, launch j)
    | Some ex =>
        if isinstance_Exception ex
        then (Break, s, [EvDaemon j; EvLog CRITICAL (MsgStartFailed ex)])
        else (Raise ex, s, [EvDaemon j])
    end.
Proof.
  unfold start_one, setDaemon, thread_start, try_except, bind, emit, get,
    set_started, modify, raise, break.
  destruct (start env j) as [ex|]; [destruct (isinstance_Exception ex)|]; reflexivity.
Qed.

(** While [thread.start()] succeeds the workers are created one after the
    other, in the order of their numbers. *)
Lemma launch_loop (m a : nat) (s : State) :
  (forall j, (a <= j < a + m)%nat -> start env j = None) ->
  for_each (seq a m) start_one s
  = (Normal tt, with_started (started s ++ seq a m) s, flat_map launch (seq a m)).
Proof.
  revert a s. induction m as [|m IH]; intros a s Hstart.
  - cbn. rewrite app_nil_r. destruct s; reflexivity.
  - cbn [seq for_each]. rewrite start_one_run, Hstart by lia.
    rewrite IH by (intros j Hj; apply Hstart; lia).
    cbn. rewrite <- app_assoc. reflexivity.
Qed.

(** The loop ends with the first worker whose [thread.start()] raises an
    [Exception]: the failure is logged and no further worker is created. *)
Lemma launch_loop_refused (k m a : nat) (s : State) (ex : exn) :
  (forall j, (a <= j < a + k)%nat -> start env j = None) ->
  start env (a + k)%nat = Some ex ->
  isinstance_Exception ex = true ->
  (k < m)%nat ->
  for_each (seq a m) start_one s
  = (Normal tt, with_started (started s ++ seq a k) s,
     flat_map launch (seq a k)
     ++ [EvDaemon (a + k)%nat; EvLog CRITICAL (MsgStartFailed ex)]).
Proof.
  revert m a s. induction k as [|k IH]; intros m a s Hstart Hfail Hex Hkm;
    (destruct m as [|m]; [lia|]); cbn [seq for_each]; rewrite start_one_run.
  - rewrite Nat.add_0_r in *. rewrite Hfail, Hex. cbn. rewrite app_nil_r.
    destruct s; reflexivity.
  - rewrite Hstart by lia.
    rewrite (IH m (S a)); try (replace (S a + k)%nat with (a + S k)%nat by lia); auto; try lia.
    + cbn. rewrite <- app_assoc. reflexivity.
    + intros j Hj. apply Hstart. lia.
Qed.

(** The loop changes nothing of the state but the list of the threads
    started, and lets out no [Exception]. *)
Lemma launch_loop_shape (l : list nat) (s : State) :
  exists l',
    final (for_each l start_one s) = with_started (started s ++ l') s
    /\ match outcome (for_each l start_one s) with
       | Normal _ => True
       | Raise ex => isinstance_Exception ex = false
       | _ => False
       end.
Proof.
  revert s. induction l as [|j l IH]; intros s.
  - exists []. cbn. rewrite app_nil_r. destruct s; auto.
  - cbn [for_each]. rewrite start_one_run.
    destruct (start env j) as [ex|]; [destruct (isinstance_Exception ex) eqn:Hex|].
    + exists []. cbn. rewrite app_nil_r. destruct s; auto.
    + exists []. cbn. rewrite app_nil_r. destruct s; auto.
    + destruct (IH (with_started (started s ++ [j]) s)) as (l' & Hfin & Hout).
      destruct (for_each l start_one _) as [[c2 s2] t2].
      unfold final, outcome in *. cbn [fst snd] in *.
      exists (j :: l'). split; [|exact Hout].
      rewrite Hfin. cbn. rewrite <- app_assoc. reflexivity.
Qed.

(** ** The guarded region with more than one thread *)

Lemma guarded_multi (threadChoice startThreadMsg : bool) (s s1 : State) (t1 : list event) :
  choose_threads threadChoice s = (Normal tt, s1, t1) ->
  1 < numThreads s1 ->
  let launched := for_each (seq 0 (Z.to_nat (numThreads s1))) start_one (multi s1) in
  let waited :=
    wait (S (horizon (started (final launched)))) (started (final launched))
      (final launched) in
  guarded threadChoice startThreadMsg s
  = match outcome launched with
    | Normal _ =>
        (outcome waited, final waited,
         t1 ++ starting startThreadMsg s1 ++ trace launched ++ trace waited)
    | _ =>
        (outcome launched, final launched,
         t1 ++ starting startThreadMsg s1 ++ trace launched)
    end.
Proof.
  intros Hchoose Hmany launched waited.
  unfold guarded. unfold bind at 1. rewrite Hchoose.
  unfold bind at 1. unfold get at 1.
  assert (Hbranch : (1 <? numThreads s1) = true) by (apply Z.ltb_lt; exact Hmany).
  rewrite Hbranch. unfold bind at 1.
  assert (Hmsg : when startThreadMsg (emit (EvLog INFO (MsgStarting (numThreads s1)))) s1
                 = (Normal tt, s1, starting startThreadMsg s1))
    by (destruct startThreadMsg; reflexivity).
  rewrite Hmsg. unfold bind at 1. unfold set_kb at 1, modify at 1.
  fold (multi s1). unfold bind at 1. rewrite start_threads_loop.
  change (numThreads (multi s1)) with (numThreads s1). fold launched.
  subst waited. destruct launched as [[c2 s2] t2].
  unfold outcome, final, trace. cbn [fst snd].
  destruct c2; try reflexivity.
  unfold bind, get.
  destruct (wait (S (horizon (started s2))) (started s2) s2) as [[c3 s3] t3].
  reflexivity.
Qed.

(** No worker is alive once the last step at which one is has been
    made. *)
Lemma stopped_horizon (s : State) :
  (horizon (started s) <= steps s)%nat -> all_stopped s.
Proof.
  intros Hdead. unfold all_stopped, active_count, bind, get, ret, outcome. cbn [fst].
  pose proof (alive_count (started s) (steps s)) as Hcount.
  replace (steps s <? horizon (started s))%nat with false in Hcount
    by (symmetry; apply Nat.ltb_ge; exact Hdead).
  destruct (List.length _) as [|k]; [reflexivity|discriminate Hcount].
Qed.

Lemma filter_prompt (p : event -> bool) (t : list event) :
  (forall e, prompt_event e = true -> p e = false) ->
  Forall (fun e => prompt_event e = true) t ->
  filter p t = [].
Proof.
  intros Hp Ht. apply filter_none. eapply Forall_impl; [|exact Ht]. exact Hp.
Qed.

Lemma filter_teardown (p : event -> bool) (cleanupFunction : bool) (s : State) :
  (forall e, teardown_event e = true -> p e = false) ->
  filter p (teardown_trace cleanupFunction s) = [].
Proof.
  intros Hp. apply filter_none.
  eapply Forall_impl; [|apply teardown_trace_events]. exact Hp.
Qed.

Lemma filter_repeat (p : event -> bool) (e : event) (k : nat) :
  p e = false -> filter p (repeat e k) = [].
Proof. intros He. induction k as [|k IH]; cbn; [reflexivity|]. now rewrite He. Qed.

Lemma filter_start_launch (l : list nat) :
  filter is_start (flat_map launch l) = map EvStart l.
Proof. induction l as [|j l IH]; cbn; [reflexivity|]. now rewrite IH. Qed.

Lemma filter_daemon_launch (l : list nat) :
  filter is_daemon (flat_map launch l) = map EvDaemon l.
Proof. induction l as [|j l IH]; cbn; [reflexivity|]. now rewrite IH. Qed.

Lemma filter_call_launch (l : list nat) :
  filter is_call (flat_map launch l) = [].
Proof. induction l as [|j l IH]; cbn; [reflexivity|]. exact IH. Qed.

Lemma filter_starting (p : event -> bool) (startThreadMsg : bool) (s : State) :
  (forall l m, p (EvLog l m) = false) ->
  filter p (starting startThreadMsg s) = [].
Proof. intros Hp. destruct startThreadMsg; cbn; [now rewrite Hp|reflexivity]. Qed.

Lemma region_normal (forwardException threadChoice startThreadMsg : bool)
    (s : State) (c : completion unit) (s1 : State) (t1 : list event) :
  guarded threadChoice startThreadMsg s = (c, s1, t1) ->
  (forall ex, c <> Raise ex) ->
  try_except (guarded threadChoice startThreadMsg) (handlers forwardException) s
  = (c, s1, t1).
Proof.
  intros Hg Hc. unfold try_except. rewrite Hg.
  destruct c; try reflexivity. now elim (Hc ex).
Qed.

(** The run with more than one thread in force, once the loop that starts
    the workers is over and when no Ctrl+C arrives. *)
Lemma run_after_launch (n : Z)
    (cleanupFunction forwardException threadChoice startThreadMsg : bool)
    (s s1 : State) (t1 : list event) (l : list nat) (t2 : list event) :
  choose_threads threadChoice (entered n s) = (Normal tt, s1, t1) ->
  1 < numThreads s1 ->
  for_each (seq 0 (Z.to_nat (numThreads s1))) start_one (multi s1)
  = (Normal tt, with_started l (multi s1), t2) ->
  (forall k, interrupt env k = false) ->
  let run := runThreads n cleanupFunction forwardException threadChoice startThreadMsg s in
  outcome run = Normal tt
  /\ trace run
     = t1 ++ starting startThreadMsg s1 ++ t2
       ++ repeat EvSleep (horizon l - steps s)
       ++ teardown_trace cleanupFunction s
  /\ Forall (fun e => prompt_event e = true) t1
  /\ all_stopped (final run).
Proof.
  intros Hchoose Hmany Hlaunch Hcalm run.
  destruct (workers_choose_threads _ _ _ _ _ Hchoose) as [[_ Hsteps] _].
  change (steps s1 = steps s) in Hsteps.
  pose proof (guarded_multi _ startThreadMsg _ _ _ Hchoose Hmany) as Hguarded.
  cbv zeta in Hguarded. rewrite Hlaunch in Hguarded.
  unfold outcome at 1, final, trace in Hguarded. cbn [fst snd] in Hguarded.
  cbn [started with_started] in Hguarded.
  rewrite wait_calm in Hguarded by (auto; cbn [started with_started]; lia).
  cbn [fst snd steps started with_started multi] in Hguarded.
  rewrite Hsteps in Hguarded.
  pose proof (region_normal forwardException _ _ _ _ _ _ Hguarded) as Hregion.
  specialize (Hregion ltac:(discriminate)).
  pose proof (runThreads_final n cleanupFunction forwardException threadChoice
                startThreadMsg s) as Hfinal.
  cbv zeta in Hfinal. fold run in Hfinal. rewrite Hregion in Hfinal.
  unfold outcome, final, trace in Hfinal. cbn [fst snd] in Hfinal.
  destruct Hfinal as (Hout & Htrace & Hst & Hsp & _); [discriminate|].
  fold (outcome run) in Hout. fold (trace run) in Htrace. fold (final run) in Hst, Hsp.
  pose proof (choose_threads_events threadChoice (entered n s)) as Hprompt.
  rewrite Hchoose in Hprompt. unfold trace at 1 in Hprompt. cbn [snd] in Hprompt.
  split; [exact Hout|]. rewrite Htrace, <- !app_assoc.
  repeat split; auto.
  apply stopped_horizon. rewrite Hst, Hsp. cbn [started steps at_step with_started]. lia.
Qed.

(** The filters of a trace made of the events of the prompt, the message
    of the start, the events [t] of the loop that starts the workers, the
    sleeps of the wait and the teardown. *)
Lemma filter_multi (p : event -> bool) (cleanupFunction startThreadMsg : bool)
    (s s1 : State) (t1 t : list event) (k : nat) :
  Forall (fun e => prompt_event e = true) t1 ->
  (forall e, prompt_event e = true -> p e = false) ->
  (forall e, teardown_event e = true -> p e = false) ->
  (forall l m, p (EvLog l m) = false) ->
  p EvSleep = false ->
  filter p (t1 ++ starting startThreadMsg s1 ++ t ++ repeat EvSleep k
            ++ teardown_trace cleanupFunction s)
  = filter p t.
Proof.
  intros Ht1 Hprompt Htear Hlog Hsleep.
  rewrite !filter_app, (filter_prompt _ t1), filter_starting, filter_repeat,
    filter_teardown by auto.
  cbn [app]. now rewrite app_nil_r.
Qed.

(** X2. With more than one thread in force, when every [thread.start()]
    succeeds and no Ctrl+C arrives: the workers are created in the order
    of their numbers, each made a daemon and then started; the thread
    function is not called in the calling thread; the supervisor sleeps
    until the last worker has stopped, goes through the teardown and
    returns normally, with no worker left alive.
    The flush of the session file and the cleanup function return in
    these runs. *)
Theorem workers_all_started (n : Z)
    (cleanupFunction forwardException threadChoice startThreadMsg : bool)
    (s s1 : State) (t1 : list event) :
  choose_threads threadChoice (entered n s) = (Normal tt, s1, t1) ->
  1 < numThreads s1 ->
  (forall j, (j < Z.to_nat (numThreads s1))%nat -> start env j = None) ->
  (forall k, interrupt env k = false) ->
  let run := runThreads n cleanupFunction forwardException threadChoice startThreadMsg s in
  let workers := seq 0 (Z.to_nat (numThreads s1)) in
  outcome run = Normal tt
  /\ trace run
     = t1 ++ starting startThreadMsg s1
       ++ flat_map launch workers
       ++ repeat EvSleep (horizon workers - steps s)
       ++ teardown_trace cleanupFunction s
  /\ filter is_start (trace run) = map EvStart workers
  /\ count is_call (trace run) = 0%nat
  /\ all_stopped (final run).
Proof.
  intros Hchoose Hmany Hstart Hcalm run workers.
  destruct (workers_choose_threads _ _ _ _ _ Hchoose) as [[Hstarted _] _].
  change (started s1 = []) in Hstarted.
  pose proof (launch_loop (Z.to_nat (numThreads s1)) 0 (multi s1)) as Hlaunch.
  change (started (multi s1)) with (started s1) in Hlaunch.
  rewrite Hstarted in Hlaunch. cbn [app] in Hlaunch.
  specialize (Hlaunch ltac:(intros j Hj; apply Hstart; lia)).
  destruct (run_after_launch n cleanupFunction forwardException _ startThreadMsg
              _ _ _ _ _ Hchoose Hmany Hlaunch Hcalm) as (Hout & Htrace & Hprompt & Hstop).
  fold run workers in Hout, Htrace, Hstop.
  repeat match goal with |- _ /\ _ => split end; auto.
  - rewrite Htrace, filter_multi; auto using filter_start_launch;
      intros [] He; try reflexivity; discriminate He.
  - unfold count. rewrite Htrace, filter_multi, filter_call_launch; auto;
      intros [] He; try reflexivity; discriminate He.
Qed.

(** X3. When [thread.start()] raises an [Exception] for worker [k], after it
    has succeeded for the workers before: the failure is logged, the
    worker has been made a daemon but is not started, no later worker is
    created, and unless a Ctrl+C arrives the run waits for the workers
    that were started and returns normally.
    The flush of the session file and the cleanup function return in
    these runs. *)
Theorem start_failure_ends_loop (n : Z)
    (cleanupFunction forwardException threadChoice startThreadMsg : bool)
    (s s1 : State) (t1 : list event) (k : nat) (ex : exn) :
  choose_threads threadChoice (entered n s) = (Normal tt, s1, t1) ->
  1 < numThreads s1 ->
  (k < Z.to_nat (numThreads s1))%nat ->
  (forall j, (j < k)%nat -> start env j = None) ->
  start env k = Some ex ->
  isinstance_Exception ex = true ->
  (forall i, interrupt env i = false) ->
  let run := runThreads n cleanupFunction forwardException threadChoice startThreadMsg s in
  outcome run = Normal tt
  /\ trace run
     = t1 ++ starting startThreadMsg s1
       ++ (flat_map launch (seq 0 k) ++ [EvDaemon k; EvLog CRITICAL (MsgStartFailed ex)])
       ++ repeat EvSleep (horizon (seq 0 k) - steps s)
       ++ teardown_trace cleanupFunction s
  /\ filter is_start (trace run) = map EvStart (seq 0 k)
  /\ filter is_daemon (trace run) = map EvDaemon (seq 0 (S k))
  /\ all_stopped (final run).
Proof.
  intros Hchoose Hmany Hk Hstart Hfail Hex Hcalm run.
  destruct (workers_choose_threads _ _ _ _ _ Hchoose) as [[Hstarted _] _].
  change (started s1 = []) in Hstarted.
  pose proof (launch_loop_refused k (Z.to_nat (numThreads s1)) 0 (multi s1) ex) as Hlaunch.
  change (started (multi s1)) with (started s1) in Hlaunch.
  rewrite Hstarted in Hlaunch. cbn [app Nat.add] in Hlaunch.
  specialize (Hlaunch ltac:(intros j Hj; apply Hstart; lia) Hfail Hex Hk).
  destruct (run_after_launch n cleanupFunction forwardException _ startThreadMsg
              _ _ _ _ _ Hchoose Hmany Hlaunch Hcalm) as (Hout & Htrace & Hprompt & Hstop).
  fold run in Hout, Htrace, Hstop.
  repeat match goal with |- _ /\ _ => split end; auto.
  - rewrite Htrace, filter_multi, filter_app, filter_start_launch; auto;
      try (intros [] He; try reflexivity; discriminate He).
    cbn. now rewrite app_nil_r.
  - rewrite Htrace, filter_multi, filter_app, filter_daemon_launch; auto;
      try (intros [] He; try reflexivity; discriminate He).
    cbn [filter is_daemon]. rewrite seq_S, map_app. reflexivity.
Qed.

(** ** No worker outlives a run that was not forced to end *)

(** How the guarded region leaves the workers: when it ends normally none
    is alive; when it returns none was started; when it raises an
    [Exception] none was started either. *)
Lemma guarded_shape (threadChoice startThreadMsg : bool) (s : State) :
  started s = [] ->
  let r := guarded threadChoice startThreadMsg s in
  match outcome r with
  | Normal _ => (horizon (started (final r)) <= steps (final r))%nat
  | Raise ex => started (final r) = [] \/ isinstance_Exception ex = false
  | Diverge => True
  | _ => started (final r) = []
  end.
Proof.
  intros Hnone r. subst r.
  destruct (choose_threads threadChoice s) as [[c1 s1] t1] eqn:Hchoose.
  destruct (workers_choose_threads _ _ _ _ _ Hchoose) as [[Hstarted _] _].
  rewrite Hnone in Hstarted.
  assert (Hstop : (forall u, c1 <> Normal u) ->
                  guarded threadChoice startThreadMsg s = (c1, s1, t1)).
  { intros Hc1. unfold guarded. unfold bind at 1. rewrite Hchoose.
    destruct c1; try reflexivity. now elim (Hc1 a). }
  destruct c1 as [[]| | | |];
    try (rewrite Hstop by discriminate; unfold outcome, final; cbn [fst snd]; auto; fail).
  clear Hstop.
  destruct (Z.ltb_spec 1 (numThreads s1)) as [Hmany|Hone].
  - rewrite (guarded_multi _ startThreadMsg _ _ _ Hchoose Hmany).
    destruct (launch_loop_shape (seq 0 (Z.to_nat (numThreads s1))) (multi s1))
      as (l' & Hfin & Hout).
    destruct (for_each _ start_one (multi s1)) as [[c2 s2] t2].
    unfold outcome, final, trace in *. cbn [fst snd] in *. subst s2.
    destruct c2 as [[]| | | |]; try contradiction; [|cbn; auto].
    set (s3 := with_started (started (multi s1) ++ l') (multi s1)).
    destruct (wait_shape (S (horizon (started s3))) (started s3) s3) as (k & Hfin' & Hout').
    destruct (wait _ _ s3) as [[c3 s4] t3].
    unfold outcome, final in *. cbn [fst snd] in *. subst s4.
    destruct c3; try contradiction; auto.
    subst ex. right. reflexivity.
  - rewrite (guarded_single _ startThreadMsg _ _ _ Hchoose Hone). cbn. exact Hstarted.
Qed.

(** The handler of a cancellation that is not a repeated one returns when
    no worker is alive any more. *)
Lemma on_interrupt_waits (forwardException : bool) (ex : exn) (s : State) :
  escalation s = None ->
  started (final (on_interrupt forwardException ex s)) = started s
  /\ steps (final (on_interrupt forwardException ex s))
     = Nat.max (steps s) (horizon (started s)).
Proof.
  unfold on_interrupt, escalation, second_signal, in_window,
    pressed_again, time_time, bind, emit, set_kb, modify, get, ret,
    when, raise, skip, outcome, final, truthy.
  repeat
    (cbn -[wait_for_threads first_interrupt horizon Qle_bool Qminus Qeq_bool Nat.sub Nat.max];
     match goal with
     | |- context [match lastCtrlCTime (kb s) with _ => _ end] =>
         destruct (lastCtrlCTime (kb s)) eqn:?
     | |- context [wait_for_threads ?x] => rewrite wait_for_threads_run
     | |- context [match first_interrupt ?a ?b with _ => _ end] =>
         destruct (first_interrupt a b) eqn:?
     | |- context [if ?b then _ else _] => destruct b eqn:?
     end);
    try congruence; cbn -[Nat.max]; auto.
  all: match goal with H : _ && _ = false |- _ => cbn in H; discriminate H end.
Qed.

(** X4. A run that ends without the flag of a repeated Ctrl+C, and otherwise
    than by an exception for which the run has no handler, leaves no
    worker alive: [threading.active_count()] is 1 when [runThreads]
    returns, or raises the cancellation or an [Exception].
    The flush of the session file and the cleanup function return in
    these runs. *)
Theorem no_worker_left_running (n : Z)
    (cleanupFunction forwardException threadChoice startThreadMsg : bool) (s : State) :
  let run := runThreads n cleanupFunction forwardException threadChoice startThreadMsg s in
  outcome run <> Diverge ->
  multipleCtrlC (kb (final run)) = false ->
  (forall ex, outcome run = Raise ex ->
     isinstance_Exception ex = true \/ isinstance ex KeyboardInterrupt = true) ->
  all_stopped (final run).
Proof.
  intros run Hends Hflag Hcaught.
  pose proof (region_of_run _ _ _ _ _ _ Hends) as Hregion.
  pose proof (runThreads_final n cleanupFunction forwardException threadChoice
                startThreadMsg s Hregion)
    as (Hout & _ & Hst & Hsp & _ & _ & Hm & _).
  fold run in Hout, Hst, Hsp, Hm.
  apply stopped_horizon. rewrite Hst, Hsp. rewrite Hm in Hflag.
  rewrite Hout in Hcaught. clear Hout Hst Hsp Hm Hends.
  pose proof (guarded_shape threadChoice startThreadMsg (entered n s) eq_refl) as Hshape.
  cbv zeta in Hshape. unfold try_except in *.
  destruct (guarded threadChoice startThreadMsg (entered n s)) as [[c1 s1] t1] eqn:Hg.
  unfold outcome at 1, final at 1 2 3 4 5 in Hshape. cbn [fst snd] in Hshape.
  assert (Hnone : forall l k, l = @nil nat -> (horizon l <= k)%nat)
    by (intros l k ->; unfold horizon; cbn; lia).
  destruct c1; try (cbn; auto; fail); [|now elim Hregion].
  unfold handlers in *.
  destruct (isinstance ex KeyboardInterrupt || isinstance ex SqlmapUserQuitException)
    eqn:Hcancel.
  - pose proof (on_interrupt_run forwardException ex s1) as (_ & Hflag' & _).
    pose proof (on_interrupt_waits forwardException ex s1) as Hwaits.
    destruct (on_interrupt forwardException ex s1) as [[c2 s2] t2].
    unfold final in *. cbn [fst snd] in *.
    destruct (escalation s1); [congruence|].
    destruct (Hwaits eq_refl) as [-> ->]. lia.
  - assert (Hki : isinstance ex KeyboardInterrupt = false)
      by (destruct (isinstance ex KeyboardInterrupt); [discriminate Hcancel|reflexivity]).
    destruct (isinstance ex SqlmapConnectionException || isinstance ex SqlmapValueException)
      eqn:Hfailure.
    + assert (Hex : isinstance_Exception ex = true)
        by (destruct ex as [[] ?]; try reflexivity; discriminate Hfailure).
      destruct Hshape as [Hshape|Hshape]; [|congruence].
      destruct (on_failure ex s1) as [[c2 s2] t2] eqn:Hh.
      destruct (workers_on_failure _ _ _ _ _ Hh) as [[Hstarted _] _].
      unfold final. cbn [fst snd]. apply Hnone. congruence.
    + destruct (isinstance_Exception ex) eqn:Hex.
      * destruct Hshape as [Hshape|Hshape]; [|congruence].
        destruct (on_exception ex s1) as [[c2 s2] t2] eqn:Hh.
        destruct (workers_on_exception _ _ _ _ _ Hh) as [[Hstarted _] _].
        unfold final. cbn [fst snd]. apply Hnone. congruence.
      * exfalso. destruct (Hcaught ex eq_refl); congruence.
Qed.

(** ** What leaves the adapter of a worker *)

(** X5. The adapter on an [Exception] of the thread function when
    [conf.get("verbose")] is a number [v]: the exception ends there, the
    state is as the thread function left it, and the traceback follows
    the log entry when [v] is above 1 and the exception is not a
    [SqlmapConnectionException].  When [conf.get("verbose")] is [None]
    and the exception is reported, Python 3 raises [TypeError] out of the
    adapter after the log entry, and Python 2 prints no traceback. *)
Theorem adapter_traceback (threadFunction : M unit) (silent : bool)
    (s : State) (ex : exn) (s1 : State) (t1 : list event) :
  threadFunction s = (Raise ex, s1, t1) ->
  isinstance_Exception ex = true ->
  let entry := EvLog ERROR (MsgThread (currentThread env) (errMsg ex)) in
  (forall v, conf_get (conf s1) "verbose" = Some v ->
     exceptionHandledFunction threadFunction silent s
     = (Normal tt, s1,
        t1 ++ if reports silent (kb s1) ex
              then entry :: (if (1 <? v) && negb (isinstance ex SqlmapConnectionException)
                             then [EvTraceback] else [])
              else []))
  /\ (conf_get (conf s1) "verbose" = None ->
      reports silent (kb s1) ex = true ->
      exceptionHandledFunction threadFunction silent s
      = (if PY3 env then Raise None_gt_1 else Normal tt, s1, t1 ++ [entry])).
Proof.
  intros Hraise Hex entry.
  assert (Hki : isinstance ex KeyboardInterrupt = false)
    by (destruct ex as [[] ?]; auto; discriminate Hex).
  unfold exceptionHandledFunction, try_except. rewrite Hraise, Hki, Hex.
  split.
  - intros v Hv. unfold bind at 1, get. cbn [fst snd].
    destruct (reports silent (kb s1) ex); [|reflexivity].
    unfold bind, emit, gt_1, when. rewrite Hv. cbn.
    destruct ((1 <? v) && negb (isinstance ex SqlmapConnectionException)); reflexivity.
  - intros Hv Hrep. unfold bind at 1, get. cbn [fst snd]. rewrite Hrep.
    unfold bind, emit, gt_1, when, None_gt_1. rewrite Hv.
    destruct (PY3 env); reflexivity.
Qed.

(** X6. An exception leaves the adapter only if it is one that the thread
    function raised outside of [Exception] ([KeyboardInterrupt],
    [SystemExit]), or the [TypeError] of the comparison of a missing
    [conf.get("verbose")] with 1 in Python 3: an [Exception] of the thread
    function never leaves it. *)
Theorem adapter_lets_out (threadFunction : M unit) (silent : bool) (s : State) (ex : exn) :
  outcome (exceptionHandledFunction threadFunction silent s) = Raise ex ->
  (outcome (threadFunction s) = Raise ex /\ isinstance_Exception ex = false)
  \/ (ex = None_gt_1
      /\ PY3 env = true
      /\ conf_get (conf (final (threadFunction s))) "verbose" = None
      /\ exists ex0, outcome (threadFunction s) = Raise ex0
                     /\ reports silent (kb (final (threadFunction s))) ex0 = true).
Proof.
  unfold exceptionHandledFunction, try_except.
  destruct (threadFunction s) as [[c1 s1] t1].
  unfold outcome, final. cbn [fst snd].
  destruct c1 as [[]| | |ex0|]; try discriminate.
  destruct (isinstance ex0 KeyboardInterrupt) eqn:Hki.
  - cbn. intros [= <-]. left. split; [reflexivity|].
    destruct ex0 as [[] ?]; try discriminate Hki; reflexivity.
  - destruct (isinstance_Exception ex0) eqn:Hex.
    + unfold bind at 1, get. cbn [fst snd].
      destruct (reports silent (kb s1) ex0) eqn:Hrep; [|discriminate].
      unfold bind, emit, gt_1, when.
      destruct (conf_get (conf s1) "verbose") as [v|] eqn:Hv.
      * cbn. destruct (_ && _); discriminate.
      * destruct (PY3 env); [|discriminate].
        cbn. intros [= <-]. right. repeat split; eauto.
    + cbn. intros [= <-]. left. auto.
Qed.

(** ** The handlers of the failures *)

(** The handler of [SqlmapConnectionException] and [SqlmapValueException]
    prints, sets [kb.threadException], logs the error, and then compares
    [conf.get("详细的")] with 1. *)
Lemma on_failure_run (ex : exn) (s : State) :
  on_failure ex s
  = (match conf_get (conf s) "详细的" with
     | Some _ => Normal tt
     | None => if PY3 env then Raise None_gt_1 else Normal tt
     end,
     MkState (set_threadException true (kb s)) (conf s) (numThreads s) (started s) (steps s),
     [EvPrint; EvLog ERROR (MsgFailure (currentThread env) ex)]
     ++ match conf_get (conf s) "详细的" with
        | Some v => if (1 <? v) && isinstance ex SqlmapValueException then [EvTraceback] else []
        | None => []
        end).
Proof.
  unfold on_failure, bind, emit, set_kb, modify, get, gt_1, when, None_gt_1.
  cbn [conf].
  destruct (conf_get (conf s) "详细的") as [v|]; [|destruct (PY3 env); reflexivity].
  cbn. destruct ((1 <? v) && isinstance ex SqlmapValueException); reflexivity.
Qed.

(** X7. A [SqlmapConnectionException] or [SqlmapValueException] raised in the
    guarded region is logged as an error; the run then ends normally when
    [conf] has a number under the key ["详细的"] that the handler reads,
    with a traceback for a [SqlmapValueException] when that number is
    above 1.  When [conf] has nothing under that key, the comparison of
    [None] with 1 makes the run raise [TypeError] in Python 3, and end
    normally in Python 2.  The teardown follows in every case.
    The flush of the session file and the cleanup function return in
    these runs. *)
Theorem failure_logged (n : Z)
    (cleanupFunction forwardException threadChoice startThreadMsg : bool)
    (s : State) (ex : exn) (s1 : State) (t1 : list event) :
  guarded threadChoice startThreadMsg (entered n s) = (Raise ex, s1, t1) ->
  isinstance ex SqlmapConnectionException || isinstance ex SqlmapValueException = true ->
  let run := runThreads n cleanupFunction forwardException threadChoice startThreadMsg s in
  outcome run
  = match conf_get (conf s) "详细的" with
    | Some _ => Normal tt
    | None => if PY3 env then Raise None_gt_1 else Normal tt
    end
  /\ trace run
     = t1 ++ [EvPrint; EvLog ERROR (MsgFailure (currentThread env) ex)]
       ++ match conf_get (conf s) "详细的" with
          | Some v =>
              if (1 <? v) && isinstance ex SqlmapValueException then [EvTraceback] else []
          | None => []
          end
       ++ teardown_trace cleanupFunction s.
Proof.
  intros Hg Hclass run.
  destruct (options_guarded _ _ _ _ _ _ Hg) as [Hoptions _].
  change (conf_get (conf s1) = conf_get (conf s)) in Hoptions.
  assert (Hcancel : isinstance ex KeyboardInterrupt || isinstance ex SqlmapUserQuitException
                    = false)
    by (destruct ex as [[] ?]; try reflexivity; discriminate Hclass).
  assert (Hregion :
    try_except (guarded threadChoice startThreadMsg) (handlers forwardException)
      (entered n s)
    = (outcome (on_failure ex s1), final (on_failure ex s1), t1 ++ trace (on_failure ex s1))).
  { unfold try_except, handlers. rewrite Hg, Hcancel, Hclass.
    destruct (on_failure ex s1) as [[c2 s2] t2]. reflexivity. }
  pose proof (runThreads_final n cleanupFunction forwardException threadChoice
                startThreadMsg s) as Hfinal.
  cbv zeta in Hfinal. fold run in Hfinal. rewrite Hregion in Hfinal.
  rewrite on_failure_run, Hoptions in Hfinal.
  unfold outcome, trace, final in *. cbn [fst snd] in Hfinal.
  destruct Hfinal as (Hout & Htrace & _).
  { destruct (conf_get (conf s) "详细的"); [|destruct (PY3 env)]; discriminate. }
  rewrite Hout, Htrace. split.
  - destruct (conf_get (conf s) "详细的"); [|destruct (PY3 env)]; reflexivity.
  - rewrite <- !app_assoc. reflexivity.
Qed.

(** ** The exceptions that leave a run *)

Lemma on_exception_run (ex : exn) (s : State) :
  multipleCtrlC (kb s) = false ->
  outcome (on_exception ex s)
  = if isinstance ex sqlite3_Error then Raise ex else Normal tt.
Proof.
  intros Hflag. unfold on_exception, bind, emit, get, set_kb, modify, outcome.
  cbn [fst snd]. rewrite Hflag. cbn.
  destruct (isinstance ex sqlite3_Error); reflexivity.
Qed.

(** X8. An exception leaves [runThreads] only if it is the one that the
    flush of the session file or the cleanup function raised in the
    teardown, which may be any exception, or, when neither raised: a
    cancellation ([KeyboardInterrupt], [SqlmapUserQuitException]), when
    [forwardException] is set or a repeated Ctrl+C was flagged; the
    [SqlmapThreadException] of a repeated Ctrl+C; an instance of
    [sqlite3.Error]; the [TypeError] of the comparison of a missing
    [conf.get("详细的")] with 1 in Python 3; or an exception outside of
    [Exception] other than [KeyboardInterrupt].  In particular no
    [SqlmapConnectionException] and no [SqlmapValueException] leaves it
    unless the flush or the cleanup raised it. *)
Theorem exceptions_that_leave (n : Z)
    (cleanupFunction forwardException threadChoice startThreadMsg : bool)
    (s : State) (ex : exn) :
  let run := runThreads n cleanupFunction forwardException threadChoice startThreadMsg s in
  outcome run = Raise ex ->
  teardown_failure cleanupFunction s = Some ex
  \/ (teardown_failure cleanupFunction s = None
      /\ ((cancels ex = true
           /\ (forwardException = true \/ multipleCtrlC (kb (final run)) = true))
          \/ (ex = Exn SqlmapThreadException multipleCtrlC_message
              /\ multipleCtrlC (kb (final run)) = true)
          \/ isinstance ex sqlite3_Error = true
          \/ (ex = None_gt_1 /\ PY3 env = true /\ conf_get (conf s) "详细的" = None)
          \/ (isinstance_Exception ex = false /\ isinstance ex KeyboardInterrupt = false))
      /\ isinstance ex SqlmapConnectionException = false
      /\ isinstance ex SqlmapValueException = false).
Proof.
  clear flush_returns cleanup_returns.
  intros run Hraise. subst run.
  assert (Hends :
    outcome (runThreads n cleanupFunction forwardException threadChoice startThreadMsg s)
    <> Diverge) by (rewrite Hraise; discriminate).
  pose proof (run_final n cleanupFunction forwardException threadChoice startThreadMsg s
                (region_of_run _ _ _ _ _ _ Hends)) as Hfinal.
  cbv zeta in Hfinal. destruct Hfinal as (Hout & _ & _ & _ & _ & _ & Hflag & _).
  unfold ended in Hout.
  destruct (teardown_failure cleanupFunction s) as [e|] eqn:Hfail.
  - left. rewrite Hout in Hraise. now injection Hraise as ->.
  - right. split; [reflexivity|].
    assert (Hmain :
      (cancels ex = true
       /\ (forwardException = true
           \/ multipleCtrlC
                (kb (final (runThreads n cleanupFunction forwardException threadChoice
                              startThreadMsg s))) = true))
      \/ (ex = Exn SqlmapThreadException multipleCtrlC_message
          /\ multipleCtrlC
               (kb (final (runThreads n cleanupFunction forwardException threadChoice
                             startThreadMsg s))) = true)
      \/ isinstance ex sqlite3_Error = true
      \/ (ex = None_gt_1 /\ PY3 env = true /\ conf_get (conf s) "详细的" = None)
      \/ (isinstance_Exception ex = false /\ isinstance ex KeyboardInterrupt = false)).
    { rewrite Hout in Hraise. rewrite Hflag. clear Hout Hflag Hends.
      pose proof (guarded_unflagged n threadChoice startThreadMsg s) as [Hunflagged _].
      unfold try_except in *.
      destruct (guarded threadChoice startThreadMsg (entered n s)) as [[c1 s1] t1] eqn:Hg.
      unfold final at 1 in Hunflagged. cbn [fst snd] in Hunflagged.
      destruct c1 as [[]| | |ex0|]; try discriminate Hraise.
      unfold handlers in *. unfold cancels.
      destruct (isinstance ex0 KeyboardInterrupt || isinstance ex0 SqlmapUserQuitException)
        eqn:Hcancel.
      - pose proof (on_interrupt_run forwardException ex0 s1) as (Hout & Hflag & _).
        destruct (on_interrupt forwardException ex0 s1) as [[c2 s2] t2].
        unfold outcome, final in *. cbn [fst snd] in *. subst c2. rewrite Hflag.
        unfold escalation in *.
        destruct (in_window s1).
        + cbn in Hraise. injection Hraise as <-. left. auto.
        + destruct (second_signal s1).
          * cbn in Hraise. injection Hraise as <-. right. left. auto.
          * destruct forwardException; [|discriminate Hraise].
            cbn in Hraise. injection Hraise as <-. left. auto.
      - destruct (isinstance ex0 SqlmapConnectionException || isinstance ex0 SqlmapValueException).
        + destruct (options_guarded _ _ _ _ _ _ Hg) as [Hoptions _].
          change (conf_get (conf s1) = conf_get (conf s)) in Hoptions.
          rewrite on_failure_run, Hoptions in Hraise.
          unfold outcome in Hraise. cbn [fst snd] in Hraise.
          destruct (conf_get (conf s) "详细的"); [discriminate Hraise|].
          destruct (PY3 env); [|discriminate Hraise].
          cbn in Hraise. injection Hraise as <-. right. right. right. left. auto.
        + destruct (isinstance_Exception ex0) eqn:Hex.
          * pose proof (on_exception_run ex0 s1 Hunflagged) as Hout.
            destruct (on_exception ex0 s1) as [[c2 s2] t2].
            unfold outcome in *. cbn [fst snd] in *. subst c2.
            destruct (isinstance ex0 sqlite3_Error) eqn:Hsql; [|discriminate Hraise].
            cbn in Hraise. injection Hraise as <-. right. right. left. exact Hsql.
          * unfold outcome in Hraise. cbn in Hraise. injection Hraise as <-.
            right. right. right. right. split; [exact Hex|].
            destruct (isinstance ex0 KeyboardInterrupt); [discriminate Hcancel|reflexivity]. }
    split; [exact Hmain|].
    destruct Hmain as [[H _]|[[-> _]|[H|[[-> _]|[H _]]]]];
      try (split; reflexivity);
      destruct ex as [[] ?]; try discriminate H; split; reflexivity.
Qed.

(** ** The events of a statement *)

Section Emits.

Variable P : event -> bool.

Lemma emits_ret {A} (a : A) : emits P (ret a).
Proof. intros s; reflexivity. Qed.

Lemma emits_raise {A} (ex : exn) : emits P (@raise A ex).
Proof. intros s; reflexivity. Qed.

Lemma emits_return {A} : emits P (@return_ A).
Proof. intros s; reflexivity. Qed.

Lemma emits_break {A} : emits P (@break A).
Proof. intros s; reflexivity. Qed.

Lemma emits_diverge {A} : emits P (@diverge A).
Proof. intros s; reflexivity. Qed.

Lemma emits_get : emits P get.
Proof. intros s; reflexivity. Qed.

Lemma emits_modify (f : State -> State) : emits P (modify f).
Proof. intros s; reflexivity. Qed.

Lemma emits_emit (e : event) : P e = true -> emits P (emit e).
Proof. intros He s. cbn. now rewrite He. Qed.

Lemma emits_bind {A B} (m : M A) (k : A -> M B) :
  emits P m -> (forall a, emits P (k a)) -> emits P (bind m k).
Proof.
  intros Hm Hk s. specialize (Hm s). unfold bind, trace in *.
  destruct (m s) as [[c1 s1] t1]. cbn [snd] in Hm.
  destruct c1; try exact Hm.
  specialize (Hk a s1). unfold trace in Hk.
  destruct (k a s1) as [[c2 s2] t2]. cbn [snd] in *.
  rewrite forallb_app, Hm, Hk. reflexivity.
Qed.

Lemma emits_when (b : bool) (m : M unit) : emits P m -> emits P (when b m).
Proof. destruct b; cbn; auto. intros _. apply emits_ret. Qed.

Lemma emits_try_except {A} (body : M A) (handlers : exn -> option (M A)) :
  emits P body ->
  (forall ex h, handlers ex = Some h -> emits P h) ->
  emits P (try_except body handlers).
Proof.
  intros Hb Hh s. specialize (Hb s). unfold try_except, trace in *.
  destruct (body s) as [[c1 s1] t1]. cbn [snd] in Hb.
  destruct c1; try exact Hb.
  destruct (handlers ex) as [h|] eqn:Eh; [|exact Hb].
  specialize (Hh _ _ Eh s1). unfold trace in Hh.
  destruct (h s1) as [[c2 s2] t2]. cbn [snd] in *.
  rewrite forallb_app, Hb, Hh. reflexivity.
Qed.

Lemma emits_try_finally {A} (body : M A) (final : M unit) :
  emits P body -> emits P final -> emits P (try_finally body final).
Proof.
  intros Hb Hf s. specialize (Hb s). unfold try_finally, trace in *.
  destruct (body s) as [[c1 s1] t1]. cbn [snd] in Hb.
  specialize (Hf s1). unfold trace in Hf.
  destruct (final s1) as [[c2 s2] t2]. cbn [snd] in Hf.
  destruct c1; destruct c2; cbn [snd]; rewrite ?forallb_app, ?Hb, ?Hf; reflexivity.
Qed.

Lemma emits_for_each {A} (l : list A) (body : A -> M unit) :
  (forall x, emits P (body x)) -> emits P (for_each l body).
Proof.
  intros Hb. induction l as [|x l IH]; cbn [for_each]; [apply (@emits_ret unit)|].
  intros s. specialize (Hb x s). unfold trace in *.
  destruct (body x s) as [[c1 s1] t1]. cbn [snd] in Hb.
  destruct c1; try exact Hb.
  specialize (IH s1). unfold trace in IH.
  destruct (for_each l body s1) as [[c2 s2] t2]. cbn [snd] in *.
  rewrite forallb_app, Hb, IH. reflexivity.
Qed.

Lemma emits_call (m : M unit) : emits P m -> emits P (call m).
Proof.
  intros Hm s. specialize (Hm s). unfold call, trace in *.
  destruct (m s) as [[c1 s1] t1]. destruct c1; exact Hm.
Qed.

End Emits.

(** The structural step of a proof about the events of a statement. *)
Ltac emits_step :=
  match goal with
  | |- emits _ (bind _ _) => apply emits_bind; [|intros ?]
  | |- emits _ (when _ _) => apply emits_when
  | |- emits _ (try_except _ _) => apply emits_try_except; [|quiet_clause]
  | |- emits _ (try_finally _ _) => apply emits_try_finally
  | |- emits _ (for_each _ _) => apply emits_for_each; intros ?
  | |- emits _ (call _) => apply emits_call
  | |- emits _ (ret _) => apply emits_ret
  | |- emits _ skip => apply emits_ret
  | |- emits _ (raise _) => apply emits_raise
  | |- emits _ return_ => apply emits_return
  | |- emits _ break => apply emits_break
  | |- emits _ diverge => apply emits_diverge
  | |- emits _ get => apply emits_get
  | |- emits _ (emit _) => apply emits_emit; reflexivity
  | |- emits _ (set_kb _) => apply emits_modify
  | |- emits _ (modify _) => apply emits_modify
  | |- emits _ (if ?b then _ else _) => destruct b
  | |- emits _ (match ?x with _ => _ end) => destruct x
  end.

Ltac emits_auto :=
  repeat first
    [ emits_step
    | progress unfold tick, set_started, set_threads, set_numThreads, setDaemon,
        thread_start, gt_1, time_time, time_sleep, is_alive, active_count,
        call_threadFunction, lock_release ].

(** ** The prompt is the only reader *)

Lemma unread_poll (threads : list nat) (alive : bool) : emits unread (poll threads alive).
Proof.
  revert alive. induction threads as [|th l IH]; intros alive; cbn [poll]; emits_auto; auto.
Qed.

Lemma unread_wait (fuel : nat) (threads : list nat) : emits unread (wait fuel threads).
Proof.
  induction fuel as [|fuel IH]; cbn [wait]; emits_auto; auto using unread_poll.
Qed.

Lemma unread_busy_wait (fuel : nat) : emits unread (busy_wait fuel).
Proof. induction fuel as [|fuel IH]; cbn [busy_wait]; emits_auto; auto. Qed.

Lemma unread_choose_threads : emits unread (choose_threads false).
Proof. intros s. reflexivity. Qed.

Lemma unread_guarded (startThreadMsg : bool) : emits unread (guarded false startThreadMsg).
Proof.
  unfold guarded, _threadFunction, start_threads.
  emits_auto; auto using unread_wait, unread_choose_threads.
Qed.

Lemma unread_handlers (forwardException : bool) (ex : exn) (h : M unit) :
  handlers forwardException ex = Some h -> emits unread h.
Proof.
  revert ex h. unfold handlers. quiet_clause;
    unfold on_interrupt, on_failure, on_exception, pressed_again, wait_for_threads;
    emits_auto; auto using unread_busy_wait.
Qed.

Lemma unread_teardown (cleanupFunction : bool) : emits unread (teardown cleanupFunction).
Proof.
  clear flush_returns cleanup_returns.
  unfold teardown, release_locks, release_held, hashDB_flush, call_cleanupFunction.
  emits_auto.
Qed.

(** A run that does not offer the choice of the number of threads does
    not call [readInput]. *)
Lemma unread_runThreads (n : Z) (cleanupFunction forwardException startThreadMsg : bool) :
  emits unread (runThreads n cleanupFunction forwardException false startThreadMsg).
Proof.
  clear flush_returns cleanup_returns.
  unfold runThreads, reset. emits_auto;
    eauto using unread_guarded, unread_handlers, unread_teardown.
Qed.

Lemma existsb_negb {A} (p : A -> bool) (l : list A) :
  existsb (fun x => negb (p x)) l = negb (forallb p l).
Proof.
  induction l as [|x l IH]; cbn; [reflexivity|].
  rewrite IH. destruct (p x); reflexivity.
Qed.

(** The condition of the prompt, as the run evaluates it. *)
Lemma asks_due (threadChoice : bool) (n : Z) (s : State) :
  asks threadChoice (entered n s) = due threadChoice n s.
Proof.
  unfold asks, due.
  change (numThreads (entered n s)) with n.
  change (conf (entered n s)) with (conf s).
  change (injection_data (kb (entered n s))) with (injection_data (kb s)).
  destruct threadChoice; [|reflexivity]. cbn [andb].
  destruct (Z.eqb_spec n 1) as [->|Hn]; [|now rewrite !andb_false_r].
  destruct (injection_data (kb s)) as [|t l]; [reflexivity|].
  rewrite existsb_negb. cbn [negb andb]. now rewrite negb_involutive.
Qed.

Lemma choose_threads_skip (threadChoice : bool) (s : State) :
  asks threadChoice s = false -> choose_threads threadChoice s = (Normal tt, s, []).
Proof. intros Hasks. unfold choose_threads, bind, get. cbn. now rewrite Hasks. Qed.

Lemma bind_same {A B} (m m' : M A) (k : A -> M B) (s : State) :
  m s = m' s -> bind m k s = bind m' k s.
Proof. intros H. unfold bind. now rewrite H. Qed.

Lemma runThreads_unasked (n : Z)
    (cleanupFunction forwardException threadChoice startThreadMsg : bool) (s : State) :
  asks threadChoice (entered n s) = false ->
  runThreads n cleanupFunction forwardException threadChoice startThreadMsg s
  = runThreads n cleanupFunction forwardException false startThreadMsg s.
Proof.
  intros Hasks. unfold runThreads, call. rewrite !entered_run.
  assert (Hguarded : guarded threadChoice startThreadMsg (entered n s)
                     = guarded false startThreadMsg (entered n s)).
  { unfold guarded. apply bind_same.
    rewrite (choose_threads_skip _ _ Hasks), (choose_threads_skip false) by reflexivity.
    reflexivity. }
  unfold try_finally, try_except. now rewrite Hguarded.
Qed.

Lemma count_unread (t : list event) :
  forallb unread t = true -> count is_read t = 0%nat.
Proof.
  unfold count, unread. induction t as [|e t IH]; cbn; [reflexivity|].
  destruct (is_read e); cbn; [discriminate|exact IH].
Qed.

(** The trace of a statement begins with [t]. *)
Lemma begins_bind {A B} (m : M A) (k : A -> M B) (s : State) (t : list event) :
  (exists rest, trace (m s) = t ++ rest) ->
  exists rest, trace (bind m k s) = t ++ rest.
Proof.
  intros [rest Hm]. unfold bind, trace in *.
  destruct (m s) as [[c1 s1] t1]. cbn [snd] in Hm. subst t1.
  destruct c1; try (exists rest; reflexivity).
  destruct (k a s1) as [[c2 s2] t2]. exists (rest ++ t2). cbn. now rewrite app_assoc.
Qed.

Lemma begins_get {A} (k : State -> M A) (s : State) (t : list event) :
  (exists rest, trace (k s s) = t ++ rest) ->
  exists rest, trace ((x <- get ;; k x) s) = t ++ rest.
Proof.
  intros [rest Hk]. unfold bind, get, trace in *.
  destruct (k s s) as [[c2 s2] t2]. cbn [snd] in *. subst t2. exists rest. reflexivity.
Qed.

Lemma begins_try_except {A} (body : M A) (handlers : exn -> option (M A))
    (s : State) (t : list event) :
  (exists rest, trace (body s) = t ++ rest) ->
  exists rest, trace (try_except body handlers s) = t ++ rest.
Proof.
  intros [rest Hb]. unfold try_except, trace in *.
  destruct (body s) as [[c1 s1] t1]. cbn [snd] in Hb. subst t1.
  destruct c1; try (exists rest; reflexivity).
  destruct (handlers ex) as [h|]; [|exists rest; reflexivity].
  destruct (h s1) as [[c2 s2] t2]. exists (rest ++ t2). cbn. now rewrite app_assoc.
Qed.

Lemma begins_try_finally {A} (body : M A) (final : M unit) (s : State) (t : list event) :
  (exists rest, trace (body s) = t ++ rest) ->
  exists rest, trace (try_finally body final s) = t ++ rest.
Proof.
  intros [rest Hb]. unfold try_finally, trace in *.
  destruct (body s) as [[c1 s1] t1]. cbn [snd] in Hb. subst t1.
  destruct (final s1) as [[c2 s2] t2].
  destruct c1; destruct c2; cbn [snd];
    first [exists rest; reflexivity | exists (rest ++ t2); now rewrite app_assoc].
Qed.

Lemma begins_while_True (a : answer) (answers : list answer) (body : answer -> M unit)
    (s : State) (t : list event) :
  (exists rest, trace (body a s) = t ++ rest) ->
  exists rest, trace (while_True (a :: answers) body s) = t ++ rest.
Proof.
  intros [rest Hb]. cbn [while_True]. unfold trace in *.
  destruct (body a s) as [[c1 s1] t1]. cbn [snd] in Hb. subst t1.
  destruct c1; try (exists rest; reflexivity).
  destruct (while_True answers body s1) as [[c2 s2] t2].
  exists (rest ++ t2). cbn. now rewrite app_assoc.
Qed.

(** X9. The choice of the number of threads is offered exactly when
    [threadChoice] is set, [conf.threads] and [numThreads] are both 1,
    and the injection data are empty or hold a technique that is neither
    time-based nor stacked.  When it is not offered the run never calls
    [readInput]; when it is, the call of [readInput], with [numThreads]
    for its default, is the first thing the run does. *)
Theorem prompt_only_when_due (n : Z)
    (cleanupFunction forwardException threadChoice startThreadMsg : bool) (s : State) :
  let run := runThreads n cleanupFunction forwardException threadChoice startThreadMsg s in
  (due threadChoice n s = false -> count is_read (trace run) = 0%nat)
  /\ (due threadChoice n s = true ->
      readInput env <> [] ->
      exists rest, trace run = EvReadInput 1 :: rest).
Proof.
  clear flush_returns cleanup_returns.
  intros run. subst run. rewrite <- asks_due. split.
  - intros Hasks. rewrite (runThreads_unasked _ _ _ _ _ _ Hasks).
    apply count_unread, unread_runThreads.
  - intros Hasks Hanswers.
    assert (Hn : n = 1).
    { rewrite asks_due in Hasks. unfold due in Hasks.
      destruct (Z.eqb_spec n 1); [assumption|].
      now rewrite andb_false_r in Hasks. }
    subst n.
    change (EvReadInput 1 :: ?r) with ([EvReadInput 1] ++ r).
    unfold runThreads, call.
    assert (Hbody : exists rest,
              trace ((set_numThreads 1 ;; reset ;;
                      try_finally
                        (try_except (guarded threadChoice startThreadMsg)
                           (handlers forwardException))
                        (teardown cleanupFunction)) s)
              = [EvReadInput 1] ++ rest).
    { rewrite entered_run.
      apply begins_try_finally, begins_try_except. unfold guarded.
      apply begins_bind. unfold choose_threads. unfold bind at 1, get at 1.
      rewrite Hasks. cbn [when].
      destruct (readInput env) as [|a answers]; [now elim Hanswers|].
      assert (Hloop : exists rest,
                trace (while_True (a :: answers) prompt (entered 1 s))
                = [EvReadInput 1] ++ rest).
      { apply begins_while_True. unfold prompt. apply begins_get, begins_bind.
        exists []. reflexivity. }
      destruct Hloop as [rest Hloop].
      pose proof (begins_bind (while_True (a :: answers) prompt)
                    (fun _ => s0 <- get ;;
                              when (numThreads s0 =? 1)
                                (emit (EvLog WARNING MsgSingleThread)))
                    (entered 1 s) [EvReadInput 1] (ex_intro _ rest Hloop))
        as [rest' Hrest'].
      unfold trace in *.
      destruct (bind (while_True (a :: answers) prompt) _ (entered 1 s)) as [[c3 s3] t3].
      cbn [snd] in *. subst t3. exists rest'. reflexivity. }
    destruct Hbody as [rest Hbody]. unfold trace in *.
    destruct ((set_numThreads 1 ;; _) s) as [[c1 s1] t1].
    cbn [snd] in Hbody. subst t1. exists rest. destruct c1; reflexivity.
Qed.

(** ** The answers that the prompt does not accept *)

Lemma bang_not_digits (c : string) : endswith_bang c = true -> isDigit c = false.
Proof.
  intros Hbang. destruct (isDigit c) eqn:Hd; [|reflexivity].
  apply isDigit_digits, digits_no_bang in Hd. congruence.
Qed.

(** One turn of the prompt on an answer that is not a number, with or
    without the mark: nothing is logged and nothing changes. *)
Lemma prompt_ignores (c : string) (s : State) :
  isDigit (unmarked c) = false ->
  prompt (Answer c) s = (Normal tt, s, [EvReadInput (numThreads s)]).
Proof.
  intros Hc. unfold prompt, bind, get, emit. cbn [fst snd].
  destruct c as [|a r]; [reflexivity|].
  unfold unmarked in Hc. rewrite Hc. reflexivity.
Qed.

(** One turn of the prompt on a number within the limit. *)
Lemma prompt_accepts (d : string) (s : State) :
  isDigit d = true ->
  int d <= MAX_NUMBER_OF_THREADS ->
  prompt (Answer d) s = (Break, with_threads (int d) s, [EvReadInput (numThreads s)]).
Proof.
  intros Hd Hmax. pose proof (isDigit_digits _ Hd) as Hall.
  unfold prompt, bind, get, emit. cbn [fst snd].
  destruct d as [|c r]; [discriminate Hd|].
  rewrite (digits_no_bang _ Hall), Hd.
  apply Z.ltb_ge in Hmax. rewrite Hmax. reflexivity.
Qed.

(** X10. The prompt asks until it is given a number that it accepts.  An
    answer that is not a number (an empty one, a text, a lone ['!']) is
    passed over in silence, a number above [MAX_NUMBER_OF_THREADS]
    without the mark is refused with a log entry, and in both cases
    nothing changes; the first number within the limit, zero included,
    becomes [conf.threads] and [numThreads] and ends the prompt, which
    warns of the single thread when that number is 1.  The answers that
    follow are not read. *)
Theorem prompt_asks_until_accepted (threadChoice : bool)
    (refused : list string) (d : string) (rest : list answer) (s : State) :
  asks threadChoice s = true ->
  readInput env = map Answer refused ++ Answer d :: rest ->
  Forall (fun c => isDigit (unmarked c) = false
                   \/ (isDigit c = true /\ MAX_NUMBER_OF_THREADS < int c)) refused ->
  isDigit d = true ->
  int d <= MAX_NUMBER_OF_THREADS ->
  choose_threads threadChoice s
  = (Normal tt, with_threads (int d) s,
     flat_map (refusal (numThreads s)) refused
     ++ [EvReadInput (numThreads s)]
     ++ if int d =? 1 then [EvLog WARNING MsgSingleThread] else []).
Proof.
  intros Hasks Hanswers Hrefused Hd Hmax.
  assert (Hloop : while_True (map Answer refused ++ Answer d :: rest) prompt s
                  = (Normal tt, with_threads (int d) s,
                     flat_map (refusal (numThreads s)) refused
                     ++ [EvReadInput (numThreads s)])).
  { clear Hanswers.
    induction Hrefused as [|c l Hc _ IH]; cbn [map app while_True flat_map].
    - now rewrite prompt_accepts.
    - destruct Hc as [Hc|[Hc Hlimit]].
      + rewrite (prompt_ignores _ _ Hc), IH.
        assert (Hnot : isDigit c = false).
        { unfold unmarked in Hc. destruct (endswith_bang c) eqn:Hbang; [|exact Hc].
          now apply bang_not_digits. }
        replace (refusal (numThreads s) c) with [EvReadInput (numThreads s)]
          by (unfold refusal; now rewrite Hnot).
        now rewrite <- app_assoc.
      + rewrite (prompt_refuses _ _ Hc Hlimit), IH.
        replace (refusal (numThreads s) c)
          with [EvReadInput (numThreads s);
                EvLog CRITICAL (MsgMaxThreads MAX_NUMBER_OF_THREADS)]
          by (unfold refusal; now rewrite Hc).
        now rewrite <- app_assoc. }
  unfold choose_threads. unfold bind at 1, get at 1. cbn [fst snd].
  rewrite Hasks, Hanswers. cbn [when]. unfold bind at 1. rewrite Hloop.
  unfold bind, get. cbn [fst snd numThreads with_threads].
  destruct (int d =? 1); cbn; rewrite <- ?app_assoc; reflexivity.
Qed.

(** ** What the handler of a cancellation says *)

Lemma on_interrupt_trace (forwardException : bool) (ex : exn) (s : State) :
  trace (on_interrupt forwardException ex s) = announced ex s
  /\ prependFlag (kb (final (on_interrupt forwardException ex s))) = false.
Proof.
  unfold on_interrupt, announced, in_window,
    pressed_again, time_time, bind, emit, set_kb, modify, get, ret,
    when, raise, skip, trace, final, truthy.
  repeat
    (cbn -[wait_for_threads first_interrupt horizon Qle_bool Qminus Qeq_bool Nat.sub
           Nat.max Z.ltb];
     match goal with
     | |- context [match lastCtrlCTime (kb s) with _ => _ end] =>
         destruct (lastCtrlCTime (kb s)) eqn:?
     | |- context [wait_for_threads ?x] => rewrite wait_for_threads_run
     | |- context [match first_interrupt ?a ?b with _ => _ end] =>
         destruct (first_interrupt a b) eqn:?
     | |- context [if ?b then _ else _] => destruct b eqn:?
     end);
    try congruence; cbn; auto.
Qed.

(** X11. A cancellation that reaches the handler of a run ([KeyboardInterrupt]
    or [SqlmapUserQuitException]): the handler prints a line; unless the
    cancellation is within the window of a recorded one, and when more
    than one thread is in force, it logs that it waits for the threads,
    and says so of the Ctrl+C when the cancellation is a
    [KeyboardInterrupt]; it logs nothing else, whatever happens next; the
    teardown follows, and [kb.prependFlag] is left false.
    The flush of the session file and the cleanup function return in
    these runs. *)
Theorem cancellation_announced (n : Z)
    (cleanupFunction forwardException threadChoice startThreadMsg : bool)
    (s : State) (ex : exn) (s1 : State) (t1 : list event) :
  guarded threadChoice startThreadMsg (entered n s) = (Raise ex, s1, t1) ->
  cancels ex = true ->
  let run := runThreads n cleanupFunction forwardException threadChoice startThreadMsg s in
  trace run = t1 ++ announced ex s1 ++ teardown_trace cleanupFunction s
  /\ prependFlag (kb (final run)) = false.
Proof.
  intros Hg Hcancel run.
  pose proof (region_cancelled forwardException _ _ _ _ _ _ Hg Hcancel) as Hregion.
  cbv zeta in Hregion.
  pose proof (on_interrupt_run forwardException ex s1) as (Hout & _).
  pose proof (on_interrupt_trace forwardException ex s1) as (Htrace & Hflag).
  pose proof (runThreads_final n cleanupFunction forwardException threadChoice
                startThreadMsg s) as Hfinal.
  cbv zeta in Hfinal. fold run in Hfinal. rewrite Hregion in Hfinal.
  unfold outcome, trace, final in *. cbn [fst snd] in Hfinal.
  destruct Hfinal as (_ & Hrun & _ & _ & _ & _ & _ & Hprepend & _).
  { rewrite Hout. destruct (escalation s1); [|destruct forwardException]; discriminate. }
  rewrite Hrun, Hprepend, Htrace, Hflag, <- app_assoc. split; reflexivity.
Qed.

(** ** The handle of the session file *)

(** X12. When a session file is configured, its handle is closed in the thread
    that called the thread function, right after the call and however the
    call ended: in a worker before the adapter logs anything, and in a
    run with one thread before the flush of the teardown. *)
Theorem handle_closed_after_work (n : Z)
    (cleanupFunction forwardException threadChoice startThreadMsg : bool)
    (s s1 : State) (t1 : list event) :
  hashDB (conf s) = true ->
  (exists rest,
     trace (worker s) = [EvCall (currentThread env); EvClose] ++ rest
     /\ filter session_event rest = [])
  /\ (choose_threads threadChoice (entered n s) = (Normal tt, s1, t1) ->
      numThreads s1 <= 1 ->
      filter session_event
        (trace (runThreads n cleanupFunction forwardException threadChoice startThreadMsg s))
      = [EvCall (currentThread env); EvClose; EvFlush]).
Proof.
  clear flush_returns cleanup_returns.
  intros Hhandle. split.
  - unfold worker, exceptionHandledFunction, try_except.
    rewrite _threadFunction_run, Hhandle.
    destruct (threadFunction env) as [ex|]; [|exists []; split; reflexivity].
    destruct (isinstance ex KeyboardInterrupt); [exists []; split; reflexivity|].
    destruct (isinstance_Exception ex); [|exists []; split; reflexivity].
    unfold bind at 1, get. cbn [fst snd].
    destruct (reports false (kb s) ex); [|exists []; split; reflexivity].
    unfold bind, emit, gt_1, when, trace.
    destruct (conf_get (conf s) "verbose") as [v|]; [|destruct (PY3 env)]; cbn;
      try destruct (_ && _); cbn; eexists; split; reflexivity.
  - intros Hchoose Hone.
    destruct (run_single n cleanupFunction forwardException _ startThreadMsg
                _ _ _ Hchoose Hone) as (_ & -> & _).
    pose proof (choose_threads_events threadChoice (entered n s)) as Hprompt.
    rewrite Hchoose in Hprompt. unfold trace in Hprompt. cbn [snd] in Hprompt.
    rewrite Hhandle. rewrite filter_app, (filter_prompt _ t1); auto;
      [|intros [] He; try reflexivity; discriminate He].
    cbn [app filter session_event]. f_equal. f_equal.
    unfold teardown_events. rewrite !filter_app, Hhandle.
    assert (Hrel : filter session_event (released (locks (kb s))) = []).
    { unfold released. induction (locks (kb s)) as [|p l IH]; cbn; [reflexivity|].
      destruct (locked (snd p)); cbn; exact IH. }
    rewrite Hrel. destruct cleanupFunction, (flush_failure s); reflexivity.
Qed.

End Returning.

End Threads.

(** ** The properties on the scenarios *)

(** The cleanup function is called once in each of these runs, whose
    flush returns: three workers that run to their end; one thread whose
    thread function raises; two workers and Ctrl+C during the first
    sleep, forwarded to the caller; the same with Ctrl+C again during the
    wait of the handler; a [sqlite3.Error] at the prompt, raised again; a
    [SqlmapConnectionException] at the prompt, caught and logged. *)
Lemma cleanup_exactly_once_witness :
  count is_cleanup (trace (runThreads 10 quiet_work 3 true true false true idle)) = 1%nat
  /\ count is_cleanup (trace (runThreads 10 sqlite_work 1 true true false true idle)) = 1%nat
  /\ count is_cleanup (trace (runThreads 10 ctrlC_once 2 true true false true idle)) = 1%nat
  /\ count is_cleanup (trace (runThreads 10 ctrlC_twice 2 true false false true idle)) = 1%nat
  /\ count is_cleanup (trace (runThreads 10 sqlite_prompt 1 true true true true idle)) = 1%nat
  /\ count is_cleanup (trace (runThreads 10 connection_prompt 1 true true true true idle))
     = 1%nat.
Proof.
  repeat apply conj;
    match goal with
    | |- count is_cleanup (trace (runThreads _ ?e ?n true ?fe ?tc ?sm ?s)) = _ =>
        destruct (cleanup_exactly_once 10 e n fe tc sm s) as [Hcount _];
          [vm_compute; discriminate | exact Hcount]
    end.
Defined.

(** C1 fails as it is stated: with a session file whose flush raises, the
    run of three workers that run to their end raises the exception of
    the flush and the cleanup function is not called. *)
Lemma cleanup_exactly_once_counterexample :
  hashDB (conf idle) = true
  /\ flush failing_flush = Some (Exn sqlite3_Error "database or disk is full")
  /\ outcome (runThreads 10 failing_flush 3 true true false true idle)
     = Raise (Exn sqlite3_Error "database or disk is full")
  /\ trace (runThreads 10 failing_flush 3 true true false true idle)
     = [EvLog INFO (MsgStarting 3);
        EvDaemon 0; EvStart 0; EvDaemon 1; EvStart 1; EvDaemon 2; EvStart 2;
        EvSleep; EvSleep; EvSleep;
        EvRelease "cache"; EvRelease "io"; EvRelease "value"; EvFlush]
  /\ count is_cleanup (trace (runThreads 10 failing_flush 3 true true false true idle))
     = 0%nat.
Proof. repeat split. Qed.


(** A run of two workers cancelled by Ctrl+C, whose flush and cleanup
    return. *)
Lemma teardown_order_witness :
  outcome (runThreads 10 ctrlC_once 2 true true false true idle) <> Diverge
  /\ exists before,
       trace (runThreads 10 ctrlC_once 2 true true false true idle)
       = before ++ [EvRelease "cache"; EvRelease "io"; EvRelease "value"; EvFlush; EvCleanup]
       /\ Forall (fun e => teardown_event e = false) before.
Proof.
  split; [vm_compute; discriminate|].
  destruct (teardown_order 10 ctrlC_once 2 true true false true idle)
    as (before & Htrace & Hquiet & _); [vm_compute; discriminate|].
  exists before. split; [exact Htrace|exact Hquiet].
Defined.

(** C8 fails as it is stated: in a run with one thread whose flush
    raises, the teardown stops at the flush; of its three actions the
    cleanup is not executed, and the run, whose thread function had
    returned, raises the exception of the flush. *)
Lemma teardown_order_counterexample :
  threadFunction failing_flush = None
  /\ trace (runThreads 10 failing_flush 1 true true false true idle)
     = [EvCall "MainThread"; EvClose;
        EvRelease "cache"; EvRelease "io"; EvRelease "value"; EvFlush]
  /\ filter is_cleanup (trace (runThreads 10 failing_flush 1 true true false true idle)) = []
  /\ outcome (runThreads 10 failing_flush 1 true true false true idle)
     = Raise (Exn sqlite3_Error "database or disk is full")
  /\ finalized (final (runThreads 10 failing_flush 1 true true false true idle)).
Proof. repeat split. Qed.

(** With a limit of 10 threads, "99" is refused and "99!" gives 99
    threads. *)
Lemma prompt_override_witness :
  isDigit "99" = true
  /\ 10 < int "99"
  /\ trace (while_True [Answer "99"; Answer "99!"] (prompt 10) idle)
     = [EvReadInput 0; EvLog CRITICAL (MsgMaxThreads 10); EvReadInput 0]
  /\ numThreads (final (while_True [Answer "99"; Answer "99!"] (prompt 10) idle)) = 99.
Proof.
  destruct (prompt_override 10 "99" [Answer "99!"] idle eq_refl)
    as (Hrefused & _).
  destruct (prompt_override 10 "99" [] idle eq_refl)
    as (_ & _ & Hn & _ & Htrace).
  change ("99" ++ "!")%string with "99!" in *.
  split; [reflexivity|]. split; [reflexivity|].
  rewrite Hrefused by reflexivity. unfold trace, final in *. cbn [fst snd].
  rewrite Htrace, Hn. split; reflexivity.
Defined.

(** A worker whose thread function raises [sqlite3.Error] while the run is
    continuing logs the error. *)
Lemma exceptionHandledFunction_log_witness :
  In (EvLog ERROR (MsgThread "0" "Error: database is locked"))
     (trace (exceptionHandledFunction sqlite_worker (_threadFunction sqlite_worker) false idle)).
Proof.
  destruct (exceptionHandledFunction_log sqlite_worker (_threadFunction sqlite_worker)
              false idle (Exn sqlite3_Error "database is locked") idle
              [EvCall "0"; EvClose] eq_refl) as (Hlog & _).
  apply Hlog; reflexivity.
Defined.

(** C4 fails as it is stated: after a cancellation ([kb.threadContinue]
    false) the [SqlmapConnectionException] of a worker's thread function,
    which is not one of the two silent exceptions, ends in the adapter and
    nothing is logged. *)
Lemma exceptionHandledFunction_log_counterexample :
  threadFunction connection_worker
  = Some (Exn SqlmapConnectionException "connection timed out")
  /\ outcome (worker connection_worker not_continuing) = Normal tt
  /\ count is_log (trace (worker connection_worker not_continuing)) = 0%nat.
Proof. repeat split. Qed.


(** C3 fails as it is stated.  The two Ctrl+C of the first run below are
    50 apart on the clock, and the second, which arrives while the handler
    of the first waits for the workers, is answered as a repeated Ctrl+C.
    And a repeated Ctrl+C is not a matter of one wait: the cancellation of
    [first_run] is a first one, its wait is over and the run has returned
    when [second_run], cancelled a quarter later at its prompt, answers
    with a repeated Ctrl+C. *)
Lemma cancellation_escalation_counterexample :
  (interrupt ctrlC_twice 0 = true
   /\ interrupt ctrlC_twice 5 = true
   /\ (1 < clock ctrlC_twice 5 - clock ctrlC_twice 0)%Q
   /\ outcome (runThreads 10 ctrlC_twice 2 true false false true idle)
      = Raise (Exn SqlmapThreadException multipleCtrlC_message)
   /\ multipleCtrlC (kb (final (runThreads 10 ctrlC_twice 2 true false false true idle)))
      = true)
  /\ (outcome (runThreads 10 first_run 2 true false false true idle) = Normal tt
      /\ multipleCtrlC (kb (final (runThreads 10 first_run 2 true false false true idle)))
         = false
      /\ lastCtrlCTime (kb (final (runThreads 10 first_run 2 true false false true idle)))
         = Some (1 # 4)
      /\ steps (final (runThreads 10 first_run 2 true false false true idle)) = 2%nat
      /\ clock second_run 2 = 2 # 4
      /\ outcome
           (runThreads 10 second_run 1 true false true true
              (final (runThreads 10 first_run 2 true false false true idle)))
         = Raise (Exn SqlmapUserQuitException multipleCtrlC_message)
      /\ multipleCtrlC
           (kb (final
                  (runThreads 10 second_run 1 true false true true
                     (final (runThreads 10 first_run 2 true false false true idle)))))
         = true).
Proof. vm_compute. repeat split. Qed.

(** The two ways of a repeated Ctrl+C: a second Ctrl+C during the wait of
    the handler, and a cancellation less than 1 after the one that an
    earlier run has recorded (the first run returns at step 2 with the
    time 1/4 recorded; the second is cancelled at 1/2). *)
Lemma cancellation_escalation_witness :
  outcome (runThreads 10 ctrlC_twice 2 true false false true idle)
  = Raise (Exn SqlmapThreadException multipleCtrlC_message)
  /\ outcome (runThreads 10 first_run 2 true false false true idle) = Normal tt
  /\ lastCtrlCTime (kb (final (runThreads 10 first_run 2 true false false true idle)))
     = Some (1 # 4)
  /\ outcome
       (runThreads 10 second_run 1 true false true true
          (final (runThreads 10 first_run 2 true false false true idle)))
     = Raise (Exn SqlmapUserQuitException multipleCtrlC_message).
Proof.
  split; [|split; [|split]].
  - edestruct (cancellation_escalation 10 ctrlC_twice eq_refl eq_refl 2 true false false true idle)
      as [_ Hsecond]; [reflexivity | reflexivity |].
    destruct (Hsecond eq_refl) as [_ [Hout _]]. exact Hout.
  - edestruct (cancellation_escalation 10 first_run eq_refl eq_refl 2 true false false true idle)
      as [_ Hfirst]; [reflexivity | reflexivity |].
    destruct (Hfirst eq_refl) as [_ [Hout _]]. exact Hout.
  - reflexivity.
  - let r := eval vm_compute in
        (guarded 10 second_run true true
           (entered second_run 1
              (final (runThreads 10 first_run 2 true false false true idle)))) in
    lazymatch r with
    | (Raise ?ex, ?s1, ?t1) =>
        destruct (cancellation_escalation 10 second_run eq_refl eq_refl 1 true false true true
                    (final (runThreads 10 first_run 2 true false false true idle))
                    ex s1 t1)
          as [Hwindow _]; [vm_compute; reflexivity | reflexivity |]
    end.
    destruct Hwindow as [Hout _]; [vm_compute; reflexivity | exact Hout].
Defined.

(** C5 fails as it is stated: the [sqlite3.Error] of a worker's thread
    function becomes an entry of the log and goes no further, and the one
    raised by the thread function of a run with one thread is dropped:
    the run returns normally. *)
Lemma sqlite3_Error_reraised_counterexample :
  threadFunction sqlite_worker = Some (Exn sqlite3_Error "database is locked")
  /\ worker sqlite_worker idle
     = (Normal tt, idle,
        [EvCall "0"; EvClose; EvLog ERROR (MsgThread "0" "Error: database is locked")])
  /\ threadFunction sqlite_work = Some (Exn sqlite3_Error "database is locked")
  /\ outcome (runThreads 10 sqlite_work 1 true true false true idle) = Normal tt.
Proof. repeat split. Qed.

(** A [sqlite3.Error] raised by [readInput], in the supervisor's thread,
    leaves the run. *)
Lemma sqlite3_Error_reraised_witness :
  outcome (runThreads 10 sqlite_prompt 1 true true true true idle)
  = Raise (Exn sqlite3_Error "database is locked").
Proof.
  destruct (sqlite3_Error_reraised 10 sqlite_prompt eq_refl eq_refl 1 true true true true idle
              (Exn sqlite3_Error "database is locked") eq_refl) as (Hrun & _ & _).
  edestruct Hrun as [Hout _]; [reflexivity|]. exact Hout.
Defined.

(** C2 fails as it is stated: called with [numThreads] 1 and
    [threadChoice], the run asks, is answered "2", starts two workers and
    does not call the thread function itself. *)
Lemma single_thread_synchronous_counterexample :
  count is_start (trace (runThreads 10 two_typed 1 true true true true idle)) = 2%nat
  /\ count is_call (trace (runThreads 10 two_typed 1 true true true true idle)) = 0%nat.
Proof. repeat split. Qed.

(** One thread kept at the prompt and a thread function that raises
    [SqlmapUserQuitException]: the only log entry is the prompt's
    warning. *)
Lemma single_thread_synchronous_witness :
  count is_start (trace (runThreads 10 one_kept 1 true true true true idle)) = 0%nat
  /\ filter is_call (trace (runThreads 10 one_kept 1 true true true true idle))
     = [EvCall "MainThread"]
  /\ outcome (runThreads 10 one_kept 1 true true true true idle) = Normal tt
  /\ count is_error_log (trace (runThreads 10 one_kept 1 true true true true idle)) = 0%nat
  /\ filter is_log (trace (runThreads 10 one_kept 1 true true true true idle))
     = [EvLog WARNING MsgSingleThread].
Proof.
  let r := eval vm_compute in (choose_threads 10 one_kept true (entered one_kept 1 idle)) in
  lazymatch r with
  | (Normal tt, ?s1, ?t1) =>
      apply (single_thread_synchronous 10 one_kept eq_refl eq_refl 1 true true true true idle s1 t1);
        [reflexivity | vm_compute; discriminate]
  end.
Defined.

(** One thread, a thread function that raises [sqlite3.Error] and
    [forwardException] true, with a flush and a cleanup that return: the
    run returns. *)
Lemma single_thread_returns_witness :
  outcome (runThreads 10 sqlite_work 1 true true false true idle) = Normal tt.
Proof.
  edestruct (single_thread_returns 10 sqlite_work 1 true true false true idle)
    as [Hout _]; [reflexivity | vm_compute; discriminate | exact Hout].
Defined.

(** C10 fails as it is stated: a run with one thread, whose thread
    function has returned, raises what its cleanup function raises, and
    what the flush of its session file raises when no cleanup function
    is given. *)
Lemma single_thread_returns_counterexample :
  (threadFunction failing_cleanup = None
   /\ cleanup failing_cleanup = Some (Exn SqlmapConnectionException "connection timed out")
   /\ outcome (runThreads 10 failing_cleanup 1 true false false true idle)
      = Raise (Exn SqlmapConnectionException "connection timed out"))
  /\ (threadFunction failing_flush = None
      /\ flush failing_flush = Some (Exn sqlite3_Error "database or disk is full")
      /\ outcome (runThreads 10 failing_flush 1 false false false true idle)
         = Raise (Exn sqlite3_Error "database or disk is full")).
Proof. repeat split. Qed.


(** Three workers that live for three steps. *)
Lemma workers_all_started_witness :
  outcome (runThreads 10 quiet_work 3 true true false true idle) = Normal tt
  /\ trace (runThreads 10 quiet_work 3 true true false true idle)
     = [EvLog INFO (MsgStarting 3);
        EvDaemon 0; EvStart 0; EvDaemon 1; EvStart 1; EvDaemon 2; EvStart 2;
        EvSleep; EvSleep; EvSleep;
        EvRelease "cache"; EvRelease "io"; EvRelease "value"; EvFlush; EvCleanup]
  /\ filter is_start (trace (runThreads 10 quiet_work 3 true true false true idle))
     = [EvStart 0; EvStart 1; EvStart 2]
  /\ count is_call (trace (runThreads 10 quiet_work 3 true true false true idle)) = 0%nat
  /\ all_stopped quiet_work (final (runThreads 10 quiet_work 3 true true false true idle)).
Proof.
  apply (workers_all_started 10 quiet_work eq_refl eq_refl 3 true true false true idle
           (entered quiet_work 3 idle) []);
    [reflexivity | reflexivity | reflexivity | reflexivity].
Defined.

(** Three workers asked for, the second of which cannot be started. *)
Lemma start_failure_ends_loop_witness :
  outcome (runThreads 10 refusing_start 3 true true false true idle) = Normal tt
  /\ trace (runThreads 10 refusing_start 3 true true false true idle)
     = [EvLog INFO (MsgStarting 3);
        EvDaemon 0; EvStart 0; EvDaemon 1;
        EvLog CRITICAL (MsgStartFailed (Exn RuntimeError "can't start new thread"));
        EvSleep; EvSleep; EvSleep;
        EvRelease "cache"; EvRelease "io"; EvRelease "value"; EvFlush; EvCleanup]
  /\ filter is_start (trace (runThreads 10 refusing_start 3 true true false true idle))
     = [EvStart 0]
  /\ filter is_daemon (trace (runThreads 10 refusing_start 3 true true false true idle))
     = [EvDaemon 0; EvDaemon 1]
  /\ all_stopped refusing_start
       (final (runThreads 10 refusing_start 3 true true false true idle)).
Proof.
  apply (start_failure_ends_loop 10 refusing_start eq_refl eq_refl 3 true true false true idle
           (entered refusing_start 3 idle) [] 1
           (Exn RuntimeError "can't start new thread"));
    try reflexivity.
  - cbn. lia.
  - intros [|j] Hj; [reflexivity|lia].
Defined.

(** A run of two workers cancelled once by Ctrl+C, with
    [forwardException]: the [KeyboardInterrupt] leaves it when the
    workers have stopped. *)
Lemma no_worker_left_running_witness :
  outcome (runThreads 10 ctrlC_once 2 true true false true idle)
  = Raise (Exn KeyboardInterrupt EmptyString)
  /\ all_stopped ctrlC_once (final (runThreads 10 ctrlC_once 2 true true false true idle)).
Proof.
  split; [reflexivity|].
  apply (no_worker_left_running 10 ctrlC_once eq_refl eq_refl 2 true true false true idle).
  - vm_compute. discriminate.
  - reflexivity.
  - intros ex Hex. vm_compute in Hex. injection Hex as <-. right. reflexivity.
Defined.

(** A worker whose thread function raises [SqlmapValueException] while
    [conf.verbose] is 2, and the same worker when the key is missing. *)
Lemma adapter_traceback_witness :
  (forall v, conf_get (conf debugging) "verbose" = Some v ->
     worker value_worker debugging
     = (Normal tt, debugging,
        [EvCall "0"; EvClose]
        ++ if reports false (kb debugging) (Exn SqlmapValueException "unexpected value")
           then EvLog ERROR (MsgThread "0" "unexpected value")
                :: (if (1 <? v)
                       && negb (isinstance (Exn SqlmapValueException "unexpected value")
                                  SqlmapConnectionException)
                    then [EvTraceback] else [])
           else []))
  /\ worker value_worker debugging
     = (Normal tt, debugging,
        [EvCall "0"; EvClose; EvLog ERROR (MsgThread "0" "unexpected value"); EvTraceback]).
Proof.
  split; [|reflexivity].
  apply (adapter_traceback value_worker (_threadFunction value_worker) false debugging
           (Exn SqlmapValueException "unexpected value") debugging [EvCall "0"; EvClose]);
    reflexivity.
Defined.

(** A worker whose thread function ends with [SystemExit]. *)
Lemma adapter_lets_out_witness :
  (outcome (_threadFunction exiting_worker idle) = Raise (Exn SystemExit "1")
   /\ isinstance_Exception (Exn SystemExit "1") = false)
  \/ (Exn SystemExit "1" = None_gt_1
      /\ PY3 exiting_worker = true
      /\ conf_get (conf (final (_threadFunction exiting_worker idle))) "verbose" = None
      /\ exists ex0,
           outcome (_threadFunction exiting_worker idle) = Raise ex0
           /\ reports false (kb (final (_threadFunction exiting_worker idle))) ex0 = true).
Proof.
  apply (adapter_lets_out exiting_worker (_threadFunction exiting_worker) false idle).
  reflexivity.
Defined.

(** A [SqlmapConnectionException] at the prompt, in Python 3 and with a
    [conf] that has no key ["详细的"]: the error is logged and the run
    raises [TypeError]. *)
Lemma failure_logged_witness :
  outcome (runThreads 10 connection_prompt 1 true true true true idle) = Raise None_gt_1
  /\ trace (runThreads 10 connection_prompt 1 true true true true idle)
     = [EvReadInput 1; EvPrint;
        EvLog ERROR (MsgFailure "MainThread"
                       (Exn SqlmapConnectionException "connection timed out"));
        EvRelease "cache"; EvRelease "io"; EvRelease "value"; EvFlush; EvCleanup].
Proof.
  apply (failure_logged 10 connection_prompt eq_refl eq_refl 1 true true true true idle
           (Exn SqlmapConnectionException "connection timed out")
           (entered connection_prompt 1 idle) [EvReadInput 1]);
    reflexivity.
Defined.

(** The same run: the exception that leaves it is the [TypeError] of the
    comparison.  And the [SqlmapConnectionException] that leaves the run
    of [failing_cleanup] is the one that its cleanup function raised. *)
Lemma exceptions_that_leave_witness :
  (teardown_failure connection_prompt true idle = Some None_gt_1
   \/ (teardown_failure connection_prompt true idle = None
       /\ ((cancels None_gt_1 = true
            /\ (true = true
                \/ multipleCtrlC
                     (kb (final (runThreads 10 connection_prompt 1 true true true true idle)))
                   = true))
           \/ (None_gt_1 = Exn SqlmapThreadException multipleCtrlC_message
               /\ multipleCtrlC
                    (kb (final (runThreads 10 connection_prompt 1 true true true true idle)))
                  = true)
           \/ isinstance None_gt_1 sqlite3_Error = true
           \/ (None_gt_1 = None_gt_1
               /\ PY3 connection_prompt = true
               /\ conf_get (conf idle) "详细的" = None)
           \/ (isinstance_Exception None_gt_1 = false
               /\ isinstance None_gt_1 KeyboardInterrupt = false))
       /\ isinstance None_gt_1 SqlmapConnectionException = false
       /\ isinstance None_gt_1 SqlmapValueException = false))
  /\ outcome (runThreads 10 failing_cleanup 1 true true false true idle)
     = Raise (Exn SqlmapConnectionException "connection timed out")
  /\ teardown_failure failing_cleanup true idle
     = Some (Exn SqlmapConnectionException "connection timed out").
Proof.
  split.
  - apply (exceptions_that_leave 10 connection_prompt 1 true true true true idle None_gt_1).
    reflexivity.
  - split; [reflexivity|].
    destruct (exceptions_that_leave 10 failing_cleanup 1 true true false true idle
                (Exn SqlmapConnectionException "connection timed out") eq_refl)
      as [Hteardown|(_ & _ & Hconnection & _)];
      [exact Hteardown | discriminate Hconnection].
Defined.

(** With time-based and stacked queries only, the run does not ask; with
    no injection data it asks first. *)
Lemma prompt_only_when_due_witness :
  count is_read (trace (runThreads 10 two_typed 1 true true true true timed)) = 0%nat
  /\ exists rest,
       trace (runThreads 10 two_typed 1 true true true true idle) = EvReadInput 1 :: rest.
Proof.
  split.
  - apply (prompt_only_when_due 10 two_typed 1 true true true true timed). reflexivity.
  - apply (prompt_only_when_due 10 two_typed 1 true true true true idle);
      [reflexivity | discriminate].
Defined.

(** Four answers passed over or refused, then 4: the sixth answer is not
    read. *)
Lemma prompt_asks_until_accepted_witness :
  choose_threads 10 hesitant true (entered hesitant 1 idle)
  = (Normal tt, with_threads 4 (entered hesitant 1 idle),
     [EvReadInput 1; EvReadInput 1;
      EvReadInput 1; EvLog CRITICAL (MsgMaxThreads 10);
      EvReadInput 1; EvReadInput 1]).
Proof.
  apply (prompt_asks_until_accepted 10 hesitant true
           [EmptyString; "many"; "99"; "!"] "4" [Answer "7"] (entered hesitant 1 idle));
    try reflexivity.
  - repeat (apply Forall_cons;
            [first [left; reflexivity | right; split; reflexivity]|]).
    apply Forall_nil.
  - discriminate.
Defined.

(** A run of two workers cancelled by Ctrl+C during its first sleep. *)
Lemma cancellation_announced_witness :
  trace (runThreads 10 ctrlC_once 2 true false false true idle)
  = [EvLog INFO (MsgStarting 2); EvDaemon 0; EvStart 0; EvDaemon 1; EvStart 1;
     EvPrint; EvLog INFO (MsgWaiting true);
     EvRelease "cache"; EvRelease "io"; EvRelease "value"; EvFlush; EvCleanup]
  /\ prependFlag (kb (final (runThreads 10 ctrlC_once 2 true false false true idle))) = false.
Proof.
  apply (cancellation_announced 10 ctrlC_once eq_refl eq_refl 2 true false false true idle
           (Exn KeyboardInterrupt EmptyString)
           (final (guarded 10 ctrlC_once false true (entered ctrlC_once 2 idle)))
           [EvLog INFO (MsgStarting 2); EvDaemon 0; EvStart 0; EvDaemon 1; EvStart 1]);
    reflexivity.
Defined.

(** A worker and a run with one thread, with a session file. *)
Lemma handle_closed_after_work_witness :
  (exists rest,
     trace (worker sqlite_worker idle) = [EvCall "0"; EvClose] ++ rest
     /\ filter session_event rest = [])
  /\ filter session_event (trace (runThreads 10 quiet_work 1 true true false true idle))
     = [EvCall "MainThread"; EvClose; EvFlush].
Proof.
  destruct (handle_closed_after_work 10 quiet_work 1 true true false true idle
              (entered quiet_work 1 idle) [] eq_refl) as [_ Hrun].
  split.
  - apply (handle_closed_after_work 10 sqlite_worker 1 true true false true idle
             (entered sqlite_worker 1 idle) [] eq_refl).
  - apply Hrun; [reflexivity | cbn; lia].
Defined.


(** * lib/parse/cmdline.py: the properties *)

Section CommandLine.

Import CmdLine.

Local Open Scope nat_scope.

Variable h : Host.

(** ** Strings *)

Lemma eqb_eq (a b : str) : eqb a b = true <-> a = b.
Proof.
  revert b. induction a as [|x a IH]; intros [|y b]; cbn; split; try congruence; auto.
  - intros H. apply andb_prop in H. destruct H as [Hx Ha].
    apply N.eqb_eq in Hx. apply IH in Ha. congruence.
  - intros [= -> ->]. rewrite N.eqb_refl. now apply IH.
Qed.

Lemma eqb_refl (a : str) : eqb a a = true.
Proof. now apply eqb_eq. Qed.

Lemma mem_In (x : str) (l : list str) : mem x l = true <-> In x l.
Proof.
  unfold mem. rewrite existsb_exists. split.
  - intros (y & Hy & Heq). apply eqb_eq in Heq. now subst.
  - intros Hx. exists x. split; [assumption|apply eqb_refl].
Qed.

(** ** get_all_options *)

Lemma update_In (x : str) (l retVal : list str) :
  In x (update retVal l) <-> In x retVal \/ In x l.
Proof.
  unfold update. revert retVal. induction l as [|y l IH]; intros retVal; cbn.
  - tauto.
  - rewrite IH. destruct (mem y retVal) eqn:Hy.
    + apply mem_In in Hy. split; [tauto|]. intros [H|[<-|H]]; auto.
    + rewrite in_app_iff. cbn. tauto.
Qed.

Lemma update_NoDup (l retVal : list str) : NoDup retVal -> NoDup (update retVal l).
Proof.
  unfold update. revert retVal. induction l as [|y l IH]; intros retVal Hnodup; cbn.
  - exact Hnodup.
  - apply IH. destruct (mem y retVal) eqn:Hy; [exact Hnodup|].
    apply NoDup_app; [exact Hnodup|repeat constructor; auto|].
    intros x Hx [<-|[]]. apply mem_In in Hx. congruence.
Qed.

Lemma add_option_spec (o : Opt) (retVal retVal' : list str) :
  add_option o retVal = Ok retVal' ->
  exists l, names o = Some l
            /\ (forall x, In x retVal' <-> In x retVal \/ In x l)
            /\ (NoDup retVal -> NoDup retVal').
Proof.
  unfold add_option, names.
  destruct (option_strings o) as [l|].
  - intros [= <-]. exists l. auto using update_In, update_NoDup.
  - destruct (_long_opts o) as [long|]; [|discriminate].
    destruct (_short_opts o) as [short|]; [|discriminate].
    intros [= <-]. exists (long ++ short). repeat split; auto using update_NoDup.
    + rewrite !update_In, in_app_iff. tauto.
    + rewrite !update_In, in_app_iff. tauto.
Qed.

Lemma add_options_spec (objects : nat -> Opt) (l : list nat) (retVal retVal' : list str) :
  add_options objects l retVal = Ok retVal' ->
  Forall (fun o => names (objects o) <> None) l
  /\ (forall x, In x retVal'
                <-> In x retVal
                    \/ exists o ns, In o l /\ names (objects o) = Some ns /\ In x ns)
  /\ (NoDup retVal -> NoDup retVal').
Proof.
  revert retVal. induction l as [|o l IH]; intros retVal; cbn.
  - intros [= <-]. split; [constructor|]. split; [|auto]. intros x. split; [auto|].
    intros [H|(o & ns & [] & _)]. exact H.
  - destruct (add_option (objects o) retVal) as [r1|e] eqn:Ho; [|discriminate].
    intros Hrest. destruct (add_option_spec _ _ _ Ho) as (ns & Hns & Hin & Hnd).
    destruct (IH _ Hrest) as (Hnames & Hin' & Hnd').
    split; [constructor; [congruence|exact Hnames]|]. split; [|auto].
    intros x. rewrite Hin', Hin. split.
    + intros [[H|H]|(o' & ns' & Ho' & Hns' & Hx)]; eauto 8.
    + intros [H|(o' & ns' & [<-|Ho'] & Hns' & Hx)]; eauto 8.
      rewrite Hns in Hns'. injection Hns' as <-. auto.
Qed.

Lemma add_groups_spec (objects : nat -> Opt) (groups : list Instance)
    (retVal retVal' : list str) :
  add_groups objects groups retVal = Ok retVal' ->
  Forall (fun g => exists l, get_actions g = Some l
                             /\ Forall (fun o => names (objects o) <> None) l) groups
  /\ (forall x, In x retVal'
                <-> In x retVal
                    \/ exists g l o ns,
                         In g groups /\ get_actions g = Some l /\ In o l
                         /\ names (objects o) = Some ns /\ In x ns)
  /\ (NoDup retVal -> NoDup retVal').
Proof.
  revert retVal. induction groups as [|g groups IH]; intros retVal; cbn.
  - intros [= <-]. split; [constructor|]. split; [|auto]. intros x. split; [auto|].
    intros [H|(g & l & o & ns & [] & _)]. exact H.
  - unfold add_actions at 1. destruct (get_actions g) as [l|] eqn:Hg; [|discriminate].
    destruct (add_options objects l retVal) as [r1|e] eqn:Hl; [|discriminate].
    intros Hrest. destruct (add_options_spec _ _ _ _ Hl) as (Hnames & Hin & Hnd).
    destruct (IH _ Hrest) as (Hlists & Hin' & Hnd').
    split; [constructor; [exists l; auto|exact Hlists]|]. split; [|auto].
    intros x. rewrite Hin', Hin. split.
    + intros [[H|(o & ns & Ho & Hns & Hx)]|(g' & l' & o & ns & Hg' & Hl' & Ho & Hns & Hx)];
        [auto | right; exists g, l, o, ns; auto | right; exists g', l', o, ns; auto].
    + intros [H|(g' & l' & o & ns & [<-|Hg'] & Hl' & Ho & Hns & Hx)]; auto.
      * rewrite Hg in Hl'. injection Hl' as <-. left. right. eauto.
      * right. exists g', l', o, ns. auto.
Qed.

(** X13. When [get_all_options] returns, the parser and each of its groups
    have a list of options, each option of these lists has
    [option_strings] or both its long and its short names, and the set
    returned holds, once each, the names of the options of the parser and
    of its groups, and nothing else. *)
Theorem get_all_options_collects (p : Parser) (retVal : list str) :
  get_all_options p = Ok retVal ->
  exists top groups,
    get_actions (self p) = Some top
    /\ get_groups p = Ok groups
    /\ (forall g, In g groups -> exists l, get_actions g = Some l)
    /\ (forall o,
          In o top \/ (exists g l, In g groups /\ get_actions g = Some l /\ In o l) ->
          option_strings (options p o) <> None
          \/ (_long_opts (options p o) <> None /\ _short_opts (options p o) <> None))
    /\ (forall x,
          In x retVal
          <-> exists o ns,
                (In o top
                 \/ exists g l, In g groups /\ get_actions g = Some l /\ In o l)
                /\ names (options p o) = Some ns /\ In x ns)
    /\ NoDup retVal.
Proof.
  unfold get_all_options, add_actions.
  destruct (get_actions (self p)) as [top|]; [|discriminate].
  destruct (add_options (options p) top []) as [r1|e] eqn:Htop; [|discriminate].
  destruct (get_groups p) as [groups|e]; [|discriminate].
  intros Hgroups. exists top, groups.
  destruct (add_options_spec _ _ _ _ Htop) as (Hnames & Hin & Hnd).
  destruct (add_groups_spec _ _ _ _ Hgroups) as (Hlists & Hin' & Hnd').
  rewrite Forall_forall in Hnames, Hlists.
  assert (Hattrs : forall o,
            names (options p o) <> None ->
            option_strings (options p o) <> None
            \/ (_long_opts (options p o) <> None /\ _short_opts (options p o) <> None)).
  { intros o. unfold names.
    destruct (option_strings (options p o)); [left; discriminate|].
    destruct (_long_opts (options p o)), (_short_opts (options p o));
      intros H; try (now elim H).
    right. split; discriminate. }
  split; [reflexivity|]. split; [reflexivity|].
  split; [|split; [|split]].
  - intros g Hg. destruct (Hlists g Hg) as (l & Hl & _). exists l. exact Hl.
  - intros o [Ho|(g & l & Hg & Hl & Ho)]; apply Hattrs.
    + apply Hnames, Ho.
    + destruct (Hlists g Hg) as (l' & Hl' & Hall).
      rewrite Hl in Hl'. injection Hl' as <-.
      rewrite Forall_forall in Hall. apply Hall, Ho.
  - intros x. split.
    + rewrite Hin', Hin.
      intros [[[]|(o & ns & Ho & Hns & Hx)]|(g & l & o & ns & Hg & Hl & Ho & Hns & Hx)];
        exists o, ns; eauto 8.
    + rewrite Hin', Hin.
      intros (o & ns & [Ho|(g & l & Hg & Hl & Ho)] & Hns & Hx); [left; right|right]; eauto 10.
  - auto using NoDup_nil.
Qed.

(** X14. A parser of optparse has no attribute [_action_groups]: as long as
    no group was added to it, [option_groups] is empty, [get_groups]
    raises [AttributeError], and so does [get_all_options] once it has
    been through the options of the parser itself. *)
Theorem get_groups_needs_a_group (p : Parser) :
  option_groups p = Some [] ->
  _action_groups p = None ->
  get_groups p = Raise AttributeError
  /\ (forall retVal, get_all_options p <> Ok retVal)
  /\ (forall retVal,
        add_actions (options p) (self p) [] = Ok retVal ->
        get_all_options p = Raise AttributeError).
Proof.
  intros Hnone Hattr.
  assert (Hgroups : get_groups p = Raise AttributeError)
    by (unfold get_groups; now rewrite Hnone, Hattr).
  unfold get_all_options. rewrite Hgroups. repeat split.
  - intros retVal. destruct (add_actions _ _ _); discriminate.
  - intros retVal ->. reflexivity.
Qed.

(** ** More on strings *)

Lemma store_same {A} (l : list A) (k : nat) (x : A) :
  nth_error l k = Some x -> store l k x = Some l.
Proof.
  revert k. induction l as [|y l IH]; intros [|k]; cbn; try discriminate.
  - now intros [= ->].
  - intros H. now rewrite (IH _ H).
Qed.

Lemma store_length {A} (l l' : list A) (k : nat) (x : A) :
  store l k x = Some l' -> List.length l' = List.length l.
Proof.
  revert k l'. induction l as [|y l IH]; intros [|k] l'; cbn; try discriminate.
  - now intros [= <-].
  - destruct (store l k x) as [l''|] eqn:E; [|discriminate].
    intros [= <-]. cbn. now rewrite (IH _ _ E).
Qed.

Lemma store_within {A} (l : list A) (k : nat) (x : A) :
  k < List.length l -> exists l', store l k x = Some l'.
Proof.
  revert k. induction l as [|y l IH]; intros [|k]; cbn; try lia; eauto.
  intros Hk. destruct (IH k ltac:(lia)) as [l' ->]. eauto.
Qed.

Lemma store_nth {A} (l l' : list A) (k : nat) (x : A) :
  store l k x = Some l' ->
  forall j, nth_error l' j = if j =? k then Some x else nth_error l j.
Proof.
  revert k l'. induction l as [|y l IH]; intros [|k] l'; cbn; try discriminate.
  - intros [= <-] [|j]; reflexivity.
  - destruct (store l k x) as [l''|] eqn:E; [|discriminate].
    intros [= <-] [|j]; cbn; [reflexivity|]. now apply IH.
Qed.

Lemma with_argv_same (st : Run) : with_argv (argv st) st = st.
Proof. destruct st; reflexivity. Qed.

(** [argv[i] = x] when [argv[i]] is [x] already. *)
Lemma put_same (i : nat) (x : str) (st : Run) :
  nth_error (argv st) i = Some x -> put i x st = Done st.
Proof. intros H. unfold put. now rewrite (store_same _ _ _ H), with_argv_same. Qed.

Lemma among_false (l : list N) (c : N) :
  ~ In c l -> among l c = false.
Proof.
  intros Hc. unfold among. destruct (existsb _ l) eqn:E; [|reflexivity].
  apply existsb_exists in E. destruct E as (x & Hx & Heq).
  apply N.eqb_eq in Heq. subst. contradiction.
Qed.

Lemma ascii_not_dash (c : N) : (c <? 128)%N = true -> dash c = false.
Proof.
  intros Hc. apply N.ltb_lt in Hc. apply among_false. cbn. lia.
Qed.

Lemma ascii_not_quote (c : N) : (c <? 128)%N = true -> quote c = false.
Proof.
  intros Hc. apply N.ltb_lt in Hc. apply among_false. cbn. lia.
Qed.

Lemma dash_not_quote (c : N) : dash c = true -> quote c = false.
Proof.
  unfold dash, among. cbn [existsb]. rewrite !orb_true_iff, !N.eqb_eq.
  intros H. apply among_false. cbn. lia.
Qed.

(** The characters that the test of the quotation marks looks for are
    among those that the loop strips. *)
Lemma curly_quote (c : N) : curly c = true -> quote c = true.
Proof.
  unfold curly. intros H. apply andb_prop in H. destruct H as [Hlo Hhi].
  apply N.leb_le in Hlo. apply N.ltb_lt in Hhi.
  assert (Hc : (c = 0x2018 \/ c = 0x2019 \/ c = 0x201A \/ c = 0x201B
                \/ c = 0x201C \/ c = 0x201D \/ c = 0x201E \/ c = 0x201F)%N) by lia.
  destruct Hc as [->|[->|[->|[->|[->|[->|[->| ->]]]]]]]; reflexivity.
Qed.

Lemma lstrip_head (f : N -> bool) (s : str) :
  match lstrip f s with
  | c :: _ => f c = false
  | [] => True
  end.
Proof.
  induction s as [|c s IH]; cbn; [exact I|].
  destruct (f c) eqn:Hc; [exact IH|exact Hc].
Qed.

Lemma lstrip_plain (f : N -> bool) (c : N) (s : str) :
  f c = false -> lstrip f (c :: s) = c :: s.
Proof. intros Hc. cbn. now rewrite Hc. Qed.

(** What is left of [s.rstrip(chars)] does not end with one of [chars]. *)
Lemma rstrip_last (f : N -> bool) (s : str) (d : N) :
  rstrip f s <> [] -> f (last (rstrip f s) d) = false.
Proof.
  unfold rstrip. pose proof (lstrip_head f (rev s)) as Hhead.
  destruct (lstrip f (rev s)) as [|c r]; [intros H; now elim H|].
  intros _. cbn [rev]. now rewrite last_last.
Qed.

Lemma rstrip_plain (f : N -> bool) (s : str) (c : N) :
  f c = false -> rstrip f (s ++ [c]) = s ++ [c].
Proof.
  intros Hc. unfold rstrip. rewrite rev_app_distr. cbn [rev app].
  rewrite lstrip_plain by exact Hc. cbn [rev]. now rewrite rev_involutive.
Qed.

Lemma strip_last (f : N -> bool) (s : str) (d : N) :
  strip f s <> [] -> f (last (strip f s) d) = false.
Proof. apply rstrip_last. Qed.

(** [s.strip(chars)] when [s] neither begins nor ends with one of
    [chars]. *)
Lemma strip_plain (f : N -> bool) (s : str) :
  match s with c :: _ => f c = false | [] => True end ->
  f (last s 0%N) = false \/ s = [] ->
  strip f s = s.
Proof.
  intros Hfirst Hlast. unfold strip.
  destruct s as [|c s]; [reflexivity|].
  rewrite lstrip_plain by exact Hfirst.
  destruct Hlast as [Hlast|]; [|discriminate].
  destruct (exists_last (l := c :: s) ltac:(discriminate)) as (s' & z & Hs).
  rewrite Hs in *. rewrite last_last in Hlast. now apply rstrip_plain.
Qed.

Lemma ascii_last (s : str) : ascii s = true -> (last s 0 <? 128)%N = true.
Proof.
  unfold ascii. induction s as [|c s IH]; cbn; [reflexivity|].
  intros H. apply andb_prop in H. destruct H as [Hc Hs].
  destruct s; [exact Hc|]. now apply IH.
Qed.

(** ** Regular expressions *)

Lemma places_later (before ahead : str) :
  before <> [] -> Forall (fun p => fst p <> []) (places before ahead).
Proof.
  revert before. induction ahead as [|c ahead IH]; intros before Hb; cbn.
  - repeat constructor. exact Hb.
  - constructor; [exact Hb|]. apply IH. discriminate.
Qed.

(** A pattern that begins with [\A] is found at the start of the subject
    or nowhere. *)
Lemma search_bos (r : re) (s : str) : search (Cat Bos r) s = matches (Cat Bos r) s.
Proof.
  unfold search, matches.
  assert (Hlater : forall l, Forall (fun p : pos => fst p <> []) l ->
            existsb (fun p => match ends (Cat Bos r) p with [] => false | _ => true end) l
            = false).
  { induction 1 as [|p l Hp _ IH]; cbn [existsb]; [reflexivity|].
    rewrite IH, orb_false_r. cbn. destruct (fst p); [now elim Hp|reflexivity]. }
  destruct s as [|c s]; cbn [places existsb].
  - now rewrite orb_false_r.
  - rewrite Hlater, orb_false_r; [reflexivity|]. apply places_later. discriminate.
Qed.

Lemma rep_zero (f : N -> bool) (hi : option nat) (before ahead : str) :
  rep f 0 hi before ahead <> [].
Proof.
  destruct ahead as [|c ahead]; cbn; [discriminate|].
  destruct (f c && _); [|discriminate].
  intros H. apply app_eq_nil in H. destruct H as [_ H]. discriminate H.
Qed.

(** A repetition without an upper bound may end after any run of
    characters of the class that is long enough. *)
Lemma rep_In (f : N -> bool) (lo : nat) (before pre post : str) :
  forallb f pre = true ->
  lo <= List.length pre ->
  In (rev pre ++ before, post) (rep f lo None before (pre ++ post)).
Proof.
  revert lo before. induction pre as [|c pre IH]; intros lo before Hpre Hlo.
  - cbn in Hlo. assert (lo = 0) by lia. subst lo. cbn [rev app].
    destruct post as [|c post]; cbn; [auto|].
    apply in_or_app. right. left. reflexivity.
  - cbn in Hpre. apply andb_prop in Hpre. destruct Hpre as [Hc Hpre].
    cbn [app rep]. rewrite Hc. cbn [andb option_map].
    apply in_or_app. left. cbn [rev]. rewrite <- app_assoc. cbn [app].
    apply IH; [exact Hpre|cbn in Hlo; lia].
Qed.

(** It ends after the longest such run first. *)
Lemma rep_first (f : N -> bool) (lo : nat) (before pre post : str) :
  forallb f pre = true ->
  match post with c :: _ => f c = false | [] => True end ->
  lo <= List.length pre ->
  exists others,
    rep f lo None before (pre ++ post) = (rev pre ++ before, post) :: others.
Proof.
  revert lo before. induction pre as [|c pre IH]; intros lo before Hpre Hpost Hlo.
  - cbn in Hlo. assert (lo = 0) by lia. subst lo. cbn [rev app].
    destruct post as [|c post]; cbn; [eauto|]. rewrite Hpost. cbn. eauto.
  - cbn in Hpre. apply andb_prop in Hpre. destruct Hpre as [Hc Hpre].
    cbn [app rep]. rewrite Hc. cbn [andb option_map].
    destruct (IH (pred lo) (c :: before) Hpre Hpost ltac:(cbn in Hlo; lia))
      as [others ->].
    cbn [rev]. rewrite <- app_assoc. cbn [app]. eauto.
Qed.

(** Where a repetition may end, a run of characters of the class was
    read, and it is long enough. *)
Lemma rep_sound (f : N -> bool) (lo : nat) (hi : option nat) (before ahead : str) (p : pos) :
  In p (rep f lo hi before ahead) ->
  exists pre post,
    ahead = pre ++ post /\ p = (rev pre ++ before, post)
    /\ forallb f pre = true /\ lo <= List.length pre.
Proof.
  revert lo hi before. induction ahead as [|c ahead IH]; intros lo hi before; cbn [rep].
  - destruct (Nat.eqb_spec lo 0) as [->|]; [|intros []].
    intros [<-|[]]. exists [], []. auto.
  - intros Hin. apply in_app_or in Hin. destruct Hin as [Hin|Hin].
    + destruct (f c) eqn:Hc; [|destruct Hin].
      destruct (match hi with Some 0 => false | _ => true end); [|destruct Hin].
      cbn [andb] in Hin. apply IH in Hin.
      destruct Hin as (pre & post & -> & -> & Hpre & Hlo).
      exists (c :: pre), post. cbn [rev forallb List.length app].
      rewrite <- app_assoc, Hc, Hpre. repeat split. lia.
    + destruct (Nat.eqb_spec lo 0) as [->|]; [|destruct Hin].
      destruct Hin as [<-|[]]. exists [], (c :: ahead). auto.
Qed.

(** ** What every turn of the loop keeps *)

(** After the strip of the quotation marks, the test of the quotation
    marks fails: the last character is not one of those it looks for. *)
Lemma curly_quoted_stripped (s : str) :
  strip quote s <> [] -> curly_quoted h (strip quote s) = false.
Proof.
  intros Hs. unfold curly_quoted. cbn [forallb].
  destruct (curly (last (strip quote s) 0%N)) eqn:Hlast.
  - apply curly_quote in Hlast. now rewrite strip_last in Hlast.
  - now rewrite andb_false_r.
Qed.

Lemma steady_done (st : Run) : steady st (Done st).
Proof. split; reflexivity. Qed.

Lemma steady_raised (e : error) (st : Run) : e <> SystemExit -> steady st (Raised e st).
Proof. intros He. split; [reflexivity|]. cbn. destruct e; congruence. Qed.

Lemma steady_exit (o : output) (st : Run) :
  is_quotes o = false -> steady st (Raised SystemExit (write o st)).
Proof. intros Ho. split; [reflexivity|]. cbn. eauto. Qed.

Lemma steady_trans (st st1 : Run) (r : outcome) :
  steady st (Done st1) -> steady st1 r -> steady st r.
Proof.
  intros [Hl Hw] [Hl' Hw']. cbn in Hl, Hw. split; [congruence|].
  rewrite <- Hw. exact Hw'.
Qed.

Lemma put_steady (k : nat) (x : str) (st : Run) : steady st (put k x st).
Proof.
  unfold put. destruct (store (argv st) k x) as [l|] eqn:E.
  - split; [|reflexivity]. cbn. exact (store_length _ _ _ _ E).
  - apply steady_raised. discriminate.
Qed.

Lemma repeatable_steady (i : nat) (a : str) (st : Run) : steady st (repeatable h i a st).
Proof.
  unfold repeatable.
  destruct (key_of h a) as [key|]; [|apply steady_raised; discriminate].
  destruct (lookup key (auxIndexes st)) as [index|]; [|split; reflexivity].
  destruct (nth_error (argv st) index) as [held|]; [|apply steady_raised; discriminate].
  match goal with
  | |- steady _ (match ?v with _ => _ end) => destruct v as [x|]
  end; [|apply steady_raised; discriminate].
  pose proof (put_steady index (held ++ u "," ++ x) st) as H1.
  destruct (put index (held ++ u "," ++ x) st) as [st'|e st']; [|exact H1].
  exact (steady_trans _ _ _ H1 (put_steady i [] st')).
Qed.

Lemma header_steady (i : nat) (a : str) (st : Run) : steady st (header i a st).
Proof.
  unfold header. destruct (has 61 a).
  - destruct (nth_error (split1 61 a) 1); [split; reflexivity|].
    apply steady_raised. discriminate.
  - destruct (nth_error (argv st) (S i)); split; reflexivity.
Qed.

Lemma request_files_steady (i : nat) (js : list nat) (st : Run) :
  steady st (request_files h i js st).
Proof.
  revert st. induction js as [|j js IH]; intros st; cbn [request_files].
  - apply steady_done.
  - destruct (nth_error (argv st) j) as [value|]; [|apply steady_raised; discriminate].
    destruct (isfile h value); [|apply steady_done].
    destruct (nth_error (argv st) (S i)) as [first|]; [|apply steady_raised; discriminate].
    pose proof (put_steady (S i) (first ++ u "," ++ value) st) as H1.
    destruct (put (S i) (first ++ u "," ++ value) st) as [st1|e st1]; [|exact H1].
    pose proof (put_steady j [] st1) as H2.
    destruct (put j [] st1) as [st2|e st2].
    + exact (steady_trans _ _ _ H1 (steady_trans _ _ _ H2 (IH st2))).
    + exact (steady_trans _ _ _ H1 H2).
Qed.

Lemma basic_help_error (groups : list Instance) (p : Parser) (e : error) :
  basic_help h groups p = Raise e -> e <> SystemExit.
Proof.
  revert p. induction groups as [|group groups IH]; intros p; cbn [basic_help].
  - discriminate.
  - destruct (get_actions group) as [l|]; [|intros [= <-]; discriminate].
    destruct (hide h l (options p) false) as [objects found].
    destruct found; [apply IH|].
    destruct (remove_group group _) as [p2|e'] eqn:Hremove; [apply IH|].
    intros [= <-]. unfold remove_group in Hremove.
    repeat match type of Hremove with
           | match ?x with _ => _ end = _ => destruct x
           end; try discriminate; injection Hremove as <-; discriminate.
Qed.

Lemma help_steady (st : Run) : steady st (help h st).
Proof.
  unfold help. cbn [parser].
  destruct (get_groups (parser st)) as [groups|e] eqn:Hgroups.
  - destruct (basic_help h groups (parser st)) as [p|e] eqn:Hhelp.
    + split; reflexivity.
    + split; [reflexivity|]. cbn. apply basic_help_error in Hhelp.
      destruct e; congruence.
  - split; [reflexivity|]. cbn. unfold get_groups in Hgroups.
    repeat match type of Hgroups with
           | match ?x with _ => _ end = _ => destruct x
           end; try discriminate; injection Hgroups as <-; reflexivity.
Qed.

Lemma turn_steady (i : nat) (st : Run) : steady st (turn h i st).
Proof.
  unfold turn.
  destruct (nth_error (argv st) i) as [a0|]; [|apply steady_raised; discriminate].
  set (a := strip quote (sub_dashes a0)).
  pose proof (put_steady i a st) as H1.
  destruct (put i a st) as [st1|e st1]; [|exact H1].
  apply (steady_trans _ _ _ H1). clear H1.
  assert (Hdead : (1 <? List.length a) && curly_quoted h a = false).
  { destruct (1 <? List.length a) eqn:Hlen; [|reflexivity].
    apply curly_quoted_stripped. apply Nat.ltb_lt in Hlen.
    intros Hnil. fold a in Hnil. rewrite Hnil in Hlen. cbn in Hlen. lia. }
  rewrite Hdead.
  repeat match goal with
         | |- steady _ (if ?b then _ else _) => destruct b
         | |- steady _ (match put ?k ?x ?s with _ => _ end) =>
             let H := fresh "Hput" in
             pose proof (put_steady k x s) as H; destruct (put k x s)
         | |- steady _ (match ?x with _ => _ end) => destruct x
         end;
    first [ apply put_steady
          | apply steady_done
          | apply steady_exit; reflexivity
          | apply (steady_raised IndexError); discriminate
          | apply repeatable_steady
          | apply header_steady
          | apply request_files_steady
          | apply help_steady
          | assumption ].
Qed.

(** X15. The loop over the arguments leaves [argv] as long as it was.  It
    writes something only to exit: one message when it raises
    [SystemExit], nothing when it ends or raises anything else.  The
    message is never the one about the quotation marks, whose test comes
    after the strip that removes every character it looks for. *)
Theorem loop_writes_to_exit (st : Run) :
  List.length (argv (final (rewrite_arguments h st))) = List.length (argv st)
  /\ match raised (rewrite_arguments h st) with
     | Some SystemExit =>
         exists o,
           written (final (rewrite_arguments h st)) = written st ++ [o]
           /\ is_quotes o = false
     | _ => written (final (rewrite_arguments h st)) = written st
     end.
Proof.
  change (steady st (rewrite_arguments h st)). unfold rewrite_arguments.
  generalize (seq 0 (List.length (argv st))). intros l.
  revert st. induction l as [|i l IH]; intros st; cbn [turns].
  - apply steady_done.
  - pose proof (turn_steady i st) as H1.
    destruct (turn h i st) as [st1|e st1]; [|exact H1].
    exact (steady_trans _ _ _ H1 (IH st1)).
Qed.


(** ** What the loop may raise *)

Lemma lookup_assign (key key' : str) (v : option nat) (d : list (str * option nat))
    (index : nat) :
  lookup key' (assign key v d) = Some index ->
  v = Some index \/ lookup key' d = Some index.
Proof.
  induction d as [|[k w] d IH]; cbn.
  - destruct (eqb key key'); [auto|discriminate].
  - destruct (eqb k key) eqn:Hk; cbn.
    + apply eqb_eq in Hk. subst k. destruct (eqb key key'); auto.
    + destruct (eqb k key'); auto.
Qed.

Lemma split_has (sep : N) (s : str) :
  has sep s = true -> exists x y rest, split sep s = x :: y :: rest.
Proof.
  unfold has. induction s as [|c s IH]; cbn; [discriminate|].
  rewrite N.eqb_sym. destruct (N.eqb c sep).
  - intros _. destruct s as [|d s]; cbn; [eauto|].
    destruct (N.eqb d sep); [eauto|]. destruct (split sep s); eauto.
  - cbn. intros H. destruct (IH H) as (x & y & rest & ->). eauto.
Qed.

Lemma split1_has (sep : N) (s : str) :
  has sep s = true -> exists x y, split1 sep s = [x; y].
Proof.
  unfold has. induction s as [|c s IH]; cbn; [discriminate|].
  rewrite N.eqb_sym. destruct (N.eqb c sep).
  - intros _. eauto.
  - cbn. intros H. destruct (IH H) as (x & y & ->). eauto.
Qed.

Lemma item_within {A} (l : list A) (k : Z) :
  (0 <= k < Z.of_nat (List.length l))%Z -> exists x, item l k = Some x.
Proof.
  intros Hk. unfold item. destruct (Z.leb_spec 0 k); [|lia].
  destruct (nth_error l (Z.to_nat k)) as [x|] eqn:E; [eauto|].
  apply nth_error_None in E. lia.
Qed.

Lemma item_last {A} (l : list A) : l <> [] -> exists x, item l (-1) = Some x.
Proof.
  intros Hl. unfold item. cbn [Z.leb Z.compare].
  destruct l as [|y l]; [now elim Hl|].
  change (List.length (y :: l)) with (S (List.length l)).
  rewrite Nat2Z.inj_succ.
  destruct (Z.leb_spec (- Z.succ (Z.of_nat (List.length l))) (-1)); [|lia].
  destruct (nth_error _ _) as [x|] eqn:E; [eauto|].
  apply nth_error_None in E. cbn [List.length] in E. lia.
Qed.

Lemma put_done (k : nat) (x : str) (st : Run) :
  k < List.length (argv st) ->
  exists l,
    put k x st = Done (with_argv l st) /\ List.length l = List.length (argv st).
Proof.
  intros Hk. unfold put. destruct (store_within (argv st) k x Hk) as [l Hl].
  rewrite Hl. exists l. split; [reflexivity|]. exact (store_length _ _ _ _ Hl).
Qed.

(** *** The groups of the help *)

Lemma remove_In (x : nat) (l : list Instance) :
  In x (map ident l) ->
  exists l',
    remove x l = Some l'
    /\ (forall y, In y (map ident l') -> In y (map ident l))
    /\ (forall y, y <> x -> In y (map ident l) -> In y (map ident l'))
    /\ (NoDup (map ident l) -> NoDup (map ident l'))
    /\ (forall P : Instance -> Prop, Forall P l -> Forall P l').
Proof.
  induction l as [|g l IH]; cbn [map In remove]; [intros []|].
  intros Hx. destruct (Nat.eqb_spec (ident g) x) as [Heq|Hne].
  - exists l. repeat split.
    + intros y Hy. now right.
    + intros y Hy [Hg|Hin]; [congruence|exact Hin].
    + intros Hnd. now inversion Hnd.
    + intros P HP. now inversion HP.
  - destruct Hx as [Hx|Hx]; [contradiction|].
    destruct (IH Hx) as (l' & -> & Hsub & Hkeep & Hnd & Hall). exists (g :: l').
    repeat split.
    + intros y [Hy|Hy]; [left; exact Hy|right; auto].
    + intros y Hy [Hg|Hin]; [left; exact Hg|right; auto].
    + intros Hnd'. inversion Hnd' as [|? ? Hg Hl]; subst. cbn. constructor; auto.
    + intros P HP. inversion HP; subst. constructor; auto.
Qed.

Lemma basic_help_ok (rest cur : list Instance) (p : Parser) :
  option_groups p = None ->
  _action_groups p = Some cur ->
  NoDup (map ident cur) ->
  Forall (fun g => get_actions g <> None) cur ->
  NoDup (map ident rest) ->
  incl (map ident rest) (map ident cur) ->
  Forall (fun g => get_actions g <> None) rest ->
  exists p', basic_help h rest p = Ok p' /\ argparse p'.
Proof.
  revert cur p.
  induction rest as [|group rest IH]; intros cur p Hnone Hcur Hnd Hall Hnd' Hincl Hall'.
  - exists p. split; [reflexivity|]. split; [exact Hnone|]. exists cur. auto.
  - cbn [basic_help]. inversion Hall' as [|? ? Hgroup Hrest]; subst.
    inversion Hnd' as [|? ? Hfresh Hnd'']; subst.
    destruct (get_actions group) as [l|]; [|now elim Hgroup].
    destruct (hide h l (options p) false) as [objects found].
    destruct found.
    + apply (IH cur); auto. intros y Hy. apply Hincl. now right.
    + unfold remove_group. cbn [option_groups _action_groups options self].
      rewrite Hnone, Hcur.
      destruct (remove_In (ident group) cur) as (l' & -> & Hsub & Hkeep & Hnd1 & Hall1).
      { apply Hincl. now left. }
      apply (IH l'); auto.
      intros y Hy. apply Hkeep.
      * intros ->. contradiction.
      * apply Hincl. now right.
Qed.

Lemma help_passes (st0 st : Run) :
  argparse (parser st) -> indexed st ->
  List.length (argv st) = List.length (argv st0) ->
  passes st0 (help h st).
Proof.
  intros (Hnone & groups & Hgroups & Hnd & Hall) Hindexed Hl.
  unfold help, get_groups. cbn [parser]. rewrite Hnone, Hgroups.
  destruct (basic_help_ok groups groups (parser st)) as (p' & -> & Hp');
    auto using incl_refl.
  cbn. auto.
Qed.

Lemma passes_put (k : nat) (x : str) (st0 st : Run) :
  argparse (parser st) -> indexed st ->
  List.length (argv st) = List.length (argv st0) ->
  k < List.length (argv st) ->
  passes st0 (put k x st).
Proof.
  intros Hp Hi Hl Hk. destruct (put_done k x st Hk) as (l & -> & Hlen).
  cbn. split; [exact Hp|]. split; [|congruence].
  intros key index Hkey. cbn in *. rewrite Hlen. exact (Hi _ _ Hkey).
Qed.

Lemma header_passes (i : nat) (a : str) (st0 st : Run) :
  argparse (parser st) -> indexed st ->
  List.length (argv st) = List.length (argv st0) ->
  passes st0 (header i a st).
Proof.
  intros Hp Hi Hl. unfold header. destruct (has 61 a) eqn:Ha.
  - destruct (split1_has _ _ Ha) as (x & y & ->). cbn. auto.
  - destruct (nth_error (argv st) (S i)); cbn; auto.
Qed.

Lemma request_files_passes (i : nat) (js : list nat) (st0 st : Run) :
  argparse (parser st) -> indexed st ->
  List.length (argv st) = List.length (argv st0) ->
  Forall (fun j => S i < j < List.length (argv st)) js ->
  passes st0 (request_files h i js st).
Proof.
  revert st. induction js as [|j js IH]; intros st Hp Hi Hl Hjs; cbn [request_files].
  - cbn. auto.
  - inversion Hjs as [|? ? Hj Hjs']; subst.
    destruct (nth_error (argv st) j) as [value|] eqn:Hvalue;
      [|apply nth_error_None in Hvalue; lia].
    destruct (isfile h value); [|cbn; auto].
    destruct (nth_error (argv st) (S i)) as [first|] eqn:Hfirst;
      [|apply nth_error_None in Hfirst; lia].
    destruct (put_done (S i) (first ++ u "," ++ value) st ltac:(lia)) as (l1 & -> & Hl1).
    destruct (put_done j [] (with_argv l1 st) ltac:(cbn; lia)) as (l2 & -> & Hl2).
    cbn in Hl2. apply IH; cbn.
    + exact Hp.
    + intros key index Hkey. cbn in *. rewrite Hl2, Hl1. exact (Hi _ _ Hkey).
    + congruence.
    + rewrite Hl2, Hl1. exact Hjs'.
Qed.

(** *** The key of a repeated option *)

(** A string splits into its longest prefix of characters of a class
    and the rest. *)
Lemma run_split (f : N -> bool) (s : str) :
  exists w rest,
    s = w ++ rest /\ forallb f w = true
    /\ match rest with c :: _ => f c = false | [] => True end.
Proof.
  induction s as [|c s (w & rest & -> & Hw & Hrest)].
  - exists [], []. auto.
  - destruct (f c) eqn:Hc.
    + exists (c :: w), rest. cbn. rewrite Hc, Hw. auto.
    + exists [], (c :: w ++ rest). auto.
Qed.

Lemma wordy_rev (f : N -> bool) (w before : str) :
  w <> [] -> forallb f w = true -> wordy f (rev w ++ before) = true.
Proof.
  intros Hne Hw. destruct (exists_last Hne) as (w' & c & ->).
  rewrite rev_app_distr. cbn. rewrite forallb_app in Hw.
  apply andb_prop in Hw. destruct Hw as [_ Hc]. cbn in Hc.
  now rewrite andb_true_r in Hc.
Qed.

Lemma hd_error_app {A} (l l' : list A) :
  l <> [] -> hd_error (l ++ l') = hd_error l.
Proof. destruct l; [intros H; now elim H|reflexivity]. Qed.

(** The key of an argument that begins with two hyphens and a word
    character exists. *)
Lemma key_of_some (c : N) (rest : str) :
  word h c = true -> key_of h (45 :: 45 :: c :: rest)%N <> None.
Proof.
  intros Hc. unfold key_of, search_group. cbn [places flat_map].
  destruct (run_split (word h) rest) as (w & rest' & -> & Hw & Hrest').
  assert (Hgroup : group_at (Cat (Rep (one 45) 0 (Some 1)) (Chr 45))
                     (Rep (word h) 1 None) (Bnd (word h))
                     ([], 45 :: 45 :: c :: w ++ rest')%N <> None).
  { unfold group_at.
    change (ends (Cat (Rep (one 45) 0 (Some 1)) (Chr 45)) ([], 45 :: 45 :: c :: w ++ rest')%N)
      with [([45; 45], c :: w ++ rest'); ([45], 45 :: c :: w ++ rest')]%N.
    cbn [flat_map ends fst snd].
    destruct (rep_first (word h) 1 [45; 45]%N (c :: w) rest') as (others & Hfirst).
    { cbn. now rewrite Hc, Hw. }
    { exact Hrest'. }
    { cbn. lia. }
    change ((c :: w) ++ rest') with (c :: w ++ rest') in Hfirst. rewrite Hfirst.
    cbn [flat_map fst snd].
    rewrite (wordy_rev (word h) (c :: w) [45; 45]%N);
      [|discriminate|cbn; now rewrite Hc, Hw].
    assert (Hnot : wordy (word h) rest' = false).
    { destruct rest'; [reflexivity|exact Hrest']. }
    rewrite Hnot. cbn [xorb]. cbn [app]. discriminate. }
  destruct (group_at _ _ _ _) as [x|]; [|now elim Hgroup].
  cbn. discriminate.
Qed.

Lemma startswith_eq (p s : str) :
  startswith p s = true -> s = p ++ skipn (List.length p) s.
Proof.
  revert s. induction p as [|x p IH]; intros [|y s]; cbn; try discriminate; auto.
  intros H. apply andb_prop in H. destruct H as [Hx Hp].
  apply N.eqb_eq in Hx. subst y. f_equal. exact (IH _ Hp).
Qed.

Lemma startswith_app (p s : str) : startswith p (p ++ s) = true.
Proof. induction p as [|x p IH]; cbn; [reflexivity|]. now rewrite N.eqb_refl. Qed.

(** A literal matches the string that begins with it, once. *)
Lemma ends_lit (s : str) (p : pos) :
  s <> [] ->
  ends (lit s) p
  = if startswith s (snd p)
    then [(rev s ++ fst p, skipn (List.length s) (snd p))]
    else [].
Proof.
  revert p. induction s as [|c s IH]; intros [before ahead] Hs; [now elim Hs|].
  destruct s as [|c' s].
  - cbn. destruct ahead as [|x ahead]; [reflexivity|].
    rewrite (N.eqb_sym c x), andb_true_r. destruct (N.eqb_spec x c) as [->|]; reflexivity.
  - change (lit (c :: c' :: s)) with (Cat (Chr c) (lit (c' :: s))).
    cbn [ends fst snd]. destruct ahead as [|x ahead]; [reflexivity|].
    change (startswith (c :: c' :: s) (x :: ahead))
      with ((c =? x)%N && startswith (c' :: s) ahead).
    rewrite (N.eqb_sym c x).
    destruct (N.eqb_spec x c) as [->|]; [|reflexivity].
    cbn [flat_map andb]. rewrite app_nil_r, IH by discriminate. cbn [fst snd].
    destruct (startswith (c' :: s) ahead); [|reflexivity].
    change (rev (c :: c' :: s)) with (rev (c' :: s) ++ [c]).
    rewrite <- app_assoc. reflexivity.
Qed.

(** An argument of the branch of the repeated options begins with two
    hyphens and a letter. *)
Lemma repeatable_form (a : str) :
  search re_repeatable a = true ->
  exists c rest, a = (45 :: 45 :: c :: rest)%N /\ word h c = true.
Proof.
  unfold re_repeatable. rewrite search_bos. unfold matches.
  cbn [ends fst snd flat_map]. rewrite !app_nil_r.
  rewrite (ends_lit (u "--")) by discriminate. cbn [fst snd].
  destruct (startswith (u "--") a) eqn:Hdashes; [|discriminate].
  apply startswith_eq in Hdashes.
  set (a' := skipn (List.length (u "--")) a) in *. clearbody a'. subst a.
  cbn [flat_map]. rewrite app_nil_r.
  rewrite (ends_lit (u "tamper")), (ends_lit (u "ignore-code")), (ends_lit (u "skip"))
    by discriminate.
  cbn [fst snd].
  destruct (startswith (u "tamper") a') eqn:H1;
    [|destruct (startswith (u "ignore-code") a') eqn:H2;
      [|destruct (startswith (u "skip") a') eqn:H3; [|discriminate]]];
    intros _;
    match goal with
    | H : startswith ?lit a' = true |- _ => apply startswith_eq in H; rewrite H
    end; eexists _, _; (split; [reflexivity|reflexivity]).
Qed.

Lemma value_after_within (i : nat) (l : list str) (x : str) :
  value_after i l = Some x -> S i < List.length l.
Proof.
  unfold value_after. destruct (nth_error l (S i)) eqn:E; [|discriminate].
  intros _. apply nth_error_Some. congruence.
Qed.

Lemma repeatable_passes (i : nat) (a : str) (st0 st : Run) :
  argparse (parser st) -> indexed st ->
  List.length (argv st) = List.length (argv st0) ->
  i < List.length (argv st) ->
  search re_repeatable a = true ->
  passes st0 (repeatable h i a st).
Proof.
  intros Hp Hi Hl Hlt Ha. unfold repeatable.
  destruct (repeatable_form a Ha) as (c & rest & -> & Hc).
  pose proof (key_of_some c rest Hc) as Hkey.
  destruct (key_of h _) as [key|]; [clear Hkey|now elim Hkey].
  set (a := (45 :: 45 :: c :: rest)%N) in *.
  destruct (lookup key (auxIndexes st)) as [index|] eqn:Hindex.
  - pose proof (Hi _ _ Hindex) as Hwithin.
    destruct (nth_error (argv st) index) as [held|] eqn:Hheld;
      [|apply nth_error_None in Hheld; lia].
    assert (Hvalue : exists x,
              (if has 61 a then nth_error (split 61 a) 1
               else match value_after i (argv st) with
                    | Some x => Some x
                    | None => Some []
                    end) = Some x).
    { destruct (has 61 a) eqn:Heq.
      - destruct (split_has _ _ Heq) as (x & y & l & ->). cbn. eauto.
      - destruct (value_after i (argv st)); eauto. }
    destruct Hvalue as (x & ->).
    destruct (put_done index (held ++ u "," ++ x) st Hwithin) as (l1 & -> & Hl1).
    apply passes_put; cbn; try congruence.
    intros key' index' Hkey'. cbn in *. rewrite Hl1. exact (Hi _ _ Hkey').
  - cbn [passes parser argv]. split; [exact Hp|]. split; [|exact Hl].
    intros key' index' Hkey'. cbn [auxIndexes argv] in Hkey' |- *.
    apply lookup_assign in Hkey'. destruct Hkey' as [Hnew|Hold]; [|exact (Hi _ _ Hold)].
    destruct (has 61 a).
    + injection Hnew as <-. exact Hlt.
    + destruct (value_after i (argv st)) eqn:Hafter; [|discriminate].
      injection Hnew as <-. exact (value_after_within _ _ _ Hafter).
Qed.

Lemma turn_passes (i : nat) (st : Run) :
  argparse (parser st) -> indexed st -> i < List.length (argv st) ->
  passes st (turn h i st).
Proof.
  intros Hp Hi Hlt. unfold turn.
  destruct (nth_error (argv st) i) as [a0|] eqn:Ha0;
    [|apply nth_error_None in Ha0; lia].
  set (a := strip quote (sub_dashes a0)).
  destruct (put_done i a st Hlt) as (l1 & -> & Hl1).
  set (st1 := with_argv l1 st).
  assert (Hp1 : argparse (parser st1)) by exact Hp.
  assert (Hi1 : indexed st1).
  { intros key index Hkey. cbn in *. rewrite Hl1. exact (Hi _ _ Hkey). }
  assert (Hlen : List.length (argv st1) = List.length (argv st)) by exact Hl1.
  assert (Hlt1 : i < List.length (argv st1)) by (rewrite Hlen; exact Hlt).
  clearbody st1. clear Hp Hi Hl1 Ha0 l1.
  destruct (item_within (argv st1) (Z.max 0 (Z.of_nat i - 1)) ltac:(lia))
    as (before & Hbefore).
  rewrite Hbefore.
  assert (Hlast : exists x, item (argv st1) (Z.of_nat i - 1) = Some x).
  { destruct i as [|i].
    - apply item_last. destruct (argv st1); [cbn in Hlt1; lia|discriminate].
    - apply item_within. lia. }
  destruct Hlast as (x & Hlast). rewrite Hlast.
  repeat match goal with
         | |- passes _ (if ?b then _ else _) => destruct b eqn:?
         | |- passes _ (match put ?k ?x ?s with _ => _ end) =>
             let l := fresh "l" in
             let H := fresh "Hl" in
             destruct (put_done k x s Hlt1) as (l & -> & H)
         | |- passes _ (match (if ?b then _ else _) with _ => _ end) => destruct b eqn:?
         end;
    first [ apply passes_put; assumption
          | reflexivity
          | apply repeatable_passes; assumption
          | apply header_passes; assumption
          | apply help_passes; assumption
          | apply request_files_passes; [assumption..|];
            apply Forall_forall; intros j Hj; apply in_seq in Hj; lia
          | split; [exact Hp1|split; [exact Hi1|exact Hlen]]
          | split; [exact Hp1|]; split; [|cbn in *; congruence];
            intros key index Hkey; cbn in *;
            match goal with H : List.length _ = _ |- _ => rewrite H end;
            exact (Hi1 _ _ Hkey) ].
Qed.

Lemma turns_passes (l : list nat) (st0 st : Run) :
  argparse (parser st) -> indexed st ->
  List.length (argv st) = List.length (argv st0) ->
  Forall (fun i => i < List.length (argv st)) l ->
  passes st0 (turns h l st).
Proof.
  revert st. induction l as [|i l IH]; intros st Hp Hi Hl Hall; cbn [turns].
  - cbn. auto.
  - inversion Hall as [|? ? Hlt Hall']; subst.
    pose proof (turn_passes i st Hp Hi Hlt) as H1.
    destruct (turn h i st) as [st1|e st1]; [|exact H1].
    destruct H1 as (Hp1 & Hi1 & Hl1). apply IH; try assumption; [congruence|].
    rewrite Hl1. exact Hall'.
Qed.

(** X16. With a parser of argparse, the loop over the arguments raises
    nothing but [SystemExit], whatever the command line: no index is out
    of range, not that of the argument before the first, nor one that
    [auxIndexes] has kept; the key of a repeated option is always found;
    and the groups that the help removes are groups of the parser.  When
    the loop ends, the parser is still one of argparse. *)
Theorem loop_raises_only_exit (l : list str) (p : Parser) :
  argparse p ->
  match rewrite_arguments h (entering l p) with
  | Done st => argparse (parser st) /\ List.length (argv st) = List.length l
  | Raised e _ => e = SystemExit
  end.
Proof.
  intros Hp.
  pose proof (turns_passes (seq 0 (List.length l)) (entering l p) (entering l p)) as H.
  unfold rewrite_arguments. cbn [argv entering] in *.
  destruct (turns h _ _) as [st|e st].
  - destruct H as (Hp' & _ & Hl); auto.
    + intros key index Hkey. discriminate Hkey.
    + apply Forall_forall. intros i Hi. apply in_seq in Hi. lia.
  - apply H; auto.
    + intros key index Hkey. discriminate Hkey.
    + apply Forall_forall. intros i Hi. apply in_seq in Hi. lia.
Qed.

(** ** The hyphens and the quotation marks of an argument *)

Lemma lstrip_app (f : N -> bool) (q s : str) :
  forallb f q = true -> lstrip f (q ++ s) = lstrip f s.
Proof.
  induction q as [|c q IH]; cbn; [reflexivity|].
  intros H. apply andb_prop in H. destruct H as [-> Hq]. exact (IH Hq).
Qed.

Lemma rstrip_app (f : N -> bool) (s q : str) :
  forallb f q = true -> rstrip f (s ++ q) = rstrip f s.
Proof.
  intros Hq. unfold rstrip. rewrite rev_app_distr, lstrip_app; [reflexivity|].
  rewrite forallb_forall in *. intros x Hx. apply Hq. now apply in_rev.
Qed.

Lemma rstrip_keep (f : N -> bool) (s : str) :
  f (last s 0%N) = false -> rstrip f s = s.
Proof.
  intros Hlast. destruct s as [|c s] using rev_ind; [reflexivity|].
  rewrite last_last in Hlast. now apply rstrip_plain.
Qed.

Lemma quote_not_dash (c : N) : quote c = true -> dash c = false.
Proof.
  intros Hq. destruct (dash c) eqn:Hd; [|reflexivity].
  apply dash_not_quote in Hd. congruence.
Qed.

(** The substitution puts a hyphen for each character of the run of
    dashes with which the argument begins. *)
Lemma sub_dashes_run (d r : str) :
  forallb dash d = true ->
  match r with c :: _ => dash c = false | [] => True end ->
  sub_dashes (d ++ r) = repeat 45%N (List.length d) ++ r.
Proof.
  intros Hd Hr. unfold sub_dashes. cbn [ends fst snd flat_map]. rewrite app_nil_r.
  destruct d as [|c d].
  - cbn [app List.length repeat]. destruct r as [|c r]; [reflexivity|].
    cbn [rep]. rewrite Hr. reflexivity.
  - destruct (rep_first dash 1 [] (c :: d) r Hd Hr ltac:(cbn; lia)) as (others & ->).
    now rewrite app_nil_r, length_rev.
Qed.

Lemma last_app_keep (s t : str) (d : N) : t <> [] -> last (s ++ t) d = last t d.
Proof.
  intros Ht. induction s as [|c s IH]; [reflexivity|].
  cbn [app]. destruct (s ++ t) eqn:E; [|exact IH].
  apply app_eq_nil in E. destruct E as [_ E]. contradiction.
Qed.

Lemma last_plain (f : N -> bool) (m : str) :
  forallb (fun c => negb (f c)) m = true -> f 0%N = false -> f (last m 0%N) = false.
Proof.
  intros Hm H0. induction m as [|c m IH]; [exact H0|].
  cbn in Hm. apply andb_prop in Hm. destruct Hm as [Hc Hm].
  destruct m as [|c' m]; [now apply negb_true_iff in Hc|exact (IH Hm)].
Qed.

(** The strip of the quotation marks leaves what is between them, when
    that begins and ends with other characters. *)
Lemma strip_core (m body q : str) :
  forallb (fun c => negb (quote c)) m = true ->
  match body with c :: _ => quote c = false | [] => True end ->
  quote (last body 0%N) = false ->
  forallb quote q = true ->
  strip quote (m ++ body ++ q) = m ++ body.
Proof.
  intros Hm Hfirst Hlast Hq. unfold strip.
  assert (Hleft : lstrip quote (m ++ body ++ q) = (m ++ body) ++ q
                  \/ (m ++ body = [] /\ lstrip quote (m ++ body ++ q) = [])).
  { destruct m as [|c m].
    - destruct body as [|c body].
      + right. split; [reflexivity|]. cbn [app].
        rewrite <- (app_nil_r q), lstrip_app by exact Hq. reflexivity.
      + left. cbn [app]. now rewrite lstrip_plain.
    - left. cbn in Hm. apply andb_prop in Hm. destruct Hm as [Hc _].
      apply negb_true_iff in Hc. cbn [app]. rewrite lstrip_plain by exact Hc.
      now rewrite <- app_assoc. }
  destruct Hleft as [->|[-> ->]]; [|reflexivity].
  rewrite rstrip_app by exact Hq. apply rstrip_keep.
  destruct body as [|c body].
  - rewrite app_nil_r. now apply last_plain.
  - now rewrite last_app_keep by discriminate.
Qed.

Lemma repeat_plain (n : nat) :
  forallb (fun c => negb (quote c)) (repeat 45%N n) = true.
Proof. induction n as [|n IH]; [reflexivity|exact IH]. Qed.

Lemma dashes_plain (d : str) :
  forallb dash d = true -> forallb (fun c => negb (quote c)) d = true.
Proof.
  rewrite !forallb_forall. intros Hd c Hc. apply negb_true_iff, dash_not_quote. auto.
Qed.

(** X17. What the loop makes of an argument pasted from a text: the run of
    typographic dashes with which it begins becomes as many hyphens, and
    the quotation marks around it are removed.  When the argument is
    quoted, the substitution finds no dash at its start, and the dashes
    that the strip uncovers stay as they are. *)
Theorem pasted_argument (q1 d body q2 : str) :
  forallb quote q1 = true ->
  forallb dash d = true ->
  forallb quote q2 = true ->
  match body with c :: _ => dash c = false /\ quote c = false | [] => True end ->
  quote (last body 0%N) = false ->
  strip quote (sub_dashes (q1 ++ d ++ body ++ q2))
  = match q1 with
    | [] => repeat 45%N (List.length d)
    | _ => d
    end ++ body.
Proof.
  intros Hq1 Hd Hq2 Hfirst Hlast.
  assert (Hfirst' : match body with c :: _ => quote c = false | [] => True end)
    by (destruct body; [exact I|apply Hfirst]).
  destruct q1 as [|c q1].
  - cbn [app]. rewrite sub_dashes_run; [| exact Hd |].
    + apply strip_core; auto using repeat_plain.
    + destruct body as [|c body]; [|apply Hfirst].
      destruct q2 as [|c q2]; [exact I|].
      cbn in Hq2. apply andb_prop in Hq2. apply quote_not_dash, Hq2.
  - assert (Hsame : sub_dashes ((c :: q1) ++ d ++ body ++ q2)
                    = (c :: q1) ++ d ++ body ++ q2).
    { apply (sub_dashes_run [] ((c :: q1) ++ d ++ body ++ q2)); [reflexivity|].
      cbn in Hq1. apply andb_prop in Hq1. apply quote_not_dash, Hq1. }
    rewrite Hsame. unfold strip. rewrite lstrip_app by exact Hq1.
    apply (strip_core d body q2); auto using dashes_plain.
Qed.

(** ** The extra headers *)

Lemma split_cons (sep : N) (s : str) : exists w ws, split sep s = w :: ws.
Proof.
  induction s as [|c s (w & ws & IH)]; cbn; [eauto|].
  destruct (N.eqb c sep); [eauto|]. rewrite IH. eauto.
Qed.

Lemma split_app (sep : N) (a b : str) :
  split sep (a ++ sep :: b) = split sep a ++ split sep b.
Proof.
  induction a as [|c a IH]; cbn [app split].
  - now rewrite N.eqb_refl.
  - destruct (N.eqb c sep); [now rewrite IH|].
    rewrite IH. destruct (split_cons sep a) as (w & ws & ->). reflexivity.
Qed.

Lemma split_whole (sep : N) (s : str) : has sep s = false -> split sep s = [s].
Proof.
  unfold has. induction s as [|c s IH]; cbn; [reflexivity|].
  rewrite N.eqb_sym. destruct (N.eqb c sep); [discriminate|].
  cbn. intros H. now rewrite (IH H).
Qed.

Lemma split_join (sep : N) (l : list str) :
  l <> [] -> Forall (fun x => has sep x = false) l -> split sep (join [sep] l) = l.
Proof.
  induction l as [|x l IH]; intros Hl Hall; [now elim Hl|].
  inversion Hall as [|? ? Hx Hall']; subst.
  destruct l as [|y l]; [exact (split_whole _ _ Hx)|].
  change (join [sep] (x :: y :: l)) with (x ++ sep :: join [sep] (y :: l)).
  rewrite split_app, (split_whole _ _ Hx), IH by (discriminate || assumption).
  reflexivity.
Qed.

(** X18. The values of [-H] and [--header] are added to [args.headers] one
    per line: when none of them holds a line feed and the headers given
    do not hold a backslash followed by [n], the lines of the result are
    those of the headers given, a single empty one when there were none,
    and then the values in the order of the command line. *)
Theorem extra_headers_are_lines (headers : option str) (extra : list str) :
  extra <> [] ->
  Forall (fun x => has 10 x = false) extra ->
  infix (u "\n") (match headers with Some hs => hs | None => [] end) = false ->
  exists merged,
    merge_headers headers extra = Some merged
    /\ split 10 merged
       = split 10 (match headers with Some hs => hs | None => [] end) ++ extra.
Proof.
  intros Hextra Hall Hlit. unfold merge_headers.
  destruct extra as [|x extra]; [now elim Hextra|].
  set (given := match headers with Some hs => hs | None => [] end) in *.
  replace (match headers with Some (c :: r) => c :: r | _ => [] end) with given
    by (subst given; destruct headers as [[|c r]|]; reflexivity).
  rewrite Hlit. eexists. split; [reflexivity|].
  cbn [app]. rewrite split_app, split_join by (discriminate || assumption).
  reflexivity.
Qed.

(** ** The switches of the verbosity *)

Lemma verbosity_matches (n : nat) :
  search re_verbosity (45 :: repeat 118 (S n))%N = true.
Proof.
  unfold re_verbosity. rewrite search_bos. unfold matches.
  cbn [ends fst snd flat_map N.eqb Pos.eqb]. rewrite !app_nil_r.
  destruct (rep_first (one 118) 1 [45%N] (repeat 118%N (S n)) []) as (others & Hfirst).
  - clear. induction n as [|n IH]; [reflexivity|exact IH].
  - exact I.
  - cbn. lia.
  - rewrite app_nil_r in Hfirst. rewrite Hfirst. reflexivity.
Qed.

Lemma verbosity_count (n : nat) : count 118 (45 :: repeat 118 (S n))%N = S n.
Proof.
  unfold count. cbn [filter N.eqb Pos.eqb].
  induction n as [|n IH]; [reflexivity|].
  change (repeat 118%N (S (S n))) with (118%N :: repeat 118%N (S n)).
  cbn [filter N.eqb Pos.eqb List.length]. now rewrite IH.
Qed.

(** A number is not a switch of the verbosity. *)
Lemma isdigit_no_switch (y : str) :
  isdigit h y = true -> search re_verbosity y = false.
Proof.
  unfold re_verbosity. rewrite search_bos. unfold matches. cbn [ends fst snd flat_map].
  destruct y as [|c y]; [discriminate|]. cbn [isdigit forallb].
  intros H. apply andb_prop in H. destruct H as [Hc _].
  destruct (N.eqb_spec c 45) as [->|]; [discriminate Hc|reflexivity].
Qed.

Lemma scan_none (fuel k : nat) (st : Run) :
  (forall j y, k <= j -> nth_error (argv st) j = Some y -> search re_verbosity y = false) ->
  scan_verbosity h fuel k st = st.
Proof.
  revert k. induction fuel as [|fuel IH]; intros k Hnone; cbn [scan_verbosity]; [reflexivity|].
  destruct (nth_error (argv st) k) as [y|] eqn:Hy; [|reflexivity].
  rewrite (Hnone k y (le_n _) Hy). apply IH.
  intros j z Hj. apply Hnone. lia.
Qed.

Lemma scan_to (pre post : list str) (x : str) (fuel k : nat) (st : Run) :
  argv st = pre ++ x :: post ->
  Forall (fun y => search re_verbosity y = false) pre ->
  search re_verbosity x = true ->
  k <= List.length pre ->
  List.length pre - k < fuel ->
  scan_verbosity h fuel k st
  = scan_verbosity h (fuel - (List.length pre - k) - 1) (S (List.length pre))
      (take_verbosity h x st).
Proof.
  intros Hargv Hpre Hx. revert k.
  induction fuel as [|fuel IH]; intros k Hk Hfuel; [lia|].
  cbn [scan_verbosity]. rewrite Hargv.
  destruct (Nat.eq_dec k (List.length pre)) as [->|Hne].
  - rewrite nth_error_app2, Nat.sub_diag by lia. cbn [nth_error]. rewrite Hx.
    f_equal. lia.
  - rewrite nth_error_app1 by lia.
    destruct (nth_error pre k) as [y|] eqn:Hy; [|apply nth_error_None in Hy; lia].
    rewrite Forall_forall in Hpre. rewrite (Hpre y (nth_error_In _ _ Hy)).
    rewrite IH by lia. f_equal. lia.
Qed.

Lemma index_app (x : str) (pre post : list str) :
  Forall (fun y => eqb y x = false) pre ->
  index x (pre ++ x :: post) = Some (List.length pre).
Proof.
  induction 1 as [|y pre Hy _ IH]; cbn.
  - now rewrite eqb_refl.
  - now rewrite Hy, IH.
Qed.

Lemma delete_app {A} (pre post : list A) (x : A) :
  delete (List.length pre) (pre ++ x :: post) = pre ++ post.
Proof. induction pre as [|y pre IH]; cbn; [reflexivity|now rewrite IH]. Qed.

(** X19. The first switch [-v], [-vv], ... of the command line, when no
    other follows except right after it: it is left to the parser, and
    nothing changes, when the argument after it is a number; otherwise
    it is taken out of [argv] and [conf.verbose] is the number of its
    [v]s.  The argument that follows a switch taken out is not looked
    at: it stays in [argv] even when it is a switch itself. *)
Theorem verbosity_switch (pre post : list str) (n : nat) (st : Run) :
  argv st = pre ++ (45 :: repeat 118 (S n))%N :: post ->
  Forall (fun y => search re_verbosity y = false) pre ->
  Forall (fun y => search re_verbosity y = false) (tl post) ->
  verbosity h st
  = if match post with y :: _ => isdigit h y | [] => false end
    then st
    else MkRun (pre ++ post) (auxIndexes st) (extraHeaders st) (advancedHelp st)
           (skipThreadCheck st) (Some (S n)) (parser st) (written st).
Proof.
  intros Hargv Hpre Hpost. set (x := (45 :: repeat 118 (S n))%N) in *.
  pose proof (verbosity_matches n) as Hx. fold x in Hx.
  unfold verbosity.
  rewrite (scan_to pre post x _ 0 st Hargv Hpre Hx) by (rewrite ?Hargv, ?length_app; cbn; lia).
  assert (Hindex : index x (argv st) = Some (List.length pre)).
  { rewrite Hargv. apply index_app. rewrite Forall_forall in *. intros y Hy.
    destruct (eqb y x) eqn:E; [|reflexivity].
    apply eqb_eq in E. subst y. rewrite (Hpre _ Hy) in Hx. discriminate. }
  unfold take_verbosity. rewrite Hindex, Hargv, length_app. cbn [List.length].
  rewrite nth_error_app2 by lia.
  replace (S (List.length pre) - List.length pre) with 1 by lia.
  destruct post as [|y post]; cbn [nth_error tl List.length] in *.
  - replace (List.length pre =? List.length pre + 1 - 1) with true
      by (symmetry; apply Nat.eqb_eq; lia).
    rewrite delete_app, app_nil_r. fold x. unfold x at 1. rewrite verbosity_count.
    apply scan_none. cbn [argv]. intros j y Hj Hy.
    assert (j < List.length pre) by (apply nth_error_Some; congruence). lia.
  - replace (List.length pre =? List.length pre + S (S (List.length post)) - 1) with false
      by (symmetry; apply Nat.eqb_neq; lia).
    destruct (isdigit h y) eqn:Hy; cbn [negb].
    + apply scan_none. rewrite Hargv. intros j z Hj Hz.
      rewrite nth_error_app2 in Hz by lia.
      destruct (j - List.length pre) as [|[|k]] eqn:Hk; [lia| |]; cbn in Hz.
      * injection Hz as <-. exact (isdigit_no_switch _ Hy).
      * rewrite Forall_forall in Hpost. exact (Hpost _ (nth_error_In _ _ Hz)).
    + rewrite delete_app. fold x. unfold x at 1. rewrite verbosity_count.
      apply scan_none. cbn [argv]. intros j z Hj Hz.
      rewrite nth_error_app2 in Hz by lia.
      destruct (j - List.length pre) as [|k] eqn:Hk; [lia|]; cbn in Hz.
      rewrite Forall_forall in Hpost. exact (Hpost _ (nth_error_In _ _ Hz)).
Qed.

(** A switch of the verbosity is a hyphen followed by [v]s. *)
Lemma verbosity_form (x : str) :
  search re_verbosity x = true -> exists n, x = (45 :: repeat 118 (S n))%N.
Proof.
  unfold re_verbosity. rewrite search_bos. unfold matches. cbn [ends fst snd flat_map].
  rewrite app_nil_r. destruct x as [|c x]; [discriminate|].
  destruct (N.eqb_spec c 45) as [->|]; [|discriminate].
  cbn [flat_map fst snd]. rewrite app_nil_r.
  destruct (flat_map _ _) as [|p l] eqn:Hends; [discriminate|]. intros _.
  assert (Hin : In p (flat_map (fun p : pos => match snd p with [] => [p] | _ :: _ => [] end)
                        (rep (one 118) 1 None [45%N] x)))
    by (rewrite Hends; now left).
  apply in_flat_map in Hin. destruct Hin as (q & Hq & Hp).
  apply rep_sound in Hq. destruct Hq as (pre & post & -> & -> & Hpre & Hlen).
  cbn [snd] in Hp. destruct post as [|y post]; [|destruct Hp].
  rewrite app_nil_r. destruct pre as [|y pre]; [cbn in Hlen; lia|].
  exists (List.length pre). f_equal. clear - Hpre.
  change (repeat 118%N (S (List.length pre))) with (repeat 118%N (List.length (y :: pre))).
  induction (y :: pre) as [|z l IH]; [reflexivity|].
  cbn in Hpre. apply andb_prop in Hpre. destruct Hpre as [Hz Hl].
  apply N.eqb_eq in Hz. subst z. cbn. f_equal. exact (IH Hl).
Qed.

Lemma index_nth (x : str) (l : list str) (k : nat) :
  index x l = Some k -> nth_error l k = Some x.
Proof.
  revert k. induction l as [|y l IH]; intros k; cbn [index]; [discriminate|].
  destruct (eqb y x) eqn:E.
  - intros [= <-]. apply eqb_eq in E. now subst.
  - destruct (index x l) as [j|]; [|discriminate]. intros [= <-]. cbn. now apply IH.
Qed.

Lemma others_delete (l : list str) (k : nat) (x : str) :
  nth_error l k = Some x -> search re_verbosity x = true ->
  others (delete k l) = others l.
Proof.
  unfold others. revert k. induction l as [|y l IH]; intros [|k]; cbn; try discriminate.
  - intros [= ->] ->. reflexivity.
  - intros Hk Hx. now rewrite (IH _ Hk Hx).
Qed.

Lemma delete_incl {A} (l : list A) (k : nat) : incl (delete k l) l.
Proof.
  revert k. induction l as [|y l IH]; intros [|k]; cbn.
  - apply incl_refl.
  - apply incl_refl.
  - apply incl_tl, incl_refl.
  - intros z [<-|Hz]; [now left|right; exact (IH k z Hz)].
Qed.

Lemma delete_length {A} (l : list A) (k : nat) : List.length (delete k l) <= List.length l.
Proof.
  revert k. induction l as [|y l IH]; intros [|k]; cbn; try lia.
  specialize (IH k). lia.
Qed.

Lemma taken_refl (st : Run) : taken st st.
Proof.
  unfold taken. repeat match goal with |- _ /\ _ => split end;
    auto using incl_refl. now destruct st.
Qed.

Lemma taken_trans (st st1 st2 : Run) : taken st st1 -> taken st1 st2 -> taken st st2.
Proof.
  intros (Ho & Hi & Hl & Hv & Hs) (Ho' & Hi' & Hl' & Hv' & Hs').
  unfold taken. repeat match goal with |- _ /\ _ => split end.
  - congruence.
  - exact (incl_tran Hi' Hi).
  - lia.
  - destruct Hv' as [Hv'|(n & Hn & Hin)].
    + rewrite Hv'. exact Hv.
    + right. exists n. split; [exact Hn|]. exact (Hi _ Hin).
  - rewrite Hs'. rewrite Hs. reflexivity.
Qed.

Lemma take_verbosity_taken (x : str) (st : Run) :
  search re_verbosity x = true -> taken st (take_verbosity h x st).
Proof.
  intros Hx. unfold take_verbosity.
  destruct (index x (argv st)) as [k|] eqn:Hk; [|apply taken_refl].
  apply index_nth in Hk.
  match goal with
  | |- taken _ (match ?c with _ => _ end) => destruct c as [[|]|]
  end; try apply taken_refl.
  unfold taken. cbn [argv verbose]. repeat match goal with |- _ /\ _ => split end.
  - exact (others_delete _ _ _ Hk Hx).
  - apply delete_incl.
  - apply delete_length.
  - right. destruct (verbosity_form _ Hx) as (n & ->). exists n.
    rewrite verbosity_count. split; [reflexivity|]. exact (nth_error_In _ _ Hk).
  - reflexivity.
Qed.

(** X20. Whatever the command line, the loop over the switches of the
    verbosity takes nothing but such switches out of [argv]: the other
    arguments are all there afterwards, in their order, and no argument
    is new or changed.  [conf.verbose] is as it was, or the number, at
    least 1, of the [v]s of a switch of the command line; nothing else
    changes. *)
Theorem verbosity_takes_switches (st : Run) :
  others (argv (verbosity h st)) = others (argv st)
  /\ incl (argv (verbosity h st)) (argv st)
  /\ List.length (argv (verbosity h st)) <= List.length (argv st)
  /\ (verbose (verbosity h st) = verbose st
      \/ exists n,
           verbose (verbosity h st) = Some (S n)
           /\ In (45 :: repeat 118 (S n))%N (argv st))
  /\ verbosity h st
     = MkRun (argv (verbosity h st)) (auxIndexes st) (extraHeaders st) (advancedHelp st)
         (skipThreadCheck st) (verbose (verbosity h st)) (parser st) (written st).
Proof.
  change (taken st (verbosity h st)). unfold verbosity.
  assert (Hscan : forall fuel k st0,
            taken st st0 -> taken st (scan_verbosity h fuel k st0)).
  { induction fuel as [|fuel IH]; intros k st0 Hst0; cbn [scan_verbosity]; [exact Hst0|].
    destruct (nth_error (argv st0) k) as [x|]; [|exact Hst0].
    destruct (search re_verbosity x) eqn:Hx; [|exact (IH _ _ Hst0)].
    apply IH. exact (taken_trans _ _ _ Hst0 (take_verbosity_taken x st0 Hx)). }
  apply Hscan, taken_refl.
Qed.

(** ** The mark of the threads *)

Lemma has_app (c : N) (s t : str) : has c (s ++ t) = has c s || has c t.
Proof. apply existsb_app. Qed.

Lemma has_digits (c : N) (d : str) :
  digits d = true -> between 48 57 c = false -> has c d = false.
Proof.
  unfold digits, has. intros Hd Hc. induction d as [|x d IH]; [reflexivity|].
  cbn in *. apply andb_prop in Hd. destruct Hd as [Hx Hd]. rewrite (IH Hd), orb_false_r.
  destruct (N.eqb_spec c x) as [->|]; congruence.
Qed.

Lemma split1_whole (sep : N) (s : str) : has sep s = false -> split1 sep s = [s].
Proof.
  unfold has. induction s as [|c s IH]; cbn; [reflexivity|].
  rewrite N.eqb_sym. destruct (N.eqb c sep); [discriminate|].
  cbn. intros H. now rewrite (IH H).
Qed.

Lemma digit_ascii (c : N) : between 48 57 c = true -> (c <? 128)%N = true.
Proof.
  unfold between. intros H. apply andb_prop in H. destruct H as [_ H].
  apply N.leb_le in H. apply N.ltb_lt. lia.
Qed.

Lemma digits_decimal (d : str) : digits d = true -> forallb (decimal h) d = true.
Proof.
  unfold digits. rewrite !forallb_forall. intros Hd c Hc. specialize (Hd c Hc).
  unfold decimal. now rewrite (digit_ascii _ Hd).
Qed.

Lemma digits_ascii (d : str) : digits d = true -> ascii d = true.
Proof.
  unfold digits, ascii. rewrite !forallb_forall. intros Hd c Hc.
  exact (digit_ascii _ (Hd c Hc)).
Qed.

Lemma has_ascii (c : N) (s : str) :
  ascii s = true -> (c <? 128)%N = false -> has c s = false.
Proof.
  unfold ascii, has. intros Hs Hc. induction s as [|x s IH]; [reflexivity|].
  cbn in *. apply andb_prop in Hs. destruct Hs as [Hx Hs]. rewrite (IH Hs), orb_false_r.
  destruct (N.eqb_spec c x) as [->|]; congruence.
Qed.

Lemma ascii_app (s t : str) : ascii (s ++ t) = ascii s && ascii t.
Proof. apply forallb_app. Qed.

(** An argument made of ASCII characters, the first of which is not a
    hyphen, is as it was after the substitution of the dashes and the
    strip of the quotation marks. *)
Lemma ascii_same (a : str) : ascii a = true -> strip quote (sub_dashes a) = a.
Proof.
  intros Ha.
  assert (Hsub : sub_dashes a = a).
  { apply (sub_dashes_run [] a); [reflexivity|].
    destruct a as [|c a]; [exact I|].
    cbn in Ha. apply andb_prop in Ha. apply ascii_not_dash, Ha. }
  rewrite Hsub. apply strip_plain.
  - destruct a as [|c a]; [exact I|].
    cbn in Ha. apply andb_prop in Ha. apply ascii_not_quote, Ha.
  - left. apply ascii_not_quote, ascii_last, Ha.
Qed.

Lemma marked_matches (d : str) :
  d <> [] -> digits d = true -> matches (re_marked h) (d ++ [33%N]) = true.
Proof.
  intros Hne Hd. unfold matches, re_marked. cbn [ends fst snd flat_map].
  rewrite app_nil_r.
  destruct (rep_first (decimal h) 1 [] d [33%N]) as (others & ->).
  - exact (digits_decimal _ Hd).
  - reflexivity.
  - destruct d; [now elim Hne|cbn; lia].
  - reflexivity.
Qed.

Lemma ascii_not_curly (a : str) : ascii a = true -> curly_quoted h a = false.
Proof.
  intros Ha. unfold curly_quoted. cbn [forallb].
  destruct (curly (last a 0%N)) eqn:Hlast; [|now rewrite andb_false_r].
  apply curly_quote in Hlast. now rewrite (ascii_not_quote _ (ascii_last _ Ha)) in Hlast.
Qed.

(** The patterns that begin with a hyphen find nothing in an argument
    that begins with another character. *)
Lemma search_hyphen (r : re) (c : N) (rest : str) :
  (c =? 45)%N = false -> search (Cat Bos (Cat (Chr 45) r)) (c :: rest) = false.
Proof.
  intros Hc. rewrite search_bos. unfold matches. cbn [ends fst snd flat_map].
  now rewrite Hc.
Qed.

Lemma repeatable_hyphen (c : N) (rest : str) :
  (c =? 45)%N = false -> search re_repeatable (c :: rest) = false.
Proof.
  intros Hc. destruct (search re_repeatable (c :: rest)) eqn:E; [|reflexivity].
  destruct (repeatable_form _ E) as (x & y & [= -> _] & _). discriminate Hc.
Qed.

Lemma startswith_hyphen (p : str) (c : N) (rest : str) :
  (c =? 45)%N = false -> startswith (45%N :: p) (c :: rest) = false.
Proof. intros Hc. cbn [startswith]. now rewrite N.eqb_sym, Hc. Qed.

Lemma eqb_hyphen (p : str) (c : N) (rest : str) :
  (c =? 45)%N = false -> eqb (c :: rest) (45%N :: p) = false.
Proof. intros Hc. cbn [eqb]. now rewrite Hc. Qed.

Lemma header_hyphen (c : N) (rest : str) :
  (c =? 45)%N = false ->
  mem (c :: rest) [u "-H"; u "--header"]
  || existsb (fun o => startswith (o ++ u "=") (c :: rest)) [u "-H"; u "--header"]
  = false.
Proof.
  intros Hc. unfold mem. cbn [existsb].
  change (u "-H") with (45%N :: u "H"). change (u "--header") with (45%N :: u "-header").
  cbn [app]. rewrite !eqb_hyphen, !startswith_hyphen by exact Hc. reflexivity.
Qed.

Lemma item_nat {A} (l : list A) (k : nat) : item l (Z.of_nat k) = nth_error l k.
Proof.
  unfold item. destruct (Z.leb_spec 0 (Z.of_nat k)); [|lia]. now rewrite Nat2Z.id.
Qed.

Lemma flat_map_nil {A B} (f : A -> list B) (l : list A) :
  (forall x, In x l -> f x = []) -> flat_map f l = [].
Proof.
  induction l as [|x l IH]; intros H; cbn; [reflexivity|].
  rewrite (H x (or_introl eq_refl)), IH; [reflexivity|]. intros y Hy. apply H. now right.
Qed.

Lemma flat_map_some {A B} (f : A -> list B) (l : list A) (x : A) :
  In x l -> f x <> [] -> flat_map f l <> [].
Proof.
  intros Hx Hf Hnil. apply Hf. clear Hf.
  induction l as [|y l IH]; [destruct Hx|].
  cbn in Hnil. apply app_eq_nil in Hnil. destruct Hnil as [Hy Hl].
  destruct Hx as [->|Hx]; auto.
Qed.

Lemma matches_some (r : re) (s : str) : ends r ([], s) <> [] -> matches r s = true.
Proof. unfold matches. destruct (ends r ([], s)); [intros H; now elim H|reflexivity]. Qed.

(** A number followed by an exclamation mark is not taken for a URL. *)
Lemma url_digits (d : str) :
  digits d = true -> search (re_url h) (d ++ [33%N]) = false.
Proof.
  intros Hd. unfold re_url. rewrite search_bos. unfold matches.
  cbn [ends fst snd flat_map]. rewrite !app_nil_r.
  rewrite (ends_lit (u "http")), (ends_lit (u "www")) by discriminate. cbn [fst snd].
  destruct d as [|c d]; [reflexivity|].
  cbn in Hd. apply andb_prop in Hd. destruct Hd as [Hc Hd].
  assert (Hh : startswith (u "http") ((c :: d) ++ [33%N]) = false).
  { cbn [app]. change (u "http") with (104%N :: u "ttp"). cbn [startswith].
    destruct (N.eqb_spec 104 c) as [<-|]; [discriminate Hc|reflexivity]. }
  assert (Hw : startswith (u "www") ((c :: d) ++ [33%N]) = false).
  { cbn [app]. change (u "www") with (119%N :: u "ww"). cbn [startswith].
    destruct (N.eqb_spec 119 c) as [<-|]; [discriminate Hc|reflexivity]. }
  rewrite Hh, Hw. cbn [flat_map app].
  destruct (word h c); [|reflexivity]. cbn [flat_map]. rewrite app_nil_r.
  cbn [fst snd].
  match goal with
  | |- match flat_map ?f ?l with _ => _ end = _ => rewrite (flat_map_nil f l)
  end; [reflexivity|].
  intros p Hp. apply rep_sound in Hp.
  destruct Hp as (pre & post & Hsplit & -> & _ & _). cbn [fst snd].
  destruct post as [|x post]; [reflexivity|].
  assert (Hx : In x (d ++ [33%N])) by (rewrite Hsplit; apply in_or_app; right; now left).
  apply in_app_or in Hx. destruct Hx as [Hx|[<-|[]]]; [|reflexivity].
  unfold digits in Hd. rewrite forallb_forall in Hd. specialize (Hd x Hx).
  destruct (N.eqb_spec x 46) as [->|]; [discriminate Hd|reflexivity].
Qed.

Lemma threads_mark_after (i : nat) (d : str) (st : Run) :
  0 < i ->
  nth_error (argv st) (i - 1) = Some (u "--threads") ->
  nth_error (argv st) i = Some (d ++ [33%N]) ->
  d <> [] ->
  digits d = true ->
  mem (d ++ [33%N]) (IGNORED_OPTIONS h) = false ->
  mem (d ++ [33%N]) (DEPRECATED_OPTIONS h) = false ->
  exists l,
    store (argv st) i d = Some l
    /\ turn h i st
       = Done (MkRun l (auxIndexes st) (extraHeaders st) (advancedHelp st) true
                 (verbose st) (parser st) (written st)).
Proof.
  intros Hi Hbefore Hnth Hne Hd Hignored Hdeprecated.
  assert (Hascii : ascii (d ++ [33%N]) = true)
    by (rewrite ascii_app, (digits_ascii _ Hd); reflexivity).
  assert (Hequals : has 61 (d ++ [33%N]) = false)
    by (rewrite has_app, (has_digits _ _ Hd); reflexivity).
  assert (Hcomma : has 0xff0c (d ++ [33%N]) = false)
    by (apply has_ascii; [exact Hascii|reflexivity]).
  assert (Hmarked := marked_matches d Hne Hd).
  assert (Hurl := url_digits d Hd).
  assert (Hremove : removelast (d ++ [33%N]) = d) by apply removelast_last.
  assert (Hfirst : exists c rest, d ++ [33%N] = c :: rest /\ (c =? 45)%N = false).
  { destruct d as [|c d]; [now elim Hne|]. exists c, (d ++ [33%N]). split; [reflexivity|].
    cbn in Hd. apply andb_prop in Hd. destruct Hd as [Hc _].
    destruct (N.eqb_spec c 45) as [->|]; [discriminate Hc|reflexivity]. }
  unfold turn. rewrite Hnth, (ascii_same _ Hascii), (put_same _ _ _ Hnth).
  set (a := d ++ [33%N]) in *. clearbody a.
  destruct Hfirst as (c & rest & -> & Hc).
  assert (Hc' : (45 =? c)%N = false) by (now rewrite N.eqb_sym).
  replace (eqb (c :: rest) (u "-hh")) with false by (symmetry; apply eqb_hyphen, Hc).
  rewrite Hurl, (ascii_not_curly _ Hascii), !andb_false_r.
  unfold value_part. rewrite (split1_whole _ _ Hequals). cbn [last].
  rewrite Hcomma, andb_false_r.
  unfold re_short_equals, re_one_hyphen. rewrite !search_hyphen by exact Hc.
  rewrite Hignored, Hdeprecated.
  replace (startswith (u "--data-raw") (c :: rest)) with false
    by (symmetry; apply startswith_hyphen, Hc).
  replace (startswith (u "--auth-creds") (c :: rest)) with false
    by (symmetry; apply startswith_hyphen, Hc).
  replace (startswith (u "--drop-cookie") (c :: rest)) with false
    by (symmetry; apply startswith_hyphen, Hc).
  rewrite (repeatable_hyphen _ _ Hc), (header_hyphen _ _ Hc).
  replace (eqb (c :: rest) (u "--deps")) with false by (symmetry; apply eqb_hyphen, Hc).
  replace (eqb (c :: rest) (u "--disable-colouring")) with false
    by (symmetry; apply eqb_hyphen, Hc).
  replace (eqb (c :: rest) (u "-r")) with false by (symmetry; apply eqb_hyphen, Hc).
  rewrite Hmarked.
  replace (Z.max 0 (Z.of_nat i - 1)) with (Z.of_nat (i - 1)) by lia.
  rewrite item_nat, Hbefore, eqb_refl, Hremove. cbn [orb].
  assert (Hwithin : i < List.length (argv st)) by (apply nth_error_Some; congruence).
  destruct (store_within (argv st) i d Hwithin) as (l & Hl).
  exists l. split; [exact Hl|]. unfold put. rewrite Hl. reflexivity.
Qed.

Lemma search_url (s : str) : search (re_url h) s = matches (re_url h) s.
Proof. apply search_bos. Qed.

Lemma search_short_equals (s : str) :
  search (re_short_equals h) s = matches (re_short_equals h) s.
Proof. apply search_bos. Qed.

Lemma search_one_hyphen (s : str) :
  search (re_one_hyphen h) s = matches (re_one_hyphen h) s.
Proof. apply search_bos. Qed.

Lemma search_repeatable (s : str) : search re_repeatable s = matches re_repeatable s.
Proof. apply search_bos. Qed.

Lemma threads_mark_equals (i : nat) (d : str) (st : Run) :
  nth_error (argv st) i = Some (u "--threads=" ++ d ++ [33%N]) ->
  d <> [] ->
  digits d = true ->
  mem (u "--threads=" ++ d ++ [33%N]) (IGNORED_OPTIONS h) = false ->
  mem (u "--threads=" ++ d ++ [33%N]) (DEPRECATED_OPTIONS h) = false ->
  exists l,
    store (argv st) i (u "--threads=" ++ d) = Some l
    /\ turn h i st
       = Done (MkRun l (auxIndexes st) (extraHeaders st) (advancedHelp st) true
                 (verbose st) (parser st) (written st)).
Proof.
  intros Hnth Hne Hd Hignored Hdeprecated.
  set (a := u "--threads=" ++ d ++ [33%N]) in *.
  assert (Hascii : ascii a = true).
  { unfold a. rewrite !ascii_app, (digits_ascii _ Hd). reflexivity. }
  assert (Hcomma : has 0xff0c (d ++ [33%N]) = false).
  { apply has_ascii; [|reflexivity]. rewrite ascii_app, (digits_ascii _ Hd). reflexivity. }
  assert (Hremove : removelast a = u "--threads=" ++ d).
  { unfold a. rewrite app_assoc. apply removelast_last. }
  assert (Hmatch : matches (re_threads_marked h) a = true).
  { apply matches_some. unfold re_threads_marked. cbn [ends fst snd flat_map].
    rewrite app_nil_r, (ends_lit (u "--threads")) by discriminate. cbn [fst snd].
    change (startswith (u "--threads") a) with true.
    change (skipn (List.length (u "--threads")) a) with ([61%N] ++ d ++ [33%N]).
    cbn [flat_map]. rewrite app_nil_r.
    set (before := rev (u "--threads") ++ []).
    apply (flat_map_some _ _ (rev [61%N] ++ before, d ++ [33%N])).
    - apply (rep_In dot 1 before [61%N] (d ++ [33%N])); [reflexivity|cbn; lia].
    - cbn [fst snd].
      apply (flat_map_some _ _ (rev d ++ rev [61%N] ++ before, [33%N])).
      + apply (rep_In (decimal h) 1 _ d [33%N]); [exact (digits_decimal _ Hd)|].
        destruct d; [now elim Hne|cbn; lia].
      + discriminate. }
  unfold turn. rewrite Hnth, (ascii_same _ Hascii), (put_same _ _ _ Hnth).
  rewrite (ascii_not_curly _ Hascii), andb_false_r.
  change (eqb a (u "-hh")) with false.
  rewrite search_url, search_short_equals, search_one_hyphen, search_repeatable.
  change (matches (re_url h) a) with false. rewrite andb_false_r.
  change (value_part a) with (d ++ [33%N]). rewrite Hcomma, andb_false_r.
  change (matches (re_short_equals h) a) with false.
  change (matches (re_one_hyphen h) a) with false.
  rewrite Hignored, Hdeprecated.
  change (startswith (u "--data-raw") a) with false.
  change (startswith (u "--auth-creds") a) with false.
  change (startswith (u "--drop-cookie") a) with false.
  change (matches re_repeatable a) with false.
  change (mem a [u "-H"; u "--header"]
          || existsb (fun o => startswith (o ++ u "=") a) [u "-H"; u "--header"])
    with false.
  change (eqb a (u "--deps")) with false.
  change (eqb a (u "--disable-colouring")) with false.
  change (eqb a (u "-r")) with false.
  change (matches (re_marked h) a) with false.
  rewrite Hmatch, Hremove. cbn [orb].
  assert (Hwithin : i < List.length (argv st)) by (apply nth_error_Some; congruence).
  destruct (store_within (argv st) i (u "--threads=" ++ d) Hwithin) as (l & Hl).
  exists l. split; [exact Hl|]. unfold put. rewrite Hl. reflexivity.
Qed.

(** X21. The exclamation mark after the number of threads, in
    [--threads n!] as in [--threads=n!], is taken off the argument and
    [conf.skipThreadCheck] is set; nothing else changes. *)
Theorem threads_mark (i : nat) (d a : str) (st : Run) :
  nth_error (argv st) i = Some a ->
  d <> [] ->
  digits d = true ->
  (a = d ++ [33%N] /\ 0 < i /\ nth_error (argv st) (i - 1) = Some (u "--threads"))
  \/ a = u "--threads=" ++ d ++ [33%N] ->
  mem a (IGNORED_OPTIONS h) = false ->
  mem a (DEPRECATED_OPTIONS h) = false ->
  exists l,
    store (argv st) i (removelast a) = Some l
    /\ turn h i st
       = Done (MkRun l (auxIndexes st) (extraHeaders st) (advancedHelp st) true
                 (verbose st) (parser st) (written st)).
Proof.
  intros Hnth Hne Hd [(-> & Hi & Hbefore)| ->] Hignored Hdeprecated.
  - rewrite removelast_last. now apply threads_mark_after.
  - rewrite (app_assoc (u "--threads=") d), removelast_last.
    now apply threads_mark_equals.
Qed.

(** ** A short option written with an equals sign *)

Lemma lstrip_keep (f : N -> bool) (s t : str) (x : N) :
  f x = false -> lstrip f (s ++ x :: t) = lstrip f s ++ x :: t.
Proof.
  intros Hx. induction s as [|c s IH]; cbn [app lstrip].
  - now rewrite Hx.
  - destruct (f c); [exact IH|reflexivity].
Qed.

Lemma rstrip_keep_prefix (f : N -> bool) (pre v : str) (x : N) :
  f x = false -> rstrip f (pre ++ x :: v) = pre ++ x :: rstrip f v.
Proof.
  intros Hx. unfold rstrip. rewrite rev_app_distr. cbn [rev].
  rewrite <- app_assoc. cbn [app]. rewrite lstrip_keep by exact Hx.
  rewrite rev_app_distr. cbn [rev]. rewrite rev_involutive.
  now rewrite <- app_assoc.
Qed.

Lemma rep_one (f : N -> bool) (before ahead : str) (x : N) :
  f x = true -> rep f 1 None before (x :: ahead) <> [].
Proof.
  intros Hx. cbn [rep]. rewrite Hx. cbn [andb option_map pred Nat.eqb].
  rewrite app_nil_r. apply rep_zero.
Qed.

Lemma word_not_equals (c : N) : word h c = true -> (c =? 61)%N = false.
Proof.
  intros Hc. destruct (N.eqb_spec c 61) as [->|]; [discriminate Hc|reflexivity].
Qed.

(** X22. A short option followed by an equals sign and a value, as in
    [-p=id], ends the program: with the message about the comma when
    the value holds a full-width comma, with the message about the
    short option otherwise. *)
Theorem short_equals_exits (i : nat) (c x : N) (v : str) (st : Run) :
  nth_error (argv st) i = Some (45 :: c :: 61 :: x :: v)%N ->
  word h c = true ->
  x <> 10%N ->
  quote x = false ->
  let a := (45 :: c :: 61 :: x :: rstrip quote v)%N in
  exists l,
    store (argv st) i a = Some l
    /\ turn h i st
       = Raised SystemExit
           (write (if has 0xff0c (x :: rstrip quote v) then OutComma a
                   else OutShortEquals a)
              (with_argv l st)).
Proof.
  intros Hnth Hc Hx Hquote a.
  assert (Hwithin : i < List.length (argv st)) by (apply nth_error_Some; congruence).
  destruct (store_within (argv st) i a Hwithin) as (l & Hl).
  exists l. split; [exact Hl|].
  assert (Hnorm : strip quote (sub_dashes (45 :: c :: 61 :: x :: v)%N) = a).
  { change (sub_dashes (45 :: c :: 61 :: x :: v)%N) with (45 :: c :: 61 :: x :: v)%N.
    unfold strip. change (lstrip quote (45 :: c :: 61 :: x :: v)%N)
      with (45 :: c :: 61 :: x :: v)%N.
    exact (rstrip_keep_prefix quote [45; c; 61]%N v x Hquote). }
  assert (Hdead : (1 <? List.length a) && curly_quoted h a = false).
  { rewrite <- Hnorm. rewrite curly_quoted_stripped, andb_false_r; [reflexivity|].
    rewrite Hnorm. discriminate. }
  unfold turn. rewrite Hnth, Hnorm. unfold put. rewrite Hl.
  set (st1 := with_argv l st). rewrite Hdead.
  replace (eqb a (u "-hh")) with false
    by (unfold a; cbn [eqb u]; destruct (N.eqb c _); reflexivity).
  rewrite search_url, search_short_equals.
  change (matches (re_url h) a) with false. rewrite andb_false_r.
  assert (Hvalue : value_part a = x :: rstrip quote v).
  { unfold value_part, a. cbn [split1 N.eqb Pos.eqb]. now rewrite (word_not_equals _ Hc). }
  rewrite Hvalue. change (1 <? List.length a) with true. cbn [andb].
  destruct (has 65292 (x :: rstrip quote v)); [reflexivity|].
  assert (Hmatch : matches (re_short_equals h) a = true).
  { apply matches_some. unfold re_short_equals, a. cbn [ends fst snd flat_map N.eqb Pos.eqb].
    rewrite Hc. cbn [flat_map ends fst snd N.eqb Pos.eqb]. rewrite !app_nil_r.
    apply rep_one. unfold dot. apply negb_true_iff. now apply N.eqb_neq. }
  now rewrite Hmatch.
Qed.

(** ** The basic help *)

Lemma advanced_suppress (o k : nat) (objects : nat -> Opt) :
  advanced h (suppress o objects k) = advanced h (objects k).
Proof. unfold suppress, advanced. destruct (Nat.eqb k o); reflexivity. Qed.

Lemma existsb_same {A} (f g : A -> bool) (l : list A) :
  (forall x, f x = g x) -> existsb f l = existsb g l.
Proof. intros H. induction l as [|x l IH]; cbn; [reflexivity|]. now rewrite H, IH. Qed.

Lemma hide_spec (l : list nat) (objects : nat -> Opt) (found : bool) :
  (forall k,
     fst (hide h l objects found) k
     = if existsb (Nat.eqb k) l && advanced h (objects k)
       then hidden (objects k)
       else objects k)
  /\ snd (hide h l objects found)
     = found || existsb (fun o => negb (advanced h (objects o))) l.
Proof.
  revert objects found. induction l as [|o l IH]; intros objects found; cbn [hide].
  - split; [reflexivity|]. cbn. now rewrite orb_false_r.
  - destruct (advanced h (objects o)) eqn:Ho.
    + destruct (IH (suppress o objects) found) as (Hfst & Hsnd). split.
      * intros k. rewrite Hfst, advanced_suppress. cbn [existsb].
        unfold suppress. destruct (Nat.eqb_spec k o) as [->|Hne]; cbn [orb].
        -- rewrite Ho, andb_true_r. destruct (existsb (Nat.eqb o) l); reflexivity.
        -- reflexivity.
      * rewrite Hsnd. cbn [existsb]. rewrite Ho. cbn [negb orb]. f_equal.
        apply existsb_same. intros x. now rewrite advanced_suppress.
    + destruct (IH objects true) as (Hfst & Hsnd). split.
      * intros k. rewrite Hfst. cbn [existsb].
        destruct (Nat.eqb_spec k o) as [->|Hne]; cbn [orb]; [|reflexivity].
        now rewrite Ho, !andb_false_r.
      * rewrite Hsnd. cbn [existsb]. rewrite Ho. cbn. now rewrite orb_true_r.
Qed.

Lemma remove_app (g : Instance) (kept rest : list Instance) :
  ~ In (ident g) (map ident kept) ->
  remove (ident g) (kept ++ g :: rest) = Some (kept ++ rest).
Proof.
  induction kept as [|k kept IH]; intros Hfresh; cbn [app remove].
  - now rewrite Nat.eqb_refl.
  - destruct (Nat.eqb_spec (ident k) (ident g)) as [Heq|Hne].
    + elim Hfresh. now left.
    + rewrite IH; [reflexivity|]. intros Hin. apply Hfresh. now right.
Qed.

Lemma basic_help_spec (rest kept : list Instance) (p : Parser) :
  option_groups p = None ->
  _action_groups p = Some (kept ++ rest) ->
  NoDup (map ident (kept ++ rest)) ->
  Forall (fun g => get_actions g <> None) rest ->
  exists p',
    basic_help h rest p = Ok p'
    /\ self p' = self p
    /\ option_groups p' = None
    /\ _action_groups p' = Some (kept ++ filter (basic_group h (options p)) rest)
    /\ forall o,
         options p' o
         = if listed o rest && advanced h (options p o)
           then hidden (options p o)
           else options p o.
Proof.
  revert kept p. induction rest as [|group rest IH]; intros kept p Hnone Hcur Hnd Hall.
  - exists p. cbn. auto.
  - cbn [basic_help]. inversion Hall as [|? ? Hgroup Hrest]; subst.
    destruct (get_actions group) as [l|] eqn:Hl; [clear Hgroup|now elim Hgroup].
    destruct (hide_spec l (options p) false) as (Hfst & Hsnd).
    destruct (hide h l (options p) false) as [objects found]. cbn [fst snd orb] in *.
    assert (Hactions : actions group = l) by (unfold actions; now rewrite Hl).
    assert (Hbasic : basic_group h (options p) group = found)
      by (unfold basic_group; now rewrite Hactions).
    assert (Hadvanced : forall k, advanced h (objects k) = advanced h (options p k)).
    { intros k. rewrite Hfst. destruct (_ && _); reflexivity. }
    assert (Hgroups : forall g, basic_group h objects g = basic_group h (options p) g).
    { intros g. unfold basic_group. apply existsb_same. intros x. now rewrite Hadvanced. }
    assert (Hoptions : forall (p' : Parser) o,
              options p' o
              = (if listed o rest && advanced h (objects o)
                 then hidden (objects o) else objects o) ->
              options p' o
              = if listed o (group :: rest) && advanced h (options p o)
                then hidden (options p o) else options p o).
    { intros p' o ->. rewrite Hadvanced, Hfst. cbn [listed existsb]. rewrite Hactions.
      fold (listed o rest).
      destruct (existsb (Nat.eqb o) l), (listed o rest), (advanced h (options p o));
        reflexivity. }
    destruct found.
    + destruct (IH (kept ++ [group])
                  (MkParser objects (self p) (option_groups p) (_action_groups p)))
        as (p' & -> & Hself & Hnone' & Hcur' & Hopt); cbn [option_groups _action_groups];
        rewrite <- ?app_assoc; auto.
      exists p'. split; [reflexivity|]. split; [exact Hself|]. split; [exact Hnone'|].
      split; [|intros o; apply Hoptions, Hopt].
      rewrite Hcur'. cbn [filter options]. rewrite Hbasic, <- app_assoc. cbn [app].
      do 2 f_equal. f_equal. apply filter_ext. exact Hgroups.
    + unfold remove_group. cbn [option_groups _action_groups options self].
      rewrite Hnone, Hcur, remove_app.
      * destruct (IH kept (MkParser objects (self p) None (Some (kept ++ rest))))
          as (p' & -> & Hself & Hnone' & Hcur' & Hopt); cbn [option_groups _action_groups];
          auto.
        { rewrite map_app in *. cbn [map] in Hnd. now apply NoDup_remove_1 in Hnd. }
        exists p'. split; [reflexivity|]. split; [exact Hself|]. split; [exact Hnone'|].
        split; [|intros o; apply Hoptions, Hopt].
        rewrite Hcur'. cbn [filter options]. rewrite Hbasic. do 2 f_equal.
        apply filter_ext. exact Hgroups.
      * rewrite map_app in Hnd. cbn [map] in Hnd. apply NoDup_remove_2 in Hnd.
        intros Hin. apply Hnd. apply in_or_app. now left.
Qed.

(** X23. What [-h] makes of a parser of argparse whose groups are distinct
    objects with a list of actions each: the basic help.  The groups
    kept are, in their order, those with an option whose [dest] is
    among [BASIC_HELP_ITEMS]; the options whose help is suppressed are
    those whose [dest] is not among them, in the groups kept as in the
    groups removed; the options of the parser itself and every other
    attribute are as they were, and [advancedHelp] is [False]. *)
Theorem help_keeps_basic (st : Run) (groups : list Instance) :
  option_groups (parser st) = None ->
  _action_groups (parser st) = Some groups ->
  NoDup (map ident groups) ->
  Forall (fun g => get_actions g <> None) groups ->
  exists p',
    help h st
    = Done (MkRun (argv st) (auxIndexes st) (extraHeaders st) false (skipThreadCheck st)
              (verbose st) p' (written st))
    /\ self p' = self (parser st)
    /\ option_groups p' = None
    /\ _action_groups p'
       = Some (filter (basic_group h (options (parser st))) groups)
    /\ forall o,
         options p' o
         = if listed o groups && advanced h (options (parser st) o)
           then hidden (options (parser st) o)
           else options (parser st) o.
Proof.
  intros Hnone Hgroups Hnd Hall.
  destruct (basic_help_spec groups [] (parser st) Hnone Hgroups Hnd Hall)
    as (p' & Hhelp & Hself & Hnone' & Hgroups' & Hoptions).
  exists p'. split; [|auto].
  unfold help, get_groups. cbn [parser]. now rewrite Hnone, Hgroups, Hhelp.
Qed.

(** ** The request files *)

Lemma store_app {A} (pre post : list A) (x y : A) :
  store (pre ++ x :: post) (List.length pre) y = Some (pre ++ y :: post).
Proof. induction pre as [|z pre IH]; cbn; [reflexivity|now rewrite IH]. Qed.

Lemma nth_error_middle {A} (pre post : list A) (x : A) :
  nth_error (pre ++ x :: post) (List.length pre) = Some x.
Proof. rewrite nth_error_app2, Nat.sub_diag by lia. reflexivity. Qed.

Lemma put_app (pre post : list str) (x y : str) (k : nat) (st : Run) :
  argv st = pre ++ x :: post ->
  k = List.length pre ->
  put k y st = Done (with_argv (pre ++ y :: post) st).
Proof. intros Hargv ->. unfold put. now rewrite Hargv, store_app. Qed.

Lemma request_files_run (pre rest : list str) (files blanks : list str) (acc : str)
    (st : Run) :
  argv st = pre ++ u "-r" :: acc :: blanks ++ files ++ rest ->
  forallb (isfile h) files = true ->
  match rest with r :: _ => isfile h r = false | [] => True end ->
  request_files h (List.length pre)
    (seq (List.length pre + 2 + List.length blanks) (List.length files + List.length rest))
    st
  = Done (with_argv
            (pre ++ u "-r" :: (acc ++ List.concat (map (fun f => u "," ++ f) files))
                 :: blanks ++ map (fun _ => []) files ++ rest)
            st).
Proof.
  revert blanks acc st.
  induction files as [|f files IH]; intros blanks acc st Hargv Hfiles Hrest.
  - cbn [map List.concat app List.length Nat.add] in *.
    rewrite app_nil_r.
    pose proof (with_argv_same st) as Hsame. rewrite Hargv in Hsame at 1.
    refine (eq_trans _ (f_equal Done (eq_sym Hsame))). clear Hsame.
    destruct rest as [|r rest]; [reflexivity|].
    cbn [List.length seq request_files].
    replace (nth_error (argv st) (List.length pre + 2 + List.length blanks)) with (Some r).
    + now rewrite Hrest.
    + assert (Hshape : argv st = ((pre ++ [u "-r"; acc]) ++ blanks) ++ r :: rest).
      { rewrite Hargv, <- !app_assoc. reflexivity. }
      rewrite Hshape. symmetry.
      replace (List.length pre + 2 + List.length blanks)
        with (List.length ((pre ++ [u "-r"; acc]) ++ blanks))
        by (rewrite !length_app; cbn; lia).
      apply nth_error_middle.
  - cbn in Hfiles. apply andb_prop in Hfiles. destruct Hfiles as [Hf Hfiles].
    cbn [List.length Nat.add seq request_files].
    set (j := List.length pre + 2 + List.length blanks).
    assert (Hshape : argv st = ((pre ++ [u "-r"; acc]) ++ blanks) ++ f :: files ++ rest).
    { rewrite Hargv, <- !app_assoc. reflexivity. }
    assert (Hj : j = List.length ((pre ++ [u "-r"; acc]) ++ blanks)).
    { unfold j. rewrite !length_app. cbn. lia. }
    replace (nth_error (argv st) j) with (Some f)
      by (rewrite Hshape, Hj; symmetry; apply nth_error_middle).
    rewrite Hf.
    assert (Hfirst : argv st = (pre ++ [u "-r"]) ++ acc :: blanks ++ (f :: files) ++ rest).
    { rewrite Hargv, <- !app_assoc. reflexivity. }
    assert (Hi : S (List.length pre) = List.length (pre ++ [u "-r"])).
    { rewrite length_app. cbn. lia. }
    replace (nth_error (argv st) (S (List.length pre))) with (Some acc)
      by (rewrite Hfirst, Hi; symmetry; apply nth_error_middle).
    rewrite (put_app _ _ _ (acc ++ u "," ++ f) _ st Hfirst Hi).
    set (acc' := acc ++ u "," ++ f).
    rewrite (put_app ((pre ++ [u "-r"; acc']) ++ blanks) (files ++ rest) f [] j).
    + replace (S j) with (List.length pre + 2 + List.length (blanks ++ [[]]))
        by (unfold j; rewrite length_app; cbn; lia).
      rewrite (IH (blanks ++ [[]]) acc').
      * f_equal. unfold with_argv. f_equal. cbn [argv map List.concat].
        unfold acc'. rewrite <- !app_assoc. reflexivity.
      * cbn [argv]. rewrite <- !app_assoc. reflexivity.
      * exact Hfiles.
      * exact Hrest.
    + cbn [argv with_argv]. rewrite <- !app_assoc. reflexivity.
    + rewrite Hj, !length_app. reflexivity.
Qed.

Lemma join_concat (d acc : str) (files : list str) :
  acc ++ List.concat (map (fun f => d ++ f) files) = join d (acc :: files).
Proof.
  revert acc. induction files as [|f files IH]; intros acc.
  - apply app_nil_r.
  - cbn [map List.concat]. change (join d (acc :: f :: files)) with (acc ++ d ++ join d (f :: files)).
    now rewrite <- IH, <- !app_assoc.
Qed.

(** X24. The files given after the first file of [-r] are added to it, each
    after a comma, and their arguments are emptied, up to the first
    argument that is not a file; the first argument after [-r] is not
    asked to be a file. *)
Theorem request_files_joined (pre files rest : list str) (first : str) (st : Run) :
  argv st = pre ++ u "-r" :: first :: files ++ rest ->
  forallb (isfile h) files = true ->
  match rest with r :: _ => isfile h r = false | [] => True end ->
  mem (u "-r") (IGNORED_OPTIONS h) = false ->
  mem (u "-r") (DEPRECATED_OPTIONS h) = false ->
  turn h (List.length pre) st
  = Done (with_argv
            (pre ++ u "-r" :: join (u ",") (first :: files)
                 :: map (fun _ => []) files ++ rest)
            st).
Proof.
  intros Hargv Hfiles Hrest Hignored Hdeprecated.
  assert (Hnth : nth_error (argv st) (List.length pre) = Some (u "-r"))
    by (rewrite Hargv; apply nth_error_middle).
  unfold turn. rewrite Hnth.
  change (strip quote (sub_dashes (u "-r"))) with (u "-r").
  rewrite (put_same _ _ _ Hnth), Hignored, Hdeprecated.
  change (eqb (u "-r") (u "-hh")) with false.
  change (search (re_url h) (u "-r")) with false. rewrite andb_false_r.
  change ((1 <? List.length (u "-r")) && curly_quoted h (u "-r")) with false.
  change ((1 <? List.length (u "-r")) && has 65292 (value_part (u "-r"))) with false.
  change (search (re_short_equals h) (u "-r")) with false.
  change (search (re_one_hyphen h) (u "-r")) with false.
  change (search re_repeatable (u "-r")) with false.
  cbv iota.
  change (startswith (u "--data-raw") (u "-r")) with false.
  change (startswith (u "--auth-creds") (u "-r")) with false.
  change (startswith (u "--drop-cookie") (u "-r")) with false.
  change (mem (u "-r") [u "-H"; u "--header"]
          || existsb (fun o => startswith (o ++ u "=") (u "-r")) [u "-H"; u "--header"])
    with false.
  change (eqb (u "-r") (u "--deps")) with false.
  change (eqb (u "-r") (u "--disable-colouring")) with false.
  change (eqb (u "-r") (u "-r")) with true.
  cbv iota.
  replace (seq (List.length pre + 2) (List.length (argv st) - (List.length pre + 2)))
    with (seq (List.length pre + 2 + List.length (@nil str))
            (List.length files + List.length rest)).
  - rewrite (request_files_run pre rest files [] first st Hargv Hfiles Hrest).
    cbn [app]. now rewrite join_concat.
  - rewrite Hargv, !length_app. cbn [List.length]. rewrite length_app. f_equal; lia.
Qed.

(** ** The options that may be repeated *)

(** X25. A later [--tamper=...], [--skip=...] or [--ignore-code=...]: its
    value, up to a second equals sign if it has one, is added after a
    comma to the argument that [auxIndexes] has kept for the option,
    and the argument itself is emptied.  The key of [--ignore-code] is
    [ignore]. *)
Theorem repeated_option_joined (i index : nat) (name value held : str) (st : Run) :
  In name [u "tamper"; u "ignore-code"; u "skip"] ->
  ascii value = true ->
  nth_error (argv st) i = Some (u "--" ++ name ++ u "=" ++ value) ->
  lookup (if eqb name (u "ignore-code") then u "ignore" else name) (auxIndexes st)
  = Some index ->
  nth_error (argv st) index = Some held ->
  mem (u "--" ++ name ++ u "=" ++ value) (IGNORED_OPTIONS h) = false ->
  mem (u "--" ++ name ++ u "=" ++ value) (DEPRECATED_OPTIONS h) = false ->
  exists l l',
    store (argv st) index (held ++ u "," ++ hd [] (split 61 value)) = Some l
    /\ store l i [] = Some l'
    /\ turn h i st = Done (with_argv l' st).
Proof.
  intros Hname Hvalue Hnth Hkey Hheld Hignored Hdeprecated.
  set (a := u "--" ++ name ++ u "=" ++ value) in *.
  assert (Hindex : index < List.length (argv st)) by (apply nth_error_Some; congruence).
  assert (Hi : i < List.length (argv st)) by (apply nth_error_Some; congruence).
  destruct (store_within (argv st) index (held ++ u "," ++ hd [] (split 61 value)) Hindex)
    as (l & Hl).
  destruct (store_within l i [] ltac:(now rewrite (store_length _ _ _ _ Hl))) as (l' & Hl').
  exists l, l'. split; [exact Hl|]. split; [exact Hl'|].
  assert (Hcomma : has 0xff0c value = false) by (apply has_ascii; [exact Hvalue|reflexivity]).
  destruct (split_cons 61 value) as (w & ws & Hsplit).
  rewrite Hsplit in Hl. cbn [hd] in Hl.
  destruct Hname as [<-|[<-|[<-|[]]]].
  all: assert (Hascii : ascii a = true) by (unfold a; rewrite !ascii_app, Hvalue; reflexivity).
  all: unfold turn; rewrite Hnth, (ascii_same _ Hascii), (put_same _ _ _ Hnth).
  all: rewrite (ascii_not_curly _ Hascii), andb_false_r.
  all: rewrite search_url, search_short_equals, search_one_hyphen, search_repeatable.
  all: change (eqb a (u "-hh")) with false.
  all: change (matches (re_url h) a) with false; rewrite andb_false_r.
  all: change (value_part a) with value; rewrite Hcomma, andb_false_r.
  all: change (matches (re_short_equals h) a) with false.
  all: change (matches (re_one_hyphen h) a) with false.
  all: rewrite Hignored, Hdeprecated.
  all: change (startswith (u "--data-raw") a) with false.
  all: change (startswith (u "--auth-creds") a) with false.
  all: change (startswith (u "--drop-cookie") a) with false.
  all: change (matches re_repeatable a) with true; cbv iota.
  all: unfold repeatable.
  all: match type of Hkey with
       | lookup ?k _ = _ =>
           let k' := eval vm_compute in k in
           change k with k' in Hkey; change (key_of h a) with (Some k')
       end.
  all: cbv iota beta; rewrite Hkey, Hheld.
  all: change (has 61 a) with true; cbv iota.
  all: change (nth_error (split 61 a) 1) with (nth_error (split 61 value) 0).
  all: rewrite Hsplit; cbn [nth_error]; unfold put; rewrite Hl; cbn [argv with_argv].
  all: now rewrite Hl'.
Qed.
End CommandLine.

(** ** Instances *)

Import CmdLine.

Local Open Scope nat_scope.

Lemma sample_parser_argparse : argparse sample_parser.
Proof.
  split; [reflexivity|]. exists [target; detection; enumeration].
  split; [reflexivity|]. split.
  - repeat constructor; cbn; intuition discriminate.
  - repeat constructor; discriminate.
Defined.

(** The options of [sample_parser], those of its groups being already
    among those of the parser itself. *)
Lemma get_all_options_collects_witness :
  get_all_options sample_parser
  = Ok [u "-h"; u "--help"; u "-u"; u "--url"; u "--level"; u "--banner"]
  /\ exists top groups,
       get_actions (self sample_parser) = Some top
       /\ get_groups sample_parser = Ok groups
       /\ (forall g, In g groups -> exists l, get_actions g = Some l)
       /\ (forall o,
             In o top \/ (exists g l, In g groups /\ get_actions g = Some l /\ In o l) ->
             option_strings (options sample_parser o) <> None
             \/ (_long_opts (options sample_parser o) <> None
                 /\ _short_opts (options sample_parser o) <> None))
       /\ (forall x,
             In x [u "-h"; u "--help"; u "-u"; u "--url"; u "--level"; u "--banner"]
             <-> exists o ns,
                   (In o top
                    \/ exists g l, In g groups /\ get_actions g = Some l /\ In o l)
                   /\ names (options sample_parser o) = Some ns /\ In x ns)
       /\ NoDup [u "-h"; u "--help"; u "-u"; u "--url"; u "--level"; u "--banner"].
Proof.
  split; [reflexivity|].
  apply (get_all_options_collects sample_parser). reflexivity.
Defined.

Lemma get_groups_needs_a_group_witness :
  get_groups bare_parser = Raise AttributeError
  /\ (forall retVal, get_all_options bare_parser <> Ok retVal)
  /\ (forall retVal,
        add_actions (options bare_parser) (self bare_parser) [] = Ok retVal ->
        get_all_options bare_parser = Raise AttributeError).
Proof.
  apply (get_groups_needs_a_group bare_parser); reflexivity.
Defined.

(** A command line with a URL, a repeated option and the help. *)
Lemma loop_raises_only_exit_witness :
  match
    rewrite_arguments plain_host
      (entering
         [u "sqlmap.py"; u "www.site.com"; u "--tamper=a"; u "-h"; u "--tamper"; u "b"]
         sample_parser)
  with
  | Done st => argparse (parser st) /\ List.length (argv st) = 6
  | Raised e _ => e = SystemExit
  end.
Proof.
  apply (loop_raises_only_exit plain_host
           [u "sqlmap.py"; u "www.site.com"; u "--tamper=a"; u "-h"; u "--tamper"; u "b"]
           sample_parser).
  exact sample_parser_argparse.
Defined.

(** [——url”], two em dashes and a closing quotation mark. *)
Lemma pasted_argument_witness :
  strip quote (sub_dashes ([0x2014; 0x2014]%N ++ u "url" ++ [0x201D%N])) = u "--url".
Proof.
  apply (pasted_argument [] [0x2014; 0x2014]%N (u "url") [0x201D%N]);
    [reflexivity | reflexivity | reflexivity | split; reflexivity | reflexivity].
Defined.

Lemma extra_headers_are_lines_witness :
  exists merged,
    merge_headers (Some (u "Accept: */*")) [u "X-A: 1"; u "X-B: 2"] = Some merged
    /\ split 10 merged = [u "Accept: */*"; u "X-A: 1"; u "X-B: 2"].
Proof.
  apply (extra_headers_are_lines (Some (u "Accept: */*")) [u "X-A: 1"; u "X-B: 2"]).
  - discriminate.
  - apply Forall_cons; [reflexivity|]. apply Forall_cons; [reflexivity|]. apply Forall_nil.
  - reflexivity.
Defined.

(** [-vv -v]: the first switch is taken, the second stays. *)
Lemma verbosity_switch_witness :
  verbosity plain_host
    (entering [u "sqlmap.py"; u "-u"; u "site"; u "-vv"; u "-v"] sample_parser)
  = MkRun [u "sqlmap.py"; u "-u"; u "site"; u "-v"] [] [] true false (Some 2)
      sample_parser [].
Proof.
  apply (verbosity_switch plain_host [u "sqlmap.py"; u "-u"; u "site"] [u "-v"] 1
           (entering [u "sqlmap.py"; u "-u"; u "site"; u "-vv"; u "-v"] sample_parser)).
  - reflexivity.
  - apply Forall_cons; [reflexivity|]. apply Forall_cons; [reflexivity|].
    apply Forall_cons; [reflexivity|]. apply Forall_nil.
  - apply Forall_nil.
Defined.

Lemma threads_mark_witness :
  exists l,
    store [u "sqlmap.py"; u "--threads"; u "20!"] 2 (u "20") = Some l
    /\ turn plain_host 2 (entering [u "sqlmap.py"; u "--threads"; u "20!"] sample_parser)
       = Done (MkRun l [] [] true true None sample_parser []).
Proof.
  apply (threads_mark plain_host 2 (u "20") (u "20!")
           (entering [u "sqlmap.py"; u "--threads"; u "20!"] sample_parser)).
  - reflexivity.
  - discriminate.
  - reflexivity.
  - left. split; [reflexivity|]. split; [lia|reflexivity].
  - reflexivity.
  - reflexivity.
Defined.

(** [-p=id] *)
Lemma short_equals_exits_witness :
  exists l,
    store [u "sqlmap.py"; u "-p=id"] 1 (u "-p=id") = Some l
    /\ turn plain_host 1 (entering [u "sqlmap.py"; u "-p=id"] sample_parser)
       = Raised SystemExit
           (write (OutShortEquals (u "-p=id"))
              (with_argv l (entering [u "sqlmap.py"; u "-p=id"] sample_parser))).
Proof.
  apply (short_equals_exits plain_host 1 112%N 105%N (u "d")
           (entering [u "sqlmap.py"; u "-p=id"] sample_parser)).
  - reflexivity.
  - reflexivity.
  - discriminate.
  - reflexivity.
Defined.

(** Of the three groups of [sample_parser], [target] alone has a basic
    option. *)
Lemma help_keeps_basic_witness :
  exists p',
    help plain_host (entering [u "sqlmap.py"; u "-h"] sample_parser)
    = Done (MkRun [u "sqlmap.py"; u "-h"] [] [] false false None p' [])
    /\ self p' = self sample_parser
    /\ option_groups p' = None
    /\ _action_groups p' = Some [target]
    /\ forall o,
         options p' o
         = if listed o [target; detection; enumeration]
              && advanced plain_host (options sample_parser o)
           then hidden (options sample_parser o)
           else options sample_parser o.
Proof.
  apply (help_keeps_basic plain_host (entering [u "sqlmap.py"; u "-h"] sample_parser)
           [target; detection; enumeration]).
  - reflexivity.
  - reflexivity.
  - apply NoDup_cons; [cbn; intuition discriminate|].
    apply NoDup_cons; [cbn; intuition discriminate|].
    apply NoDup_cons; [cbn; intuition|]. apply NoDup_nil.
  - apply Forall_cons; [discriminate|]. apply Forall_cons; [discriminate|].
    apply Forall_cons; [discriminate|]. apply Forall_nil.
Defined.

(** [-r r.txt a.txt b.txt --banner], [a.txt] and [b.txt] being files. *)
Lemma request_files_joined_witness :
  turn plain_host 1
    (entering [u "sqlmap.py"; u "-r"; u "r.txt"; u "a.txt"; u "b.txt"; u "--banner"]
       sample_parser)
  = Done
      (entering [u "sqlmap.py"; u "-r"; u "r.txt,a.txt,b.txt"; []; []; u "--banner"]
         sample_parser).
Proof.
  apply (request_files_joined plain_host [u "sqlmap.py"] [u "a.txt"; u "b.txt"]
           [u "--banner"] (u "r.txt")
           (entering [u "sqlmap.py"; u "-r"; u "r.txt"; u "a.txt"; u "b.txt"; u "--banner"]
              sample_parser));
    reflexivity.
Defined.

(** The value of the second [--tamper] is cut at its equals sign. *)
Lemma repeated_option_joined_witness :
  exists l l',
    store (argv tampering) 1 (u "--tamper=a,b") = Some l
    /\ store l 2 [] = Some l'
    /\ turn plain_host 2 tampering = Done (with_argv l' tampering).
Proof.
  apply (repeated_option_joined plain_host 2 1 (u "tamper") (u "b=c") (u "--tamper=a")
           tampering).
  - left. reflexivity.
  - reflexivity.
  - reflexivity.
  - reflexivity.
  - reflexivity.
  - reflexivity.
  - reflexivity.
Defined.
